(** * Mutation++ reaction kinetics: a shallow embedding of [Kinetics.cpp]

    The development follows [src/kinetics/Kinetics.cpp]: mechanism loading
    ([addReaction]), sealing and validation ([closeReactions]), the
    temperature cache ([updateT]) and the evaluation pipeline (rate
    coefficients, rates of progress, net production rates).

    Numbers.  A C++ [double] is modelled by a real number of [R]: sums,
    products, [std::exp], [std::log] and comparisons are the exact ones, and
    rounding, infinities and NaN are not modelled.  The one exception is
    the duplicate pass of [closeReactions], which normalizes two vectors
    and compares them with [==]: there the outcome is decided by rounding,
    so these vectors hold binary64 numbers.  A [size_t] is a binary natural
    number of [N]; the one place where the source relies on wrap-around
    ([m_num_rxns-1] and the conversion of a negative species index) is
    written out with [mod 2^64].

    Collaborators.  The classes [Reaction], [StoichiometryManager],
    [ThirdbodyManager], [RateManager], the vector class of [Numerics] and
    the header of [Thermodynamics] lie outside [Kinetics.cpp]; what the
    engine calls on them is modelled from the design document, and each
    such definition says so.  Two methods of the vector class, [normalize]
    and [operator==], are parameters of the development (the class
    [VectorClass]): the statements hold whatever the two methods compute,
    and the examples use an implementation in binary64 arithmetic.  The
    Jacobian manager is a parameter of [jacobianRho].

    The mixture.  The second part follows [src/thermo/Thermodynamics.cpp],
    the collaborator the engine reads its species from: the species loader
    ([loadSpeciesFromList]), the default elemental composition
    ([setDefaultComposition]) and the state functions that are closed
    formulas of the state (densities, pressure, frozen heat capacities,
    element moles and fractions).  The XML nodes, the classes [Species] and
    [Element], the state model, the thermodynamic database and the
    constants of [Constants.h] are parameters.

    Lookup tables.  The third part follows [src/utils/LookupTable.h] at
    [double] indices and values: [lookup] with its two ways of finding the
    rows and its three interpolation schemes, and [loadTable] once the file
    has been read into rows.  The constructors from a function
    ([populateTable] and the evenly spaced one, whose indices are the
    rounded values of [low + delta * i]) and [save] are left out. *)

From Stdlib Require Import Reals Lra Lia List String ZArith NArith Bool.
From Stdlib Require Import Sorting.Permutation.
From Stdlib Require Floats.
Import ListNotations.
Open Scope R_scope.

(* ================================================================= *)
(** ** Machine integers and loops *)

(** [size_t] on the 64-bit targets of the library. *)
Definition size_t := N.

Definition SIZE_WIDTH : Z := 2 ^ 64.

(** Conversion of an [int] to [size_t]: a value that is not negative is
    kept, a negative one wraps around. *)
Definition size_of_int (z : Z) : size_t :=
  if (z <? 0)%Z then Z.to_N (z + SIZE_WIDTH) else Z.to_N z.

(** Unsigned subtraction [a - b] on [size_t]. *)
Definition size_sub (a b : size_t) : size_t :=
  size_of_int (Z.of_N a - Z.of_N b).

Fixpoint range_from (count : nat) (lo : N) : list N :=
  match count with
  | O => []
  | S c => lo :: range_from c (N.succ lo)
  end.

(** The values taken by [i] in [for (i = lo; i < hi; ++i)]. *)
Definition range (lo hi : N) : list N := range_from (N.to_nat (hi - lo)) lo.

(** A subscript that may leave the container: [None] stands for the
    undefined behaviour of [std::vector::operator[]] out of range. *)
Fixpoint at_index {A : Type} (l : list A) (i : N) : option A :=
  match l with
  | [] => None
  | x :: t => if (i =? 0)%N then Some x else at_index t (N.pred i)
  end.

(** Sequencing of loop bodies that write diagnostics and may hit an
    out-of-range subscript. *)
Fixpoint for_each {A D : Type} (l : list A) (body : A -> option (list D))
  : option (list D) :=
  match l with
  | [] => Some []
  | x :: t =>
      match body x with
      | None => None
      | Some d =>
          match for_each t body with
          | None => None
          | Some ds => Some (d ++ ds)
          end
      end
  end.

(* ================================================================= *)
(** ** Numerics: real vectors *)

Definition RealVector := list R.

(** Modelled from the spec: the vector class of [Numerics] is not among
    the sources.  [vget v i] is [v(i)] for a subscript inside the vector.
    The function is total, and its value outside the vector, [0], stands
    for no behaviour of the code: the design document keeps every index
    of an incidence set inside the vector.  The validation pass of
    [closeReactions] runs before that is known, so it asks
    [getReactionDelta_in_range] first and is undefined when a subscript
    lies outside its vector. *)
Fixpoint vget (v : RealVector) (i : N) : R :=
  match v with
  | [] => 0
  | x :: t => if (i =? 0)%N then x else vget t (N.pred i)
  end.

(** Modelled from the spec: [vupd v i f] is the assignment
    [v(i) = f (v(i))] for a subscript inside the vector; outside, the
    function leaves the vector as it is (see [vget]). *)
Fixpoint vupd (v : RealVector) (i : N) (f : R -> R) : RealVector :=
  match v with
  | [] => []
  | x :: t => if (i =? 0)%N then f x :: t else x :: vupd t (N.pred i) f
  end.

(** Modelled from the spec: [RealVector(n)], a vector of [n] zeros. *)
Definition vzero (n : N) : RealVector := repeat 0 (N.to_nat n).

(** Modelled from the spec: [v = x], every entry is assigned [x]. *)
Definition vfill (v : RealVector) (x : R) : RealVector := map (fun _ => x) v.

(** Modelled from the spec: [exp(v)], entry by entry. *)
Definition vexp (v : RealVector) : RealVector := map exp v.

(** Modelled from the spec: [v * a]. *)
Definition vscale (v : RealVector) (a : R) : RealVector :=
  map (fun x => x * a) v.

(** Modelled from the spec: [u - v]. *)
Fixpoint vsub (u v : RealVector) : RealVector :=
  match u, v with
  | x :: u', y :: v' => (x - y) :: vsub u' v'
  | _, _ => []
  end.

(** Sum and product of a list of reals. *)
Definition Rsum (l : list R) : R := fold_right Rplus 0 l.

Definition Rprod (l : list R) : R := fold_right Rmult 1 l.

(* ================================================================= *)
(** ** Numerics: vectors that are compared for equality *)

(** The vectors [stoichi] and [stoichj] of the duplicate pass are
    normalized and then compared with [==].  Whether two of them are equal
    depends on the rounding of every entry, and a zero vector leaves
    [0/0] in its entries, so these vectors hold binary64 numbers (with
    their NaN, infinities and signed zeros) and not real numbers. *)
Definition DoubleVector := list PrimFloat.float.

(** The conversion of an [int] to [double] in [stoichi(k) = ...], for [z]
    the value of an [int]: the values of [int] are binary64 numbers, so
    the conversion rounds nothing. *)
Definition double_of_int (z : Z) : PrimFloat.float :=
  match z with
  | Z0 => PrimFloat.zero
  | Zpos p => PrimFloat.of_uint63 (Uint63.of_Z (Zpos p))
  | Zneg p => PrimFloat.opp (PrimFloat.of_uint63 (Uint63.of_Z (Zpos p)))
  end.

(** [Numerics.h] names the vector class ([typedef Vector<double>
    RealVector]) and does not define it.  The two methods the duplicate
    pass calls on it are parameters: [normalize v] is what
    [v.normalize()] leaves in [v], and [vec_eqb u v] is the value of
    [u == v].  Nothing is assumed of them. *)
Class VectorClass := {
  normalize : DoubleVector -> DoubleVector;
  vec_eqb : DoubleVector -> DoubleVector -> bool
}.

(** Modelled from the spec: the Euclidean norm, summed in the order of the
    entries in binary64 arithmetic. *)
Definition norm2_binary64 (v : DoubleVector) : PrimFloat.float :=
  PrimFloat.sqrt
    (fold_left (fun s x => PrimFloat.add s (PrimFloat.mul x x)) v PrimFloat.zero).

(** Modelled from the spec: the design document says the vector is scaled
    to unit length; here every entry is divided by the norm.  A zero
    vector is left with [0/0], which is NaN, in every entry. *)
Definition normalize_binary64 (v : DoubleVector) : DoubleVector :=
  map (fun x => PrimFloat.div x (norm2_binary64 v)) v.

(** Modelled from the spec: two vectors are identical when they have the
    same length and their entries are equal as [double]s, entry by entry;
    a NaN is equal to nothing, and the two zeros are equal. *)
Fixpoint vec_eqb_binary64 (u v : DoubleVector) : bool :=
  match u, v with
  | [], [] => true
  | x :: u', y :: v' => if PrimFloat.eqb x y then vec_eqb_binary64 u' v' else false
  | _, _ => false
  end.

(** The implementation of the two methods that the examples use. *)
Definition binary64_vectors : VectorClass :=
  {| normalize := normalize_binary64; vec_eqb := vec_eqb_binary64 |}.

(* ================================================================= *)
(** ** The thermodynamic-state collaborator *)

(** What the engine reads of [Thermodynamics]: the species and element
    lists, the molecular weights [m_species_mw] and the element matrix
    [m_element_matrix] built by its constructor, and the values
    [speciesGOverRT(p_g)] writes at the current state. *)
Record Thermodynamics := {
  speciesNames : list string;
  speciesMws : list R;
  elementNames : list string;
  (** [elementMatrix()(k,i)]: atoms of element [i] in species [k]. *)
  elementMatrix : N -> N -> R;
  speciesGOverRT : RealVector
}.

(** Modelled from the spec: [nSpecies()]; the accessors of
    [Thermodynamics.h] are not among the sources. *)
Definition nSpecies (th : Thermodynamics) : N :=
  N.of_nat (List.length (speciesNames th)).

(** Modelled from the spec: [nElements()]. *)
Definition nElements (th : Thermodynamics) : N :=
  N.of_nat (List.length (elementNames th)).

Fixpoint index_from (names : list string) (name : string) (i : Z) : Z :=
  match names with
  | [] => (-1)%Z
  | x :: t => if String.eqb x name then i else index_from t name (i + 1)%Z
  end.

(** Modelled from the spec: [speciesIndex] is declared in
    [Thermodynamics.h]; it yields the dense index of the name, or a negative
    value when no species has it. *)
Definition speciesIndex (th : Thermodynamics) (name : string) : Z :=
  index_from (speciesNames th) name 0%Z.

(** Modelled from the spec: [speciesName(k)]. *)
Definition speciesName (th : Thermodynamics) (k : N) : string :=
  match at_index (speciesNames th) k with Some s => s | None => EmptyString end.

(** Modelled from the spec: [elementName(i)]. *)
Definition elementName (th : Thermodynamics) (i : N) : string :=
  match at_index (elementNames th) i with Some s => s | None => EmptyString end.

(** Modelled from the spec: [speciesMw(k)]. *)
Definition speciesMw (th : Thermodynamics) (k : N) : R := vget (speciesMws th) k.

(* ================================================================= *)
(** ** Reaction records *)

(** Modelled from the spec: a rate law, seen through
    [lnRateCoefficient(T)]. *)
Definition RateLaw := R -> R.

(** Modelled from the spec: the reaction record of the mechanism loader;
    the class [Reaction] is not among the sources. *)
Record Reaction := {
  (** The reactant and product multisets, in iteration order. *)
  reactants : list string;
  products : list string;
  isReversible : bool;
  isThirdbody : bool;
  efficiencies : list (string * R);
  rateLaw : RateLaw;
  formula : string
}.

(** Occurrences of [name] in a reactant or product multiset. *)
Definition count_name (name : string) (l : list string) : Z :=
  Z.of_nat (count_occ string_dec l name).

(** Modelled from the spec: [Reaction::product(name)] and
    [Reaction::reactant(name)] are not among the sources; they give the
    stoichiometric coefficient of the species on that side. *)
Definition product (r : Reaction) (name : string) : Z :=
  count_name name (products r).

(** Modelled from the spec: [Reaction::reactant(name)], as [product]. *)
Definition reactant (r : Reaction) (name : string) : Z :=
  count_name name (reactants r).

(* ================================================================= *)
(** ** Stoichiometry manager *)

(** Modelled from the spec: [StoichiometryManager] is not among the sources.
    It keeps, per registered reaction, the species indices of one side with
    their repetitions; a species listed [m] times has multiplicity [m]. *)
Definition StoichiometryManager := list (N * list N).

(** Modelled from the spec: [StoichiometryManager::addReaction] registers
    one reaction's (possibly repeated) species indices. *)
Definition SM_addReaction (rxn : N) (sps : list N) (m : StoichiometryManager)
  : StoichiometryManager := m ++ [(rxn, sps)].

(** Sum over one reaction's incidence set of [s(species)]. *)
Definition incidence_sum (s : RealVector) (sps : list N) : R :=
  Rsum (map (vget s) sps).

(** Product over one reaction's incidence set of [c(species)]. *)
Definition incidence_prod (c : RealVector) (sps : list N) : R :=
  Rprod (map (vget c) sps).

(** Modelled from the spec: [incrReactions] adds to [r(rxn)], for each
    reaction, the sum over its incidence set of multiplicity times
    [s(species)]. *)
Definition incrReactions (m : StoichiometryManager) (s r : RealVector)
  : RealVector :=
  fold_left (fun r e => vupd r (fst e) (fun x => x + incidence_sum s (snd e)))
            m r.

(** Modelled from the spec: [decrReactions] subtracts the same sum. *)
Definition decrReactions (m : StoichiometryManager) (s r : RealVector)
  : RealVector :=
  fold_left (fun r e => vupd r (fst e) (fun x => x - incidence_sum s (snd e)))
            m r.

(** Modelled from the spec: [multReactions] multiplies [r(rxn)] by the
    product over the incidence set of [c(species)] to the multiplicity. *)
Definition multReactions (m : StoichiometryManager) (c r : RealVector)
  : RealVector :=
  fold_left (fun r e => vupd r (fst e) (fun x => x * incidence_prod c (snd e)))
            m r.

(** Modelled from the spec: [incrSpecies] adds, for each reaction and each
    species of its incidence set, multiplicity times [r(rxn)] into
    [s(species)]. *)
Definition incrSpecies (m : StoichiometryManager) (r s : RealVector)
  : RealVector :=
  fold_left
    (fun s e =>
       fold_left (fun s sp => vupd s sp (fun x => x + vget r (fst e)))
                 (snd e) s)
    m s.

(** Modelled from the spec: [decrSpecies] subtracts the same amounts. *)
Definition decrSpecies (m : StoichiometryManager) (r s : RealVector)
  : RealVector :=
  fold_left
    (fun s e =>
       fold_left (fun s sp => vupd s sp (fun x => x - vget r (fst e)))
                 (snd e) s)
    m s.

(* ================================================================= *)
(** ** Third-body manager *)

(** Modelled from the spec: [ThirdbodyManager] is not among the sources.
    Per third-body reaction it keeps a sparse list of (species index,
    efficiency); a species that is not listed has efficiency [1]. *)
Definition ThirdbodyManager := list (N * list (N * R)).

(** Modelled from the spec: [ThirdbodyManager::addReaction]. *)
Definition TB_addReaction (rxn : N) (effs : list (N * R)) (m : ThirdbodyManager)
  : ThirdbodyManager := m ++ [(rxn, effs)].

(** Modelled from the spec: the efficiency of species [k], one when the
    list does not mention it. *)
Fixpoint efficiency (effs : list (N * R)) (k : N) : R :=
  match effs with
  | [] => 1
  | (sp, e) :: t => if (sp =? k)%N then e else efficiency t k
  end.

(** Modelled from the spec: the sum over the species of
    [efficiency(species) * conc(species)]. *)
Definition thirdbodyFactor (effs : list (N * R)) (conc : RealVector) : R :=
  Rsum (map (fun k => efficiency effs k * vget conc k)
            (range 0 (N.of_nat (List.length conc)))).

(** Modelled from the spec: [multiplyThirdbodies] multiplies [r(rxn)] by
    that sum for each third-body reaction and leaves the others. *)
Definition multiplyThirdbodies (m : ThirdbodyManager) (conc r : RealVector)
  : RealVector :=
  fold_left (fun r e => vupd r (fst e) (fun x => x * thirdbodyFactor (snd e) conc))
            m r.

(* ================================================================= *)
(** ** Rate manager *)

(** Modelled from the spec: [RateManager] is not among the sources.  It
    keeps one rate law per registered reaction and fills one log rate per
    reaction. *)
Definition RateManager := list (N * RateLaw).

(** Modelled from the spec: [RateManager::addRateCoefficient]. *)
Definition addRateCoefficient (rxn : N) (law : RateLaw) (m : RateManager)
  : RateManager := m ++ [(rxn, law)].

(** Modelled from the spec: [lnForwardRateCoefficients] writes
    [lnRateCoefficient(T)] of each registered rate law. *)
Definition lnForwardRateCoefficients (m : RateManager) (T : R) (lnkf : RealVector)
  : RealVector :=
  fold_left (fun v e => vupd v (fst e) (fun _ => snd e T)) m lnkf.

(* ================================================================= *)
(** ** The kinetics engine: state and loading *)

Record Kinetics := {
  m_num_rxns : size_t;
  m_thermo : Thermodynamics;
  m_reactions : list Reaction;
  m_reactants : StoichiometryManager;
  m_rev_prods : StoichiometryManager;
  m_irr_prods : StoichiometryManager;
  m_thirdbodies : ThirdbodyManager;
  m_rates : RateManager;
  m_dnu : RealVector;
  m_lnkf : RealVector;
  m_lnkeq : RealVector;
  m_ropf : RealVector;
  m_ropb : RealVector;
  m_rop : RealVector;
  m_T_last : R
}.

(** The engine before any reaction is added.  The constructor's initialiser
    list does not mention [m_T_last]; its first value is the argument
    [T_last0]. *)
Definition Kinetics_new (thermo : Thermodynamics) (T_last0 : R) : Kinetics :=
  {| m_num_rxns := 0%N; m_thermo := thermo; m_reactions := [];
     m_reactants := []; m_rev_prods := []; m_irr_prods := [];
     m_thirdbodies := []; m_rates := [];
     m_dnu := []; m_lnkf := []; m_lnkeq := [];
     m_ropf := []; m_ropb := []; m_rop := [];
     m_T_last := T_last0 |}.

Definition speciesIndices (th : Thermodynamics) (set : list string) : list N :=
  map (fun name => size_of_int (speciesIndex th name)) set.

Definition thirdbodyEffs (th : Thermodynamics) (string_effs : list (string * R))
  : list (N * R) :=
  map (fun p => (size_of_int (speciesIndex th (fst p)), snd p)) string_effs.

(** [m_num_rxns++] is written without wrap-around: a vector of [2^64]
    reaction records does not exist. *)
Definition addReaction (reaction : Reaction) (k : Kinetics) : Kinetics :=
  let th := m_thermo k in
  let n := m_num_rxns k in
  {| m_num_rxns := N.succ n;
     m_thermo := th;
     m_reactions := m_reactions k ++ [reaction];
     m_reactants :=
       SM_addReaction n (speciesIndices th (reactants reaction)) (m_reactants k);
     m_rev_prods :=
       if isReversible reaction
       then SM_addReaction n (speciesIndices th (products reaction)) (m_rev_prods k)
       else m_rev_prods k;
     m_irr_prods :=
       if isReversible reaction
       then m_irr_prods k
       else SM_addReaction n (speciesIndices th (products reaction)) (m_irr_prods k);
     m_thirdbodies :=
       if isThirdbody reaction
       then TB_addReaction n (thirdbodyEffs th (efficiencies reaction)) (m_thirdbodies k)
       else m_thirdbodies k;
     m_rates := addRateCoefficient n (rateLaw reaction) (m_rates k);
     m_dnu := m_dnu k; m_lnkf := m_lnkf k; m_lnkeq := m_lnkeq k;
     m_ropf := m_ropf k; m_ropb := m_ropb k; m_rop := m_rop k;
     m_T_last := m_T_last k |}.

(** The constructor's loop over the reaction nodes of the mechanism. *)
Definition addReactions (rxns : list Reaction) (k : Kinetics) : Kinetics :=
  fold_left (fun k r => addReaction r k) rxns k.

Definition getReactionDelta (k : Kinetics) (s r : RealVector) : RealVector :=
  incrReactions (m_irr_prods k) s
    (incrReactions (m_rev_prods k) s
       (decrReactions (m_reactants k) s (vfill r 0))).

(** Every subscript a pass over the manager [m] evaluates lies inside its
    vector: the species subscripts inside [s], the reaction subscripts
    inside [r]. *)
Definition SM_in_range (m : StoichiometryManager) (s r : RealVector) : bool :=
  forallb (fun e =>
             (fst e <? N.of_nat (List.length r))%N
             && forallb (fun sp => (sp <? N.of_nat (List.length s))%N) (snd e))
          m.

(** The same for the three passes of [getReactionDelta]. *)
Definition getReactionDelta_in_range (k : Kinetics) (s r : RealVector) : bool :=
  SM_in_range (m_reactants k) s r && SM_in_range (m_rev_prods k) s r
  && SM_in_range (m_irr_prods k) s r.

(** Evaluation of a closed term of the model, keeping real arithmetic. *)
Ltac eval_model :=
  cbv - [Rplus Rminus Rmult Rdiv Ropp Rinv IZR Req_dec_T Rlt_dec exp ln sqrt
         Rabs Rlt Rle Rgt Rge not].

(* ================================================================= *)
(** ** Sealing and validation *)

Section Mechanism.

(** The implementation of the vector class the engine is built with. *)
Context {VC : VectorClass}.

(** One line written to [cerr], with the values it prints; reactions are
    printed by their position counted from one. *)
Inductive Diagnostic :=
| SpeciesMissing (rxn : N) (rxn_formula species : string)
| ThirdbodyMissing (rxn : N) (rxn_formula species : string)
| Identical (rxn_i : N) (formula_i : string) (rxn_j : N) (formula_j : string)
| NotConserved (rxn : N) (rxn_formula element : string).

Definition missing_species (th : Thermodynamics) (rxn1 : N) (f : string)
    (names : list string) : list Diagnostic :=
  flat_map (fun name =>
              if (speciesIndex th name <? 0)%Z
              then [SpeciesMissing rxn1 f name] else [])
           names.

Definition missing_thirdbodies (th : Thermodynamics) (rxn1 : N) (f : string)
    (effs : list (string * R)) : list Diagnostic :=
  flat_map (fun p =>
              if (speciesIndex th (fst p) <? 0)%Z
              then [ThirdbodyMissing rxn1 f (fst p)] else [])
           effs.

(** The lines the first pass writes for the reaction printed as number
    [rxn1]: reactants, then products, then third bodies if the reaction has
    any. *)
Definition species_lines (th : Thermodynamics) (rxn1 : N) (r : Reaction)
  : list Diagnostic :=
  missing_species th rxn1 (formula r) (reactants r)
  ++ missing_species th rxn1 (formula r) (products r)
  ++ (if isThirdbody r
      then missing_thirdbodies th rxn1 (formula r) (efficiencies r) else []).

(** First pass: every species of every reaction exists in the mixture. *)
Definition checkSpecies (k : Kinetics) : option (list Diagnostic) :=
  let th := m_thermo k in
  for_each (range 0 (m_num_rxns k)) (fun i =>
    match at_index (m_reactions k) i with
    | None => None
    | Some r => Some (species_lines th (N.succ i) r)
    end).

(** [product(name_k) - reactant(name_k)] for every species [k] of the
    mixture, as the loop over [k] leaves it in [stoichi]. *)
Definition net_stoichiometry (th : Thermodynamics) (r : Reaction) : DoubleVector :=
  map (fun k =>
         double_of_int (product r (speciesName th k) - reactant r (speciesName th k)))
      (range 0 (nSpecies th)).

(** Second pass: duplicate reactions.  The outer bound is [m_num_rxns-1] in
    [size_t] arithmetic. *)
Definition checkDuplicates (k : Kinetics) : option (list Diagnostic) :=
  let th := m_thermo k in
  for_each (range 0 (size_sub (m_num_rxns k) 1%N)) (fun i =>
    match at_index (m_reactions k) i with
    | None => None
    | Some ri =>
        let stoichi := normalize (net_stoichiometry th ri) in
        for_each (range (i + 1)%N (m_num_rxns k)) (fun j =>
          match at_index (m_reactions k) j with
          | None => None
          | Some rj =>
              let stoichj := normalize (net_stoichiometry th rj) in
              if vec_eqb stoichi stoichj
              then Some [Identical (N.succ i) (formula ri) (N.succ j) (formula rj)]
              else Some []
          end)
    end).

(** The column of the element matrix for element [i]. *)
Definition element_column (th : Thermodynamics) (i : N) : RealVector :=
  map (fun k => elementMatrix th k i) (range 0 (nSpecies th)).

(** Third pass: elemental mass and charge conservation.  The pass runs
    whatever the first pass found: a species that is missing from the
    mixture is registered under the index [-1] converted to [size_t], and
    [getReactionDelta] then reads [stoichi] outside its [ns] entries. *)
Definition checkConservation (k : Kinetics) : option (list Diagnostic) :=
  let th := m_thermo k in
  for_each (range 0 (nElements th)) (fun i =>
    let stoichi := element_column th i in
    if getReactionDelta_in_range k stoichi (vzero (m_num_rxns k)) then
      let mass := getReactionDelta k stoichi (vzero (m_num_rxns k)) in
      for_each (range 0 (m_num_rxns k)) (fun j =>
        if Req_dec_T (vget mass j) 0 then Some []
        else match at_index (m_reactions k) j with
             | None => None
             | Some r => Some [NotConserved (N.succ j) (formula r) (elementName th i)]
             end)
    else None).

(** The [validate_mechanism] block up to the test of [is_valid].  The flag is
    cleared exactly where a line is written to [cerr], so it is read off the
    lines written: the mechanism is valid when there are none. *)
Definition validate (k : Kinetics) : option (list Diagnostic) :=
  match checkSpecies k with
  | None => None
  | Some d1 =>
      match checkDuplicates k with
      | None => None
      | Some d2 =>
          match checkConservation k with
          | None => None
          | Some d3 => Some (d1 ++ d2 ++ d3)
          end
      end
  end.

(** The tail of [closeReactions]: [dnu] and the work arrays. *)
Definition seal (k : Kinetics) : Kinetics :=
  let n := m_num_rxns k in
  let tempsp := vfill (vzero (nSpecies (m_thermo k))) 1 in
  {| m_num_rxns := n; m_thermo := m_thermo k; m_reactions := m_reactions k;
     m_reactants := m_reactants k; m_rev_prods := m_rev_prods k;
     m_irr_prods := m_irr_prods k; m_thirdbodies := m_thirdbodies k;
     m_rates := m_rates k;
     m_dnu := getReactionDelta k tempsp (vzero n);
     m_lnkf := vzero n; m_lnkeq := vzero n;
     m_ropf := vzero n; m_ropb := vzero n; m_rop := vzero n;
     m_T_last := m_T_last k |}.

(** How [closeReactions] ends: the engine is sealed, the process exits with
    status 1 after the lines of [cerr], or a subscript left its vector. *)
Inductive Outcome :=
| Sealed (k : Kinetics)
| ExitFailure (cerr : list Diagnostic)
| Undefined.

Definition closeReactions (validate_mechanism : bool) (k : Kinetics) : Outcome :=
  if validate_mechanism then
    match validate k with
    | None => Undefined
    | Some [] => Sealed (seal k)
    | Some cerr => ExitFailure cerr
    end
  else Sealed (seal k).

(** The constructor for a mechanism other than "none", once the mechanism
    file has been read into reaction records: every reaction is added, then
    the mechanism is closed with validation. *)
Definition Kinetics_ctor (thermo : Thermodynamics) (T_last0 : R)
    (rxns : list Reaction) : Outcome :=
  closeReactions true (addReactions rxns (Kinetics_new thermo T_last0)).

(* ================================================================= *)
(** ** Temperature cache and evaluation pipeline *)

Section Evaluation.

(** The universal gas constant [RU] of [Constants.h], which is not among the
    sources. *)
Variable RU : R.

Definition set_cache (k : Kinetics) (lnkf lnkeq : RealVector) (T : R) : Kinetics :=
  {| m_num_rxns := m_num_rxns k; m_thermo := m_thermo k;
     m_reactions := m_reactions k;
     m_reactants := m_reactants k; m_rev_prods := m_rev_prods k;
     m_irr_prods := m_irr_prods k; m_thirdbodies := m_thirdbodies k;
     m_rates := m_rates k; m_dnu := m_dnu k;
     m_lnkf := lnkf; m_lnkeq := lnkeq;
     m_ropf := m_ropf k; m_ropb := m_ropb k; m_rop := m_rop k;
     m_T_last := T |}.

Definition set_rop (k : Kinetics) (ropf ropb rop : RealVector) : Kinetics :=
  {| m_num_rxns := m_num_rxns k; m_thermo := m_thermo k;
     m_reactions := m_reactions k;
     m_reactants := m_reactants k; m_rev_prods := m_rev_prods k;
     m_irr_prods := m_irr_prods k; m_thirdbodies := m_thirdbodies k;
     m_rates := m_rates k; m_dnu := m_dnu k;
     m_lnkf := m_lnkf k; m_lnkeq := m_lnkeq k;
     m_ropf := ropf; m_ropb := ropb; m_rop := rop;
     m_T_last := m_T_last k |}.

(** The log equilibrium constants [updateT] stores for temperature [T]. *)
Definition lnkeq_at (k : Kinetics) (T : R) : RealVector :=
  let g := speciesGOverRT (m_thermo k) in
  decrReactions (m_irr_prods k) g
    (decrReactions (m_rev_prods k) g
       (incrReactions (m_reactants k) g
          (vscale (m_dnu k) (ln (101325.0 / (RU * T)))))).

(** [abs] is read as the absolute value of a [double]. *)
Definition updateT (T : R) (k : Kinetics) : Kinetics :=
  if Rlt_dec (Rabs (T - m_T_last k)) 1.0E-6 then k
  else set_cache k
         (lnForwardRateCoefficients (m_rates k) T (m_lnkf k))
         (lnkeq_at k T)
         T.

Definition equilibriumConstants (T : R) (k : Kinetics) : RealVector * Kinetics :=
  let k1 := updateT T k in (vexp (m_lnkeq k1), k1).

Definition forwardRateCoefficients (T : R) (k : Kinetics) : RealVector * Kinetics :=
  let k1 := updateT T k in (vexp (m_lnkf k1), k1).

Definition backwardRateCoefficients (T : R) (k : Kinetics) : RealVector * Kinetics :=
  let k1 := updateT T k in (vexp (vsub (m_lnkf k1) (m_lnkeq k1)), k1).

Definition forwardRatesOfProgress (T : R) (conc : RealVector) (k : Kinetics)
  : RealVector * Kinetics :=
  let (kf, k1) := forwardRateCoefficients T k in
  (multiplyThirdbodies (m_thirdbodies k1) conc
     (multReactions (m_reactants k1) conc kf), k1).

Definition backwardRatesOfProgress (T : R) (conc : RealVector) (k : Kinetics)
  : RealVector * Kinetics :=
  let (kb, k1) := backwardRateCoefficients T k in
  (multiplyThirdbodies (m_thirdbodies k1) conc
     (multReactions (m_rev_prods k1) conc kb), k1).

Definition netRatesOfProgress (T : R) (conc : RealVector) (k : Kinetics)
  : RealVector * Kinetics :=
  let (kf, k1) := forwardRateCoefficients T k in
  let ropf := multReactions (m_reactants k1) conc kf in
  let (kb, k2) := backwardRateCoefficients T k1 in
  let ropb := multReactions (m_rev_prods k2) conc kb in
  let rop := multiplyThirdbodies (m_thirdbodies k2) conc (vsub ropf ropb) in
  (rop, set_rop k2 ropf ropb (m_rop k2)).

(** [p_conc] and [p_wdot] point to arrays of [nSpecies] doubles; [conc]
    copies the first and the result is what is left in the second. *)
Definition netProductionRates (T : R) (p_conc : RealVector) (k : Kinetics)
  : RealVector * Kinetics :=
  let ns := nSpecies (m_thermo k) in
  let conc := map (vget p_conc) (range 0 ns) in
  let (rop, k1) := netRatesOfProgress T conc k in
  let k2 := set_rop k1 (m_ropf k1) (m_ropb k1) rop in
  let wdot :=
    incrSpecies (m_irr_prods k2) rop
      (incrSpecies (m_rev_prods k2) rop
         (decrSpecies (m_reactants k2) rop (vzero ns))) in
  (map (fun i => vget wdot i * speciesMw (m_thermo k2) i) (range 0 ns), k2).

(** The calls that return rates, and the engine state each one leaves. *)
Inductive RateCall :=
| CallEquilibriumConstants
| CallForwardRateCoefficients
| CallBackwardRateCoefficients
| CallForwardRatesOfProgress (conc : RealVector)
| CallBackwardRatesOfProgress (conc : RealVector)
| CallNetRatesOfProgress (conc : RealVector)
| CallNetProductionRates (conc : RealVector).

Definition call (c : RateCall) (T : R) (k : Kinetics) : RealVector * Kinetics :=
  match c with
  | CallEquilibriumConstants => equilibriumConstants T k
  | CallForwardRateCoefficients => forwardRateCoefficients T k
  | CallBackwardRateCoefficients => backwardRateCoefficients T k
  | CallForwardRatesOfProgress conc => forwardRatesOfProgress T conc k
  | CallBackwardRatesOfProgress conc => backwardRatesOfProgress T conc k
  | CallNetRatesOfProgress conc => netRatesOfProgress T conc k
  | CallNetProductionRates conc => netProductionRates T conc k
  end.

End Evaluation.

(* ================================================================= *)
(** ** Vocabulary of the statements *)

(** The external collaborator moves to another thermodynamic state: the
    values [speciesGOverRT] writes become [g]. *)
Definition thermo_setState (g : RealVector) (th : Thermodynamics) : Thermodynamics :=
  {| speciesNames := speciesNames th; speciesMws := speciesMws th;
     elementNames := elementNames th; elementMatrix := elementMatrix th;
     speciesGOverRT := g |}.

Definition setState (g : RealVector) (k : Kinetics) : Kinetics :=
  {| m_num_rxns := m_num_rxns k; m_thermo := thermo_setState g (m_thermo k);
     m_reactions := m_reactions k;
     m_reactants := m_reactants k; m_rev_prods := m_rev_prods k;
     m_irr_prods := m_irr_prods k; m_thirdbodies := m_thirdbodies k;
     m_rates := m_rates k; m_dnu := m_dnu k;
     m_lnkf := m_lnkf k; m_lnkeq := m_lnkeq k;
     m_ropf := m_ropf k; m_ropb := m_ropb k; m_rop := m_rop k;
     m_T_last := m_T_last k |}.

(** The engines a caller can hold after sealing: the result of
    [closeReactions] on a loaded mechanism, followed by any sequence of
    rate-returning calls and changes of the thermodynamic state. *)
Inductive sealed_engine (RU : R) : Kinetics -> Prop :=
| sealed_by_close (validate_mechanism : bool) (th : Thermodynamics) (T_last0 : R)
    (rxns : list Reaction) (k : Kinetics) :
    closeReactions validate_mechanism (addReactions rxns (Kinetics_new th T_last0))
      = Sealed k ->
    sealed_engine RU k
| sealed_after_call (c : RateCall) (T : R) (k : Kinetics) :
    sealed_engine RU k -> sealed_engine RU (snd (call RU c T k))
| sealed_after_setState (g : RealVector) (k : Kinetics) :
    sealed_engine RU k -> sealed_engine RU (setState g k).

(** The same, for a mechanism that went through validation. *)
Inductive validated_engine (RU : R) : Kinetics -> Prop :=
| validated_by_ctor (th : Thermodynamics) (T_last0 : R)
    (rxns : list Reaction) (k : Kinetics) :
    Kinetics_ctor th T_last0 rxns = Sealed k ->
    validated_engine RU k
| validated_after_call (c : RateCall) (T : R) (k : Kinetics) :
    validated_engine RU k -> validated_engine RU (snd (call RU c T k))
| validated_after_setState (g : RealVector) (k : Kinetics) :
    validated_engine RU k -> validated_engine RU (setState g k).

(** The three cached values guarded by [updateT]. *)
Definition cache (k : Kinetics) : RealVector * RealVector * R :=
  (m_lnkf k, m_lnkeq k, m_T_last k).

(** Entries a manager holds after the reactions [rxns] were registered from
    index [i0] on; [f] says what, if anything, a reaction registers. *)
Fixpoint entries {A : Type} (f : Reaction -> option A) (i0 : N)
    (rxns : list Reaction) : list (N * A) :=
  match rxns with
  | [] => []
  | r :: t =>
      match f r with
      | Some a => (i0, a) :: entries f (N.succ i0) t
      | None => entries f (N.succ i0) t
      end
  end.

Fixpoint zip_with {A B C : Type} (f : A -> B -> C) (l1 : list A) (l2 : list B)
  : list C :=
  match l1, l2 with
  | x :: t1, y :: t2 => f x y :: zip_with f t1 t2
  | _, _ => []
  end.

Definition reactant_indices (th : Thermodynamics) (r : Reaction) : list N :=
  speciesIndices th (reactants r).

Definition product_indices (th : Thermodynamics) (r : Reaction) : list N :=
  speciesIndices th (products r).

(** Products minus reactants of [s] over one reaction. *)
Definition delta_of (th : Thermodynamics) (s : RealVector) (r : Reaction) : R :=
  incidence_sum s (product_indices th r) - incidence_sum s (reactant_indices th r).

(** The third-body factor of a reaction: the weighted concentration sum for
    a third-body reaction, nothing for the others. *)
Definition thirdbody_scale (th : Thermodynamics) (conc : RealVector)
    (r : Reaction) (x : R) : R :=
  if isThirdbody r
  then x * thirdbodyFactor (thirdbodyEffs th (efficiencies r)) conc
  else x.

(** Every species named by the reaction exists in the mixture. *)
Definition species_exist (th : Thermodynamics) (r : Reaction) : Prop :=
  forall name, In name (reactants r ++ products r) -> (0 <= speciesIndex th name)%Z.

(** The names the first validation pass looks up for a reaction. *)
Definition names_checked (r : Reaction) : list string :=
  reactants r ++ products r
  ++ (if isThirdbody r then map fst (efficiencies r) else []).

(** The residual of the design document: the net stoichiometric vector of
    the reaction dotted with the atom counts of element [e]. *)
Definition conservation_residual (th : Thermodynamics) (r : Reaction) (e : N) : R :=
  Rsum (map (fun k =>
               IZR (product r (speciesName th k) - reactant r (speciesName th k))
               * elementMatrix th k e)
            (range 0 (nSpecies th))).

(** Reactions [i < j] whose normalized net-stoichiometry vectors compare
    equal. *)
Definition duplicate_pair (th : Thermodynamics) (rxns : list Reaction)
    (i j : N) (ri rj : Reaction) : Prop :=
  (i < j)%N /\ at_index rxns i = Some ri /\ at_index rxns j = Some rj /\
  vec_eqb (normalize (net_stoichiometry th ri))
          (normalize (net_stoichiometry th rj)) = true.

(** The subscripts of [m_reactions] the duplicate pass evaluates for [n]
    reactions, in order. *)
Definition duplicate_subscripts (n : N) : list N :=
  flat_map (fun i => i :: range (i + 1)%N n) (range 0 (size_sub n 1%N)).

(** The sum over the [ns] species of [v(i) * w(i)]. *)
Definition species_dot (ns : N) (v : RealVector) (w : N -> R) : R :=
  Rsum (map (fun i => vget v i * w i) (range 0 ns)).

(** The molecular weights are the atomic weights [aw] of the elements
    weighted by the atom counts of the element matrix. *)
Definition weights_from_elements (th : Thermodynamics) (aw : N -> R) : Prop :=
  forall sp, (sp < nSpecies th)%N ->
             speciesMw th sp
             = Rsum (map (fun e => aw e * elementMatrix th sp e)
                         (range 0 (nElements th))).

(** What the managers hold after the reactions of [m_reactions] were added
    one by one. *)
Record loaded (k : Kinetics) : Prop := {
  ld_num : m_num_rxns k = N.of_nat (List.length (m_reactions k));
  ld_reactants :
    m_reactants k
    = entries (fun r => Some (reactant_indices (m_thermo k) r)) 0 (m_reactions k);
  ld_rev_prods :
    m_rev_prods k
    = entries (fun r => if isReversible r
                        then Some (product_indices (m_thermo k) r) else None)
              0 (m_reactions k);
  ld_irr_prods :
    m_irr_prods k
    = entries (fun r => if isReversible r
                        then None else Some (product_indices (m_thermo k) r))
              0 (m_reactions k);
  ld_thirdbodies :
    m_thirdbodies k
    = entries (fun r => if isThirdbody r
                        then Some (thirdbodyEffs (m_thermo k) (efficiencies r))
                        else None)
              0 (m_reactions k);
  ld_rates : m_rates k = entries (fun r => Some (rateLaw r)) 0 (m_reactions k)
}.

(** The all-ones species vector [tempsp] of [closeReactions]. *)
Definition ones (th : Thermodynamics) : RealVector := vfill (vzero (nSpecies th)) 1.

(** What holds of an engine once [closeReactions] has returned. *)
Record sealed_inv (k : Kinetics) : Prop := {
  si_loaded : loaded k;
  si_dnu : m_dnu k = map (delta_of (m_thermo k) (ones (m_thermo k))) (m_reactions k);
  si_lnkf : List.length (m_lnkf k) = List.length (m_reactions k);
  si_lnkeq : List.length (m_lnkeq k) = List.length (m_reactions k)
}.

(** What validation has established when [closeReactions(true)] returns. *)
Record validated_inv (k : Kinetics) : Prop := {
  vi_sealed : sealed_inv k;
  vi_species : forall r, In r (m_reactions k) -> species_exist (m_thermo k) r;
  vi_conserved :
    forall e r, (e < nElements (m_thermo k))%N -> In r (m_reactions k) ->
                delta_of (m_thermo k) (element_column (m_thermo k) e) r = 0
}.

(* ================================================================= *)
(** ** Example mechanisms *)

(** A mixture of N2 and N over the single element N. *)
Definition nitrogen : Thermodynamics :=
  {| speciesNames := ["N2"%string; "N"%string];
     speciesMws := [28; 14];
     elementNames := ["N"%string];
     elementMatrix := fun k _ => if (k =? 0)%N then 2 else if (k =? 1)%N then 1 else 0;
     speciesGOverRT := [0; 0] |}.

(** The reversible dissociation N2 = 2N, with a rate coefficient of one. *)
Definition dissociation : Reaction :=
  {| reactants := ["N2"%string]; products := ["N"%string; "N"%string];
     isReversible := true; isThirdbody := false; efficiencies := [];
     rateLaw := fun _ => 0; formula := "N2=2N"%string |}.

(** The same step written as irreversible. *)
Definition dissociation_irr : Reaction :=
  {| reactants := ["N2"%string]; products := ["N"%string; "N"%string];
     isReversible := false; isThirdbody := false; efficiencies := [];
     rateLaw := fun _ => 0; formula := "N2=>2N"%string |}.

(** A step over existing species that does not conserve N. *)
Definition unbalanced : Reaction :=
  {| reactants := ["N2"%string]; products := ["N"%string];
     isReversible := true; isThirdbody := false; efficiencies := [];
     rateLaw := fun _ => 0; formula := "N2=N"%string |}.

(** A step that names a species X the mixture does not have. *)
Definition broken_step : Reaction :=
  {| reactants := ["N2"%string]; products := ["N"%string; "X"%string];
     isReversible := true; isThirdbody := false; efficiencies := [];
     rateLaw := fun _ => 0; formula := "N2=N+X"%string |}.

(** A third-body step over existing species whose efficiency list names
    the species X. *)
Definition thirdbody_step_x : Reaction :=
  {| reactants := ["N2"%string]; products := ["N"%string; "N"%string];
     isReversible := true; isThirdbody := true;
     efficiencies := [("X"%string, 2)];
     rateLaw := fun _ => 0; formula := "N2+M=2N+M"%string |}.

(** A step that changes nothing: N2 on both sides. *)
Definition idle_step : Reaction :=
  {| reactants := ["N2"%string]; products := ["N2"%string];
     isReversible := true; isThirdbody := false; efficiencies := [];
     rateLaw := fun _ => 0; formula := "N2=N2"%string |}.

(** The step [unbalanced] with every coefficient tripled. *)
Definition unbalanced_tripled : Reaction :=
  {| reactants := ["N2"%string; "N2"%string; "N2"%string];
     products := ["N"%string; "N"%string; "N"%string];
     isReversible := true; isThirdbody := false; efficiencies := [];
     rateLaw := fun _ => 0; formula := "3N2=3N"%string |}.

(** The engine for [dissociation], sealed without validation; [m_T_last]
    starts at zero. *)
Definition nitrogen_engine : Kinetics :=
  seal (addReactions [dissociation] (Kinetics_new nitrogen 0)).

(** The engine for [dissociation_irr], sealed without validation. *)
Definition nitrogen_irr_engine : Kinetics :=
  seal (addReactions [dissociation_irr] (Kinetics_new nitrogen 0)).

(** A value of the gas constant for the examples. *)
Definition RU_example : R := 8.314.

(* ================================================================= *)
(** ** The Jacobian entry point *)

Section Jacobian.

Variable RU : R.

(** [JacobianManager] is not among the sources.  Its [computeJacobian] is a
    parameter here: it is applied to what the manager was given (the mixture
    at construction, every reaction through [addReaction], in order) and to
    the three arrays [jacobianRho] passes. *)
Variable computeJacobian :
  Thermodynamics -> list Reaction -> RealVector -> RealVector -> RealVector
  -> RealVector.

(** The result is what [computeJacobian] leaves in [p_jac]. *)
Definition jacobianRho (T : R) (p_conc : RealVector) (k : Kinetics)
  : RealVector * Kinetics :=
  let k1 := updateT RU T k in
  let p_kf :=
    map (fun i => exp (vget (m_lnkf k1) i)) (range 0 (m_num_rxns k1)) in
  let p_kb :=
    map (fun i => exp (vget (m_lnkf k1) i - vget (m_lnkeq k1) i))
        (range 0 (m_num_rxns k1)) in
  (computeJacobian (m_thermo k1) (m_reactions k1) p_kf p_kb p_conc, k1).

End Jacobian.

(** The net stoichiometric coefficient of species [sp] in a reaction:
    occurrences among the products minus occurrences among the reactants. *)
Definition net_coefficient (th : Thermodynamics) (rx : Reaction) (sp : N) : Z :=
  (product rx (speciesName th sp) - reactant rx (speciesName th sp))%Z.

(** The same step written in the other direction. *)
Definition reversed (r : Reaction) : Reaction :=
  {| reactants := products r; products := reactants r;
     isReversible := isReversible r; isThirdbody := isThirdbody r;
     efficiencies := efficiencies r; rateLaw := rateLaw r; formula := formula r |}.

(** Every third-body species named by the reaction exists in the mixture. *)
Definition thirdbodies_exist (th : Thermodynamics) (r : Reaction) : Prop :=
  isThirdbody r = true ->
  forall name, In name (map fst (efficiencies r)) -> (0 <= speciesIndex th name)%Z.

(** A third-body step N2 + M = 2N + M with an efficiency of 2 for N. *)
Definition dissociation_tb : Reaction :=
  {| reactants := ["N2"%string]; products := ["N"%string; "N"%string];
     isReversible := true; isThirdbody := true;
     efficiencies := [("N"%string, 2)];
     rateLaw := fun _ => 0; formula := "N2+M=2N+M"%string |}.

(** The engine for [dissociation_tb], sealed without validation. *)
Definition nitrogen_tb_engine : Kinetics :=
  seal (addReactions [dissociation_tb] (Kinetics_new nitrogen 0)).

(* ================================================================= *)
(** ** The mixture: loading the species ([Thermodynamics.cpp]) *)

(** [std::set<std::string>], kept sorted and without repetition. *)
Fixpoint set_insert (x : string) (s : list string) : list string :=
  match s with
  | [] => [x]
  | y :: t =>
      match String.compare x y with
      | Lt => x :: s
      | Eq => s
      | Gt => y :: set_insert x t
      end
  end.

(** The set built from the range [species_names.begin(), end()). *)
Definition set_of_names (names : list string) : list string :=
  fold_left (fun s x => set_insert x s) names [].

(** [s.find(x) != s.end()]. *)
Definition set_find (x : string) (s : list string) : bool :=
  existsb (String.eqb x) s.

(** [s.erase(x)]. *)
Definition set_erase (x : string) (s : list string) : list string :=
  filter (fun y => negb (String.eqb x y)) s.

(** [std::map<std::string, int>]: the assignment [m[key] = value]. *)
Fixpoint map_assign (key : string) (value : Z) (m : list (string * Z))
  : list (string * Z) :=
  match m with
  | [] => [(key, value)]
  | (k, v) :: t =>
      if String.eqb k key then (k, value) :: t else (k, v) :: map_assign key value t
  end.

(** The value stored under a key, if any. *)
Fixpoint map_find (key : string) (m : list (string * Z)) : option Z :=
  match m with
  | [] => None
  | (k, v) :: t => if String.eqb k key then Some v else map_find key t
  end.

(** [std::swap(v[0], v.back())]. *)
Definition swap_ends {A : Type} (v : list A) : list A :=
  match v with
  | [] => []
  | x :: t =>
      match rev t with
      | [] => [x]
      | y :: m => y :: rev m ++ [x]
      end
  end.

(** The loop [for (i = 0; i < names.size(); ++i) m[names[i]] = i], from
    index [i] on. *)
Fixpoint index_names (names : list string) (i : Z) (m : list (string * Z))
  : list (string * Z) :=
  match names with
  | [] => m
  | n :: t => index_names t (i + 1)%Z (map_assign n i m)
  end.

(** The members [loadSpeciesFromList] fills. *)
Record Mixture {Element Species : Type} := {
  m_species : list Species;
  m_elements : list Element;
  m_element_indices : list (string * Z);
  m_species_indices : list (string * Z);
  m_has_electrons : bool
}.

(** How [loadSpeciesFromList] ends: the members are filled, the process
    exits with status 1 after listing the species it did not find, or a
    subscript of the element database left its vector. *)
Inductive LoadOutcome {Element Species : Type} :=
| Loaded (mix : @Mixture Element Species)
| MissingSpecies (missing : list string)
| LoadUndefined.

Section LoadSpecies.

(** The XML nodes of the species database and the classes [Element] and
    [Species] are not among the sources; they are parameters, with the
    calls the loader makes on them. *)
Variable XmlElement : Type.
Variable Element : Type.
Variable Species : Type.

(** [node.getAttribute("name", species_name)]. *)
Variable name_attribute : XmlElement -> string.

(** [Species(node, elements, used_elements)]: the species built and the set
    [used_elements] as the constructor leaves it. *)
Variable Species_new : XmlElement -> list Element -> list Z -> Species * list Z.

Variable Species_name : Species -> string.

Variable Element_name : Element -> string.

(** The loop over the species database.  It carries [m_species],
    [m_has_electrons] and the locals [species_set] and [used_elements]; it
    stops early when [species_set] becomes empty. *)
Fixpoint load_species (elements : list Element) (db : list XmlElement)
    (species : list Species) (has_electrons : bool)
    (species_set : list string) (used_elements : list Z)
  : list Species * bool * list string * list Z :=
  match db with
  | [] => (species, has_electrons, species_set, used_elements)
  | node :: rest =>
      let species_name := name_attribute node in
      if negb (set_find species_name species_set)
      then load_species elements rest species has_electrons species_set
             used_elements
      else
        let (s, used) := Species_new node elements used_elements in
        let pushed := species ++ [s] in
        let is_electron := String.eqb species_name "e-" in
        let species' :=
          if is_electron && (1 <? List.length pushed)%nat
          then swap_ends pushed else pushed in
        let has_electrons' := if is_electron then true else has_electrons in
        match set_erase species_name species_set with
        | [] => (species', has_electrons', [], used)
        | x :: s' =>
            load_species elements rest species' has_electrons' (x :: s') used
        end
  end.

(** [elements[*iter]] for every member of [used_elements], in order. *)
Fixpoint collect_elements (elements : list Element) (used : list Z)
  : option (list Element) :=
  match used with
  | [] => Some []
  | i :: t =>
      if (i <? 0)%Z then None
      else match at_index elements (Z.to_N i), collect_elements elements t with
           | Some e, Some es => Some (e :: es)
           | _, _ => None
           end
  end.

(** [loadSpeciesFromList], called once by the constructor on the empty
    members; [elements] and [db] are the element and species databases read
    from the data directory. *)
Definition loadSpeciesFromList (elements : list Element) (db : list XmlElement)
    (species_names : list string) : @LoadOutcome Element Species :=
  let '(species, has_electrons, species_set, used_elements) :=
    load_species elements db [] false (set_of_names species_names) [] in
  match species_set with
  | _ :: _ => MissingSpecies species_set
  | [] =>
      match collect_elements elements used_elements with
      | None => LoadUndefined
      | Some els =>
          Loaded {| m_species := species;
                    m_elements := els;
                    m_element_indices :=
                      index_names (map Element_name els) 0 [];
                    m_species_indices :=
                      index_names (map Species_name species) 0 [];
                    m_has_electrons := has_electrons |}
      end
  end.

End LoadSpecies.

Arguments load_species {XmlElement Element Species}.
Arguments collect_elements {Element}.
Arguments loadSpeciesFromList {XmlElement Element Species}.

(** What holds of the loader's variables once the nodes whose names are
    [seen] were visited: [loaded] are the names of [m_species], in order. *)
Record load_inv (requested seen loaded : list string) (has_electrons : bool)
    (species_set : list string) : Prop := {
  li_nodup : NoDup loaded;
  li_disjoint : forall n, In n loaded -> ~ In n species_set;
  li_requested : forall n, In n requested <-> In n loaded \/ In n species_set;
  li_electrons : has_electrons = true <-> In "e-"%string loaded;
  li_first : In "e-"%string loaded -> exists t, loaded = "e-"%string :: t;
  li_from_db : forall n, In n loaded -> In n seen;
  li_missing : forall n, In n species_set -> ~ In n seen
}.

(* ================================================================= *)
(** ** The mixture: default elemental composition *)

(** Modelled from the spec: [elementIndex] is declared in
    [Thermodynamics.h]; as [speciesIndex], it yields the index of the name
    or a negative value. *)
Definition elementIndex (th : Thermodynamics) (name : string) : Z :=
  index_from (elementNames th) name 0%Z.

(** The three messages [setDefaultComposition] writes before [exit(1)]. *)
Inductive CompositionError :=
| SetTwice (element : string)
| NotInMixture (element : string)
| NotIncluded (element : string).

(** [set_element[i]], and the assignment [set_element[i] = true]. *)
Fixpoint flag_get (flags : list bool) (i : N) : bool :=
  match flags with
  | [] => false
  | b :: t => if (i =? 0)%N then b else flag_get t (N.pred i)
  end.

Fixpoint flag_set (flags : list bool) (i : N) : list bool :=
  match flags with
  | [] => []
  | b :: t => if (i =? 0)%N then true :: t else b :: flag_set t (N.pred i)
  end.

(** The loop over the pairs of [composition]. *)
Fixpoint set_composition (th : Thermodynamics) (composition : list (string * R))
    (set_element : list bool) (default_composition : RealVector)
  : CompositionError + (list bool * RealVector) :=
  match composition with
  | [] => inr (set_element, default_composition)
  | (name, value) :: rest =>
      let index := elementIndex th name in
      if (0 <=? index)%Z then
        if flag_get set_element (Z.to_N index) then inl (SetTwice name)
        else set_composition th rest
               (flag_set set_element (Z.to_N index))
               (vupd default_composition (Z.to_N index) (fun _ => value))
      else inl (NotInMixture name)
  end.

(** The loop that looks for an element that was not set. *)
Fixpoint first_unset (th : Thermodynamics) (set_element : list bool)
    (indices : list N) : option CompositionError :=
  match indices with
  | [] => None
  | i :: t =>
      if flag_get set_element i then first_unset th set_element t
      else Some (NotIncluded (elementName th i))
  end.

(** [setDefaultComposition]: the array [mp_default_composition] as the call
    leaves it, or the message written before [exit(1)]. *)
Definition setDefaultComposition (th : Thermodynamics)
    (composition : list (string * R)) (mp_default_composition : RealVector)
  : CompositionError + RealVector :=
  let ne := nElements th in
  match set_composition th composition (repeat false (N.to_nat ne))
          mp_default_composition with
  | inl e => inl e
  | inr (set_element, dc) =>
      match first_unset th set_element (range 0 ne) with
      | Some e => inl e
      | None =>
          let sum := Rsum (map (vget dc) (range 0 ne)) in
          inr (map (fun i => vget dc i / sum) (range 0 ne))
      end
  end.

(** The sum of the entries of the array whose flag is set. *)
Definition flagged_sum (ne : N) (set_element : list bool) (dc : RealVector) : R :=
  Rsum (map (fun i => if flag_get set_element i then vget dc i else 0)
            (range 0 ne)).

(** The default composition the constructor stores: equal parts. *)
Definition default_composition_new (th : Thermodynamics) : RealVector :=
  repeat (1.0 / IZR (Z.of_N (nElements th))) (N.to_nat (nElements th)).

(* ================================================================= *)
(** ** The mixture: state functions *)

(** What the functions below read of the state model [mp_state], which is
    not among the sources. *)
Record StateModel := {
  state_T : R;
  state_Te : R;
  state_P : R;
  state_X : RealVector
}.

Section MixtureFunctions.

(** The constants [RU], [KB] and [NA] of [Constants.h], which is not among
    the sources. *)
Variable RU : R.
Variable KB : R.
Variable NA : R.

(** [speciesCpOverR(mp_work1)]: the values the thermodynamic database, not
    among the sources, writes for the state. *)
Variable speciesCpOverR : StateModel -> RealVector.

(** The entrywise product of the mole fractions and the molecular weights,
    summed. *)
Definition mixtureMw (th : Thermodynamics) (state : StateModel) : R :=
  Rsum (map (fun i => vget (state_X state) i * speciesMw th i)
            (range 0 (nSpecies th))).

(** [numberDensity(T, P)]. *)
Definition numberDensity_at (T P : R) : R := P / (KB * T).

(** [numberDensity()], at the state. *)
Definition numberDensity (hasElectrons : bool) (state : StateModel) : R :=
  let Xe := if hasElectrons then vget (state_X state) 1 else 0.0 in
  state_P state / KB * ((1.0 - Xe) / state_T state + Xe / state_Te state).

Definition pressure (th : Thermodynamics) (T rho : R) (Y : RealVector) : R :=
  let pressure :=
    fold_left (fun p i => p + vget Y i / speciesMw th i)
              (range 0 (nSpecies th)) 0.0 in
  pressure * (rho * T * RU).

(** [density(T, P, X)]. *)
Definition density_at (th : Thermodynamics) (T P : R) (X : RealVector) : R :=
  let density :=
    fold_left (fun d i => d + vget X i * speciesMw th i)
              (range 0 (nSpecies th)) 0.0 in
  density * (P / (RU * T)).

(** [density()], at the state. *)
Definition density (th : Thermodynamics) (hasElectrons : bool)
    (state : StateModel) : R :=
  numberDensity hasElectrons state * mixtureMw th state / NA.

Definition mixtureFrozenCpMole (th : Thermodynamics) (state : StateModel) : R :=
  let work := speciesCpOverR state in
  let cp :=
    fold_left (fun cp i => cp + vget work i * vget (state_X state) i)
              (range 0 (nSpecies th)) 0.0 in
  cp * RU.

Definition mixtureFrozenCpMass (th : Thermodynamics) (state : StateModel) : R :=
  mixtureFrozenCpMole th state / mixtureMw th state.

Definition mixtureFrozenCvMole (th : Thermodynamics) (state : StateModel) : R :=
  mixtureFrozenCpMole th state - RU.

Definition mixtureFrozenCvMass (th : Thermodynamics) (state : StateModel) : R :=
  (mixtureFrozenCpMole th state - RU) / mixtureMw th state.

Definition mixtureFrozenGamma (th : Thermodynamics) (state : StateModel) : R :=
  let cp := mixtureFrozenCpMole th state in
  cp / (cp - RU).

End MixtureFunctions.

(** The row vector of [ns] species values times the element matrix. *)
Definition times_element_matrix (th : Thermodynamics) (v : RealVector)
  : RealVector :=
  map (fun j => Rsum (map (fun i => vget v i * elementMatrix th i j)
                          (range 0 (nSpecies th))))
      (range 0 (nElements th)).

Definition elementMoles (th : Thermodynamics) (species_N : RealVector)
  : RealVector := times_element_matrix th species_N.

Definition elementFractions (th : Thermodynamics) (Xs : RealVector)
  : RealVector :=
  let wrapper := times_element_matrix th Xs in
  let sum := Rsum wrapper in
  map (fun i => vget wrapper i / sum) (range 0 (nElements th)).

(** A species database for the examples: each node is its name, a species
    is built as its name and uses no element. *)
Definition example_db : list string :=
  ["N2"%string; "N"%string; "e-"%string; "N"%string; "N+"%string].

Definition example_Species_new (node : string) (elements : list string)
    (used : list Z) : string * list Z := (node, used).

(** A mixture of N2, O2 and NO over the elements N and O. *)
Definition air : Thermodynamics :=
  {| speciesNames := ["N2"%string; "O2"%string; "NO"%string];
     speciesMws := [28; 32; 30];
     elementNames := ["N"%string; "O"%string];
     elementMatrix := fun k e =>
       if (k =? 0)%N then (if (e =? 0)%N then 2 else 0)
       else if (k =? 1)%N then (if (e =? 1)%N then 2 else 0)
       else if (k =? 2)%N then (if (e <? 2)%N then 1 else 0) else 0;
     speciesGOverRT := [0; 0; 0] |}.

(** A state of the nitrogen mixture in thermal equilibrium. *)
Definition example_state : StateModel :=
  {| state_T := 300; state_Te := 300; state_P := 101325; state_X := [0.5; 0.5] |}.

(* ================================================================= *)
(** ** Lookup tables ([utils/LookupTable.h]) *)

(** The table class is a template over the index and data types; it is
    read here at [double] for both, a [double] being a real number as in
    the rest of the development. *)
Inductive InterpolationScheme := NEAREST_INDEX | LINEAR | EXPONENTIAL.

(** [unsigned int] on the targets of the library: 32 bits, with
    wrap-around. *)
Definition UINT_WIDTH : Z := 2 ^ 32.

Definition uint_of_Z (z : Z) : N := Z.to_N (z mod UINT_WIDTH).

Definition uint_sub (a b : N) : N := uint_of_Z (Z.of_N a - Z.of_N b).

Definition uint_add (a b : N) : N := uint_of_Z (Z.of_N a + Z.of_N b).

Definition uint_mul (a b : N) : N := uint_of_Z (Z.of_N a * Z.of_N b).

(** [static_cast<unsigned int>] of a [double]: the value is truncated
    towards zero; [None] stands for the undefined conversion of a value
    whose truncation is not an [unsigned int]. *)
Definition uint_of_double (x : R) : option N :=
  if Rlt_dec (-1) x
  then if Rlt_dec x (IZR UINT_WIDTH) then Some (Z.to_N (Int_part x)) else None
  else None.

Record LookupTable := {
  m_num_indices : N;
  m_num_functions : N;
  m_is_constant_delta : bool;
  mp_indices : list R;
  mp_data : list R
}.

(** The cells of an array at the given subscripts; [None] when one of them
    lies outside the array. *)
Fixpoint read_cells (array : list R) (cells : list N) : option (list R) :=
  match cells with
  | [] => Some []
  | c :: t =>
      match at_index array c, read_cells array t with
      | Some x, Some xs => Some (x :: xs)
      | _, _ => None
      end
  end.

(** [p[0]], ..., [p[length-1]] for the pointer [p = array + offset]. *)
Definition read_row (array : list R) (offset length : N) : option (list R) :=
  read_cells array (range offset (offset + length)).

(** The loop [for (i = 0; i < length; ++i) p_out[i] = f (p_y1[i], p_y2[i])]
    of the linear and exponential interpolators. *)
Fixpoint interpolate_cells (f : R -> R -> R) (array : list R) (p_y1 p_y2 : N)
    (cells : list N) : option (list R) :=
  match cells with
  | [] => Some []
  | i :: t =>
      match at_index array (p_y1 + i), at_index array (p_y2 + i),
            interpolate_cells f array p_y1 p_y2 t with
      | Some y1, Some y2, Some out => Some (f y1 y2 :: out)
      | _, _, _ => None
      end
  end.

(** [memcpy] from the row picked by the ratio: the other row is not read. *)
Definition _interpolateNearestIndex (ratio : R) (array : list R) (p_y1 p_y2 : N)
    (length : N) : option (list R) :=
  read_row array (if Rlt_dec ratio 0.5 then p_y1 else p_y2) length.

Definition _interpolateLinear (ratio : R) (array : list R) (p_y1 p_y2 : N)
    (length : N) : option (list R) :=
  interpolate_cells (fun y1 y2 => y1 + ratio * (y2 - y1)) array p_y1 p_y2
    (range 0 length).

Definition _interpolateExponential (ratio : R) (array : list R) (p_y1 p_y2 : N)
    (length : N) : option (list R) :=
  interpolate_cells
    (fun y1 y2 => let log1 := ln y1 in exp (log1 + ratio * (ln y2 - log1)))
    array p_y1 p_y2 (range 0 length).

(** [std::lower_bound] on an ascending range, as the standard specifies
    it: the position of the first element that is not less than [value],
    the length of the range when there is none. *)
Fixpoint lower_bound (l : list R) (value : R) : N :=
  match l with
  | [] => 0%N
  | x :: t => if Rlt_dec x value then N.succ (lower_bound t value) else 0%N
  end.

(** The rows [lookup] interpolates between. *)
Definition lookup_rows (t : LookupTable) (index : R) : option (N * N) :=
  match at_index (mp_indices t) 0 with
  | None => None
  | Some minIndex =>
      if Rlt_dec minIndex index then
        if m_is_constant_delta t then
          match at_index (mp_indices t) 1 with
          | None => None
          | Some x1 =>
              match uint_of_double ((index - minIndex) / (x1 - minIndex)) with
              | None => None
              | Some lower_row =>
                  let lower_row :=
                    if (uint_sub (m_num_indices t) 1 <=? lower_row)%N
                    then uint_sub (m_num_indices t) 2 else lower_row in
                  Some (lower_row, uint_add lower_row 1)
              end
          end
        else
          let upper_row :=
            lower_bound (firstn (N.to_nat (m_num_indices t)) (mp_indices t))
                        index in
          Some (uint_sub upper_row 1, upper_row)
      else Some (0%N, 1%N)
  end.

(** [lookup]: the values left in [p_values], or [None] when a subscript
    left [mp_indices] or [mp_data], or the conversion of the row number was
    undefined. *)
Definition lookup (t : LookupTable) (index : R) (scheme : InterpolationScheme)
  : option (list R) :=
  match lookup_rows t index with
  | None => None
  | Some (lower_row, upper_row) =>
      match at_index (mp_indices t) lower_row,
            at_index (mp_indices t) upper_row with
      | Some x_lower, Some x_upper =>
          let ratio := (index - x_lower) / (x_upper - x_lower) in
          let p_y1 := uint_mul lower_row (m_num_functions t) in
          let p_y2 := uint_mul upper_row (m_num_functions t) in
          match scheme with
          | NEAREST_INDEX =>
              _interpolateNearestIndex ratio (mp_data t) p_y1 p_y2
                (m_num_functions t)
          | LINEAR =>
              _interpolateLinear ratio (mp_data t) p_y1 p_y2 (m_num_functions t)
          | EXPONENTIAL =>
              _interpolateExponential ratio (mp_data t) p_y1 p_y2
                (m_num_functions t)
          end
      | _, _ => None
      end
  end.

(** How [loadTable] ends once the file is open: the table is filled, or
    the process exits with status 1 after the message that names the row
    (counted from one) whose index is not above the index before it. *)
Inductive LoadTableOutcome :=
| TableLoaded (t : LookupTable)
| TableNotOrdered (row : N).

(** The loop over the rows of the file.  [indices] holds the indices read
    so far; the row in hand is row [i]. *)
Fixpoint load_rows (rows : list (R * list R)) (i : N) (indices : list R)
    (is_constant_delta : bool) : N + (list R * bool) :=
  match rows with
  | [] => inr (indices, is_constant_delta)
  | (x, _) :: rest =>
      if (0 <? i)%N && (if Rle_dec x (vget indices (i - 1)) then true else false)
      then inl (i + 1)%N
      else
        let flag :=
          if (1 <? i)%N
          then is_constant_delta
               && (if Rlt_dec (Rabs ((x - vget indices (i - 1))
                                     - (vget indices (i - 1) - vget indices (i - 2))))
                              (1.0e-6 * vget indices (i - 2))
                   then true else false)
          else is_constant_delta in
        load_rows rest (i + 1)%N (indices ++ [x]) flag
  end.

(** [loadTable] on a file that opens and holds, after the two counts, as
    many rows as the first count says, each with an index and
    [num_functions] values. *)
Definition loadTable (num_indices num_functions : Z) (rows : list (R * list R))
  : LoadTableOutcome :=
  match load_rows rows 0 [] true with
  | inl row => TableNotOrdered row
  | inr (indices, is_constant_delta) =>
      TableLoaded
        {| m_num_indices := uint_of_Z num_indices;
           m_num_functions := uint_of_Z num_functions;
           m_is_constant_delta := is_constant_delta;
           mp_indices := indices;
           mp_data :=
             flat_map (fun row => map (vget (snd row))
                                      (range 0 (uint_of_Z num_functions)))
                      rows |}
  end.

(** What the constructors establish of a table: the arrays have the sizes
    [initialize] gives them, the number of rows and the size of the data
    fit an [unsigned int], and the indices ascend. *)
Record table_inv (t : LookupTable) : Prop := {
  ti_indices : N.of_nat (List.length (mp_indices t)) = m_num_indices t;
  ti_data :
    N.of_nat (List.length (mp_data t)) = (m_num_indices t * m_num_functions t)%N;
  ti_rows : (Z.of_N (m_num_indices t) < UINT_WIDTH)%Z;
  ti_small : (Z.of_N (m_num_indices t * m_num_functions t) < UINT_WIDTH)%Z;
  ti_ascending :
    forall i j xi xj, (i < j)%N ->
      at_index (mp_indices t) i = Some xi -> at_index (mp_indices t) j = Some xj ->
      xi < xj
}.

(** The indices of consecutive rows ascend. *)
Definition ascending (l : list R) : Prop :=
  forall i xi xj, at_index l i = Some xi -> at_index l (i + 1) = Some xj -> xi < xj.

(** A table of three rows and two functions with uneven spacing. *)
Definition example_table : LookupTable :=
  {| m_num_indices := 3; m_num_functions := 2; m_is_constant_delta := false;
     mp_indices := [1; 2; 4];
     mp_data := [10; 100; 20; 200; 40; 400] |}.


(* ================================================================= *)
(** ** Loops and subscripts *)

Lemma range_from_In (c : nat) (lo i : N) :
  In i (range_from c lo) <-> (lo <= i < lo + N.of_nat c)%N.
Proof.
  revert lo; induction c as [|c IH]; intros lo; simpl.
  - split; [tauto | lia].
  - rewrite IH. lia.
Qed.

Lemma In_range (lo hi i : N) : In i (range lo hi) <-> (lo <= i < hi)%N.
Proof. unfold range. rewrite range_from_In. lia. Qed.

Lemma range_from_length (c : nat) (lo : N) : List.length (range_from c lo) = c.
Proof. revert lo; induction c as [|c IH]; intros lo; simpl; auto. Qed.

Lemma range_length (lo hi : N) : List.length (range lo hi) = N.to_nat (hi - lo).
Proof. apply range_from_length. Qed.

Lemma at_index_Some_lt {A : Type} (l : list A) (i : N) (x : A) :
  at_index l i = Some x -> (i < N.of_nat (List.length l))%N.
Proof.
  revert i; induction l as [|y t IH]; intros i; simpl; [discriminate|].
  destruct (N.eqb_spec i 0); [lia|].
  intros H. apply IH in H. lia.
Qed.

Lemma at_index_lt {A : Type} (l : list A) (i : N) :
  (i < N.of_nat (List.length l))%N -> exists x, at_index l i = Some x.
Proof.
  revert i; induction l as [|y t IH]; intros i; simpl; [lia|].
  destruct (N.eqb_spec i 0); [eauto|].
  intros H. apply IH. lia.
Qed.

Lemma at_index_None {A : Type} (l : list A) (i : N) :
  (N.of_nat (List.length l) <= i)%N -> at_index l i = None.
Proof.
  intros H. destruct (at_index l i) eqn:E; [|reflexivity].
  apply at_index_Some_lt in E. lia.
Qed.

Lemma at_index_In {A : Type} (l : list A) (i : N) (x : A) :
  at_index l i = Some x -> In x l.
Proof.
  revert i; induction l as [|y t IH]; intros i; simpl; [discriminate|].
  destruct (N.eqb_spec i 0).
  - intros H; injection H; auto.
  - intros H; right; eauto.
Qed.

Lemma In_at_index {A : Type} (l : list A) (x : A) :
  In x l -> exists i, at_index l i = Some x.
Proof.
  induction l as [|y t IH]; simpl; [tauto|].
  intros [->|H].
  - exists 0%N. reflexivity.
  - destruct (IH H) as [i Hi]. exists (N.succ i). simpl.
    destruct (N.eqb_spec (N.succ i) 0); [lia|].
    now rewrite N.pred_succ.
Qed.

Lemma at_index_succ {A : Type} (y : A) (t : list A) (i : N) :
  at_index (y :: t) (N.succ i) = at_index t i.
Proof.
  simpl. destruct (N.eqb_spec (N.succ i) 0); [lia|]. now rewrite N.pred_succ.
Qed.

Lemma for_each_defined {A D : Type} (l : list A) (body : A -> option (list D)) :
  (forall x, In x l -> body x <> None) -> exists ds, for_each l body = Some ds.
Proof.
  induction l as [|x t IH]; intros H; simpl; [eauto|].
  destruct (body x) as [d|] eqn:E.
  - specialize (IH (fun y Hy => H y (or_intror Hy))).
    destruct IH as [ds Hds]. rewrite Hds. eauto.
  - exfalso. apply (H x); [now left|exact E].
Qed.

Lemma for_each_None {A D : Type} (l : list A) (body : A -> option (list D)) (x : A) :
  In x l -> body x = None -> for_each l body = None.
Proof.
  induction l as [|y t IH]; simpl; [tauto|].
  intros [->|Hin] Hx.
  - now rewrite Hx.
  - destruct (body y); [|reflexivity]. now rewrite (IH Hin Hx).
Qed.

Lemma for_each_In {A D : Type} (l : list A) (body : A -> option (list D))
    (ds : list D) (d0 : D) :
  for_each l body = Some ds ->
  (In d0 ds <-> exists x d, In x l /\ body x = Some d /\ In d0 d).
Proof.
  revert ds; induction l as [|x t IH]; intros ds; simpl.
  - intros H; injection H as <-. split; [intros []|intros (x & d & [] & _)].
  - destruct (body x) as [d|] eqn:E; [|discriminate].
    destruct (for_each t body) as [ds'|] eqn:E'; [|discriminate].
    intros H; injection H as <-.
    rewrite in_app_iff, (IH ds' eq_refl). split.
    + intros [Hd|(y & dy & Hy & Hb & Hd)].
      * exists x, d; auto.
      * exists y, dy; auto.
    + intros (y & dy & [<-|Hy] & Hb & Hd).
      * left. rewrite E in Hb. now injection Hb as ->.
      * right. exists y, dy; auto.
Qed.

Lemma for_each_nil {A D : Type} (l : list A) (body : A -> option (list D)) :
  for_each l body = Some [] <-> forall x, In x l -> body x = Some [].
Proof.
  induction l as [|x t IH]; simpl.
  - split; [intros _ x []|reflexivity].
  - destruct (body x) as [d|] eqn:E.
    + destruct (for_each t body) as [ds|] eqn:E'.
      * split.
        -- intros H; injection H as H. apply app_eq_nil in H as [-> ->].
           intros y [<-|Hy]; [exact E|]. now apply IH.
        -- intros H. assert (Hd : Some d = Some []) by (rewrite <- E; auto).
           injection Hd as ->.
           assert (Hs : Some ds = Some []) by (apply IH; auto).
           now injection Hs as ->.
      * split; [discriminate|].
        intros H. assert (Hs : @None (list D) = Some []) by (apply IH; auto).
        discriminate.
    + split; [discriminate|].
      intros H. rewrite <- E. auto.
Qed.

(* ================================================================= *)
(** ** Real vectors *)

Lemma vupd_length (v : RealVector) (i : N) (f : R -> R) :
  List.length (vupd v i f) = List.length v.
Proof.
  revert i; induction v as [|x t IH]; intros i; simpl; [reflexivity|].
  destruct (i =? 0)%N; simpl; auto.
Qed.

Lemma vupd_app_length (pre : RealVector) (x : R) (post : RealVector) (f : R -> R) :
  vupd (pre ++ x :: post) (N.of_nat (List.length pre)) f = pre ++ f x :: post.
Proof.
  induction pre as [|y t IH]; [reflexivity|].
  cbn [List.length app vupd].
  destruct (N.eqb_spec (N.of_nat (S (List.length t))) 0); [lia|].
  rewrite Nat2N.inj_succ, N.pred_succ, IH. reflexivity.
Qed.

Lemma vget_map_at {A : Type} (f : A -> R) (l : list A) (j : N) (a : A) :
  at_index l j = Some a -> vget (map f l) j = f a.
Proof.
  revert j; induction l as [|y t IH]; intros j; simpl; [discriminate|].
  destruct (j =? 0)%N.
  - intros H; injection H as ->. reflexivity.
  - apply IH.
Qed.

Lemma vget_zip_with {A : Type} (g : R -> A -> R) (r0 : RealVector) (l : list A)
    (j : N) (a : A) :
  List.length r0 = List.length l -> at_index l j = Some a ->
  vget (zip_with g r0 l) j = g (vget r0 j) a.
Proof.
  revert r0 j; induction l as [|y t IH]; intros r0 j; simpl; [discriminate|].
  destruct r0 as [|x r0]; [discriminate|]. simpl. intros Hlen.
  destruct (j =? 0)%N.
  - intros H; injection H as ->. reflexivity.
  - apply IH. lia.
Qed.

Lemma zip_with_length {A B C : Type} (g : A -> B -> C) (l1 : list A) (l2 : list B) :
  List.length l1 = List.length l2 -> List.length (zip_with g l1 l2) = List.length l2.
Proof.
  revert l2; induction l1 as [|x t IH]; intros [|y l2]; simpl; try discriminate; auto.
Qed.

Lemma vget_vzero (n j : N) : vget (vzero n) j = 0.
Proof.
  unfold vzero. generalize (N.to_nat n) as c. intros c; revert j.
  induction c as [|c IH]; intros j; simpl; [reflexivity|].
  destruct (j =? 0)%N; auto.
Qed.

Lemma vzero_length (n : N) : List.length (vzero n) = N.to_nat n.
Proof. apply repeat_length. Qed.

Lemma vget_vsub (u v : RealVector) (j : N) :
  List.length u = List.length v -> vget (vsub u v) j = vget u j - vget v j.
Proof.
  revert v j; induction u as [|x u IH]; intros [|y v] j; simpl; try discriminate.
  - intros _; lra.
  - intros H. destruct (j =? 0)%N; [reflexivity|]. apply IH. lia.
Qed.

Lemma vget_vexp (v : RealVector) (j : N) :
  (j < N.of_nat (List.length v))%N -> vget (vexp v) j = exp (vget v j).
Proof.
  revert j; induction v as [|x v IH]; intros j; simpl; [lia|].
  intros H. destruct (N.eqb_spec j 0); [reflexivity|]. apply IH. lia.
Qed.

(* ================================================================= *)
(** ** Managers filled by [addReaction] *)

Lemma entries_app {A : Type} (f : Reaction -> option A) (i0 : N)
    (l1 l2 : list Reaction) :
  entries f i0 (l1 ++ l2)
  = entries f i0 l1 ++ entries f (i0 + N.of_nat (List.length l1)) l2.
Proof.
  revert i0; induction l1 as [|r t IH]; intros i0.
  - simpl. now rewrite N.add_0_r.
  - cbn [app entries List.length]. rewrite IH.
    replace (N.succ i0 + N.of_nat (List.length t))%N
      with (i0 + N.of_nat (S (List.length t)))%N by lia.
    destruct (f r); reflexivity.
Qed.

(** The entry of reaction [j], if it registered one. *)
Lemma entries_at {A : Type} (f : Reaction -> option A) (i0 : N)
    (rxns : list Reaction) (j : N) (a : A) :
  In (j, a) (entries f i0 rxns) <->
  exists rx, (i0 <= j)%N /\ at_index rxns (j - i0) = Some rx /\ f rx = Some a.
Proof.
  revert i0; induction rxns as [|r t IH]; intros i0.
  - simpl. split; [intros []|intros (rx & _ & H & _); discriminate].
  - assert (Htail : In (j, a) (entries f (N.succ i0) t) <->
                    exists rx, (i0 < j)%N /\ at_index (r :: t) (j - i0) = Some rx
                               /\ f rx = Some a).
    { rewrite IH. split; intros (rx & Hle & Hat & Hf); exists rx.
      - split; [lia|]. split; [|exact Hf].
        replace (j - i0)%N with (N.succ (j - N.succ i0)) by lia.
        now rewrite at_index_succ.
      - split; [lia|]. split; [|exact Hf].
        replace (j - i0)%N with (N.succ (j - N.succ i0)) in Hat by lia.
        now rewrite at_index_succ in Hat. }
    cbn [entries]. destruct (f r) as [a0|] eqn:E.
    + cbn [In]. rewrite Htail. split.
      * intros [[= <- <-]|(rx & Hlt & Hat & Hf)].
        -- exists r. rewrite N.sub_diag. split; [lia|]. split; [reflexivity|exact E].
        -- exists rx. split; [lia|]. auto.
      * intros (rx & Hle & Hat & Hf).
        destruct (N.eq_dec j i0) as [->|Hne].
        -- left. rewrite N.sub_diag in Hat. cbn in Hat. injection Hat as <-.
           rewrite E in Hf. now injection Hf as <-.
        -- right. exists rx. split; [lia|]. auto.
    + rewrite Htail. split.
      * intros (rx & Hlt & Hat & Hf). exists rx. split; [lia|]. auto.
      * intros (rx & Hle & Hat & Hf).
        destruct (N.eq_dec j i0) as [->|Hne].
        -- rewrite N.sub_diag in Hat. cbn in Hat. injection Hat as <-. congruence.
        -- exists rx. split; [lia|]. auto.
Qed.

Lemma entries_at_0 {A : Type} (f : Reaction -> option A) (rxns : list Reaction)
    (j : N) (a : A) :
  In (j, a) (entries f 0 rxns)
  <-> exists rx, at_index rxns j = Some rx /\ f rx = Some a.
Proof.
  rewrite entries_at. rewrite N.sub_0_r. split.
  - intros (rx & _ & H1 & H2). eauto.
  - intros (rx & H1 & H2). exists rx. split; [lia|]. auto.
Qed.

(** A manager operation on a reaction vector, in closed form: every
    registered reaction gets its own update, the others keep their value. *)
Lemma fold_entries {A : Type} (f : Reaction -> option A) (h : A -> R -> R)
    (rxns : list Reaction) (pre r0 : RealVector) :
  List.length r0 = List.length rxns ->
  fold_left (fun r e => vupd r (fst e) (h (snd e)))
            (entries f (N.of_nat (List.length pre)) rxns) (pre ++ r0)
  = pre ++ zip_with (fun x r => match f r with Some a => h a x | None => x end)
                    r0 rxns.
Proof.
  revert pre r0; induction rxns as [|r t IH]; intros pre r0 Hlen.
  - destruct r0; [reflexivity|discriminate].
  - destruct r0 as [|x r0]; [discriminate|].
    simpl in Hlen. cbn [entries zip_with].
    assert (Hs : forall y : R,
               N.succ (N.of_nat (List.length pre))
               = N.of_nat (List.length (pre ++ [y]))).
    { intros y. rewrite length_app. simpl. lia. }
    destruct (f r) as [a|].
    + cbn [fold_left fst snd]. rewrite vupd_app_length.
      rewrite (Hs (h a x)).
      replace (pre ++ h a x :: r0) with ((pre ++ [h a x]) ++ r0)
        by (now rewrite <- app_assoc).
      rewrite IH by lia. now rewrite <- app_assoc.
    + rewrite (Hs x).
      replace (pre ++ x :: r0) with ((pre ++ [x]) ++ r0)
        by (now rewrite <- app_assoc).
      rewrite IH by lia. now rewrite <- app_assoc.
Qed.

Lemma fold_entries_0 {A : Type} (f : Reaction -> option A) (h : A -> R -> R)
    (rxns : list Reaction) (r0 : RealVector) :
  List.length r0 = List.length rxns ->
  fold_left (fun r e => vupd r (fst e) (h (snd e))) (entries f 0 rxns) r0
  = zip_with (fun x r => match f r with Some a => h a x | None => x end) r0 rxns.
Proof. intros H. exact (fold_entries f h rxns [] r0 H). Qed.

Lemma loaded_new (th : Thermodynamics) (T0 : R) : loaded (Kinetics_new th T0).
Proof. constructor; reflexivity. Qed.

Lemma addReaction_loaded (r : Reaction) (k : Kinetics) :
  loaded k -> loaded (addReaction r k).
Proof.
  intros [Hn Hre Hrv Hir Htb Hra].
  constructor; cbn [addReaction m_num_rxns m_reactions m_reactants m_rev_prods
                      m_irr_prods m_thirdbodies m_rates m_thermo];
    rewrite ?length_app, ?entries_app; cbn [List.length entries N.add].
  - rewrite Hn. lia.
  - unfold SM_addReaction. now rewrite Hre, Hn.
  - destruct (isReversible r).
    + unfold SM_addReaction. now rewrite Hrv, Hn.
    + now rewrite Hrv, app_nil_r.
  - destruct (isReversible r).
    + now rewrite Hir, app_nil_r.
    + unfold SM_addReaction. now rewrite Hir, Hn.
  - destruct (isThirdbody r).
    + unfold TB_addReaction. now rewrite Htb, Hn.
    + now rewrite Htb, app_nil_r.
  - unfold addRateCoefficient. now rewrite Hra, Hn.
Qed.

Lemma addReaction_reactions (r : Reaction) (k : Kinetics) :
  m_reactions (addReaction r k) = m_reactions k ++ [r].
Proof. reflexivity. Qed.

Lemma addReactions_spec (rxns : list Reaction) (k : Kinetics) :
  loaded k ->
  loaded (addReactions rxns k)
  /\ m_reactions (addReactions rxns k) = m_reactions k ++ rxns
  /\ m_thermo (addReactions rxns k) = m_thermo k
  /\ m_T_last (addReactions rxns k) = m_T_last k.
Proof.
  revert k; induction rxns as [|r t IH]; intros k Hk.
  - simpl. now rewrite app_nil_r.
  - change (addReactions (r :: t) k) with (addReactions t (addReaction r k)).
    destruct (IH (addReaction r k) (addReaction_loaded r k Hk)) as (H1 & H2 & H3 & H4).
    split; [exact H1|]. split; [|split; assumption].
    rewrite H2, addReaction_reactions, <- app_assoc. reflexivity.
Qed.

Lemma addReactions_new (th : Thermodynamics) (T0 : R) (rxns : list Reaction) :
  let k := addReactions rxns (Kinetics_new th T0) in
  loaded k /\ m_reactions k = rxns /\ m_thermo k = th /\ m_T_last k = T0
  /\ m_num_rxns k = N.of_nat (List.length rxns).
Proof.
  intros k.
  destruct (addReactions_spec rxns _ (loaded_new th T0)) as (H1 & H2 & H3 & H4).
  fold k in H1, H2, H3, H4. simpl in H2, H3, H4.
  split; [exact H1|]. repeat (split; [assumption|]).
  rewrite (ld_num k H1), H2. reflexivity.
Qed.

Lemma fold_vupd_length {A : Type} (h : A -> R -> R) (m : list (N * A))
    (r : RealVector) :
  List.length (fold_left (fun r e => vupd r (fst e) (h (snd e))) m r)
  = List.length r.
Proof.
  revert r; induction m as [|e m IH]; intros r; simpl; [reflexivity|].
  now rewrite IH, vupd_length.
Qed.

Lemma vfill_length (v : RealVector) (x : R) : List.length (vfill v x) = List.length v.
Proof. apply length_map. Qed.

Lemma vscale_length (v : RealVector) (x : R) : List.length (vscale v x) = List.length v.
Proof. apply length_map. Qed.

Lemma incrReactions_length (m : StoichiometryManager) (s r : RealVector) :
  List.length (incrReactions m s r) = List.length r.
Proof. exact (fold_vupd_length (fun a x => x + incidence_sum s a) m r). Qed.

Lemma decrReactions_length (m : StoichiometryManager) (s r : RealVector) :
  List.length (decrReactions m s r) = List.length r.
Proof. exact (fold_vupd_length (fun a x => x - incidence_sum s a) m r). Qed.

Lemma multReactions_length (m : StoichiometryManager) (c r : RealVector) :
  List.length (multReactions m c r) = List.length r.
Proof. exact (fold_vupd_length (fun a x => x * incidence_prod c a) m r). Qed.

Lemma multiplyThirdbodies_length (m : ThirdbodyManager) (c r : RealVector) :
  List.length (multiplyThirdbodies m c r) = List.length r.
Proof. exact (fold_vupd_length (fun a x => x * thirdbodyFactor a c) m r). Qed.

Lemma lnForwardRateCoefficients_length (m : RateManager) (T : R) (r : RealVector) :
  List.length (lnForwardRateCoefficients m T r) = List.length r.
Proof. exact (fold_vupd_length (fun (law : RateLaw) _ => law T) m r). Qed.

Ltac vec_length :=
  repeat first
    [ rewrite incrReactions_length | rewrite decrReactions_length
    | rewrite multReactions_length | rewrite multiplyThirdbodies_length
    | rewrite lnForwardRateCoefficients_length
    | rewrite fold_vupd_length | rewrite vfill_length | rewrite vscale_length
    | rewrite vupd_length | rewrite vzero_length | rewrite Nat2N.id
    | rewrite zip_with_length ];
  try assumption; try reflexivity; try lia.

(** [getReactionDelta] in closed form: products minus reactants of [s]. *)
Lemma getReactionDelta_loaded (k : Kinetics) (s r : RealVector) :
  loaded k -> List.length r = List.length (m_reactions k) ->
  getReactionDelta k s r = map (delta_of (m_thermo k) s) (m_reactions k).
Proof.
  intros Hk Hlen. unfold getReactionDelta, incrReactions, decrReactions.
  rewrite (ld_reactants k Hk), (ld_rev_prods k Hk), (ld_irr_prods k Hk).
  rewrite (fold_entries_0 _ (fun a x => x - incidence_sum s a)) by vec_length.
  rewrite (fold_entries_0 _ (fun a x => x + incidence_sum s a)
             _ (zip_with _ _ _)) by vec_length.
  rewrite (fold_entries_0 _ (fun a x => x + incidence_sum s a)) by vec_length.
  revert r Hlen. generalize (m_reactions k) as rxns.
  induction rxns as [|x t IH]; intros [|y r] Hlen; try discriminate; [reflexivity|].
  cbn [vfill map zip_with]. f_equal.
  - unfold delta_of. destruct (isReversible x); lra.
  - apply IH. simpl in Hlen. lia.
Qed.

(* ================================================================= *)
(** ** Invariants of a sealed engine *)

Lemma seal_inv (k : Kinetics) : loaded k -> sealed_inv (seal k).
Proof.
  intros Hk. pose proof (ld_num k Hk) as Hn.
  constructor; cbn [seal m_dnu m_lnkf m_lnkeq m_reactions m_thermo].
  - destruct Hk; constructor; assumption.
  - apply getReactionDelta_loaded; [exact Hk|]. rewrite Hn. vec_length.
  - rewrite Hn. vec_length.
  - rewrite Hn. vec_length.
Qed.

Lemma closeReactions_Sealed (v : bool) (k k' : Kinetics) :
  closeReactions v k = Sealed k' -> k' = seal k.
Proof.
  unfold closeReactions. destruct v.
  - destruct (validate k) as [[|d ds]|]; try discriminate. now intros [= <-].
  - now intros [= <-].
Qed.

Lemma set_rop_inv (k : Kinetics) (ropf ropb rop : RealVector) :
  sealed_inv k -> sealed_inv (set_rop k ropf ropb rop).
Proof.
  intros [[Hn Hre Hrv Hir Htb Hra] Hd Hf Hq].
  constructor; [constructor|..]; assumption.
Qed.

Lemma setState_inv (g : RealVector) (k : Kinetics) :
  sealed_inv k -> sealed_inv (setState g k).
Proof.
  intros [[Hn Hre Hrv Hir Htb Hra] Hd Hf Hq].
  constructor; [constructor|..]; assumption.
Qed.

Lemma lnkeq_at_length (RU : R) (k : Kinetics) (T : R) :
  List.length (lnkeq_at RU k T) = List.length (m_dnu k).
Proof. unfold lnkeq_at. vec_length. Qed.

Lemma updateT_inv (RU T : R) (k : Kinetics) :
  sealed_inv k -> sealed_inv (updateT RU T k).
Proof.
  intros Hk. unfold updateT. destruct (Rlt_dec _ _); [exact Hk|].
  destruct Hk as [[Hn Hre Hrv Hir Htb Hra] Hd Hf Hq].
  constructor; [constructor|..]; try assumption;
    cbn [set_cache m_lnkf m_lnkeq m_reactions].
  - rewrite lnForwardRateCoefficients_length. exact Hf.
  - rewrite lnkeq_at_length, Hd. apply length_map.
Qed.

(** A second [updateT] at the same temperature finds the cache current. *)
Lemma updateT_idem (RU T : R) (k : Kinetics) :
  updateT RU T (updateT RU T k) = updateT RU T k.
Proof.
  unfold updateT at 2 3. destruct (Rlt_dec _ _) as [H|H].
  - unfold updateT. destruct (Rlt_dec _ _); [reflexivity|contradiction].
  - unfold updateT. cbn [set_cache m_T_last].
    destruct (Rlt_dec _ _) as [H'|H']; [reflexivity|].
    exfalso. apply H'. rewrite Rminus_diag, Rabs_R0. lra.
Qed.

Lemma set_rop_same (k : Kinetics) : set_rop k (m_ropf k) (m_ropb k) (m_rop k) = k.
Proof. destruct k; reflexivity. Qed.

(** Every rate-returning call leaves the state [updateT] leaves, up to the
    three work arrays. *)
Lemma call_state (RU : R) (c : RateCall) (T : R) (k : Kinetics) :
  exists ropf ropb rop,
    snd (call RU c T k) = set_rop (updateT RU T k) ropf ropb rop.
Proof.
  destruct c; cbn [call];
    unfold netProductionRates, netRatesOfProgress, forwardRatesOfProgress,
      backwardRatesOfProgress, backwardRateCoefficients, forwardRateCoefficients,
      equilibriumConstants; cbn [snd]; rewrite ?updateT_idem.
  1-5: exists (m_ropf (updateT RU T k)), (m_ropb (updateT RU T k)),
         (m_rop (updateT RU T k)); now rewrite set_rop_same.
  - eexists _, _, _. reflexivity.
  - eexists _, _, _. cbn [set_rop m_ropf m_ropb m_rop m_num_rxns m_thermo
       m_reactions m_reactants m_rev_prods m_irr_prods m_thirdbodies m_rates m_dnu
       m_lnkf m_lnkeq m_T_last]. reflexivity.
Qed.

Lemma call_inv (RU : R) (c : RateCall) (T : R) (k : Kinetics) :
  sealed_inv k -> sealed_inv (snd (call RU c T k)).
Proof.
  intros Hk. destruct (call_state RU c T k) as (f & b & r & ->).
  apply set_rop_inv, updateT_inv, Hk.
Qed.

Lemma sealed_engine_inv (RU : R) (k : Kinetics) :
  sealed_engine RU k -> sealed_inv k.
Proof.
  induction 1 as [v th T0 rxns k H|c T k _ IH|g k _ IH].
  - apply closeReactions_Sealed in H as ->.
    apply seal_inv. apply (addReactions_new th T0 rxns).
  - now apply call_inv.
  - now apply setState_inv.
Qed.

(** The value a manager operation leaves for reaction [j]. *)
Lemma manager_at {A : Type} (f : Reaction -> option A) (h : A -> R -> R)
    (rxns : list Reaction) (r0 : RealVector) (j : N) (rx : Reaction) :
  List.length r0 = List.length rxns -> at_index rxns j = Some rx ->
  vget (fold_left (fun r e => vupd r (fst e) (h (snd e))) (entries f 0 rxns) r0) j
  = match f rx with Some a => h a (vget r0 j) | None => vget r0 j end.
Proof.
  intros Hlen Hj. rewrite fold_entries_0 by exact Hlen.
  now rewrite (vget_zip_with _ r0 rxns j rx Hlen Hj).
Qed.

Lemma vget_vscale (v : RealVector) (a : R) (j : N) :
  vget (vscale v a) j = vget v j * a.
Proof.
  revert j; induction v as [|x v IH]; intros j; simpl; [lra|].
  destruct (j =? 0)%N; auto.
Qed.

Lemma lnkeq_at_at (RU : R) (k : Kinetics) (T : R) (j : N) (rx : Reaction) :
  sealed_inv k -> at_index (m_reactions k) j = Some rx ->
  vget (lnkeq_at RU k T) j
  = vget (m_dnu k) j * ln (101325.0 / (RU * T))
    + incidence_sum (speciesGOverRT (m_thermo k)) (reactant_indices (m_thermo k) rx)
    - incidence_sum (speciesGOverRT (m_thermo k)) (product_indices (m_thermo k) rx).
Proof.
  intros Hk Hj. pose proof (si_loaded k Hk) as Hl.
  assert (Hd : List.length (m_dnu k) = List.length (m_reactions k))
    by (rewrite (si_dnu k Hk); apply length_map).
  set (g := speciesGOverRT (m_thermo k)).
  unfold lnkeq_at. fold g. unfold decrReactions at 1.
  rewrite (ld_irr_prods k Hl).
  rewrite (manager_at _ (fun a x => x - incidence_sum g a) _ _ j rx)
    by (vec_length; assumption).
  unfold decrReactions. rewrite (ld_rev_prods k Hl).
  rewrite (manager_at _ (fun a x => x - incidence_sum g a) _ _ j rx)
    by (vec_length; assumption).
  unfold incrReactions. rewrite (ld_reactants k Hl).
  rewrite (manager_at _ (fun a x => x + incidence_sum g a) _ _ j rx)
    by (vec_length; assumption).
  rewrite vget_vscale. destruct (isReversible rx); lra.
Qed.

Lemma updateT_current (RU T : R) (k : Kinetics) :
  Rabs (T - m_T_last k) < 1.0E-6 -> updateT RU T k = k.
Proof. intros H. unfold updateT. destruct (Rlt_dec _ _); [reflexivity|contradiction]. Qed.

Lemma updateT_stale (RU T : R) (k : Kinetics) :
  ~ Rabs (T - m_T_last k) < 1.0E-6 ->
  updateT RU T k
  = set_cache k (lnForwardRateCoefficients (m_rates k) T (m_lnkf k))
      (lnkeq_at RU k T) T.
Proof. intros H. unfold updateT. destruct (Rlt_dec _ _); [contradiction|reflexivity]. Qed.

Lemma call_cache (RU : R) (c : RateCall) (T : R) (k : Kinetics) :
  cache (snd (call RU c T k)) = cache (updateT RU T k).
Proof. destruct (call_state RU c T k) as (f & b & r & ->). reflexivity. Qed.

Lemma call_dnu (RU : R) (c : RateCall) (T : R) (k : Kinetics) :
  m_dnu (snd (call RU c T k)) = m_dnu k.
Proof.
  destruct (call_state RU c T k) as (f & b & r & ->). cbn [set_rop m_dnu].
  unfold updateT. destruct (Rlt_dec _ _); reflexivity.
Qed.

Lemma zip_with_ignore_l {A B C : Type} (g : B -> C) (l1 : list A) (l2 : list B) :
  List.length l1 = List.length l2 -> zip_with (fun _ y => g y) l1 l2 = map g l2.
Proof.
  revert l2; induction l1 as [|x t IH]; intros [|y l2]; simpl; try discriminate; auto.
  intros H. f_equal. apply IH. lia.
Qed.

Lemma lnForwardRateCoefficients_sealed (k : Kinetics) (T : R) :
  sealed_inv k ->
  lnForwardRateCoefficients (m_rates k) T (m_lnkf k)
  = map (fun r => rateLaw r T) (m_reactions k).
Proof.
  intros Hk. unfold lnForwardRateCoefficients.
  rewrite (ld_rates k (si_loaded k Hk)).
  rewrite (fold_entries_0 (fun r => Some (rateLaw r)) (fun (law : RateLaw) _ => law T))
    by exact (si_lnkf k Hk).
  apply (zip_with_ignore_l (fun r => rateLaw r T)). exact (si_lnkf k Hk).
Qed.

Lemma nitrogen_engine_sealed (RU : R) : sealed_engine RU nitrogen_engine.
Proof.
  apply (sealed_by_close RU false nitrogen 0 [dissociation]). reflexivity.
Qed.

Lemma nitrogen_engine_stale : 1.0E-6 <= Rabs (1000 - m_T_last nitrogen_engine).
Proof.
  cbn [nitrogen_engine seal m_T_last addReactions fold_left addReaction Kinetics_new].
  unfold Rabs. destruct (Rcase_abs _); lra.
Qed.

(* ================================================================= *)
(** ** The temperature cache (C4) *)

(** C4, amended: the guard of [updateT] compares the requested temperature
    with [T_last], the temperature of the last recomputation.  For a sealed
    engine and any rate-returning call at [T]: when [|T - T_last| < 1e-6]
    the cached log forward rates, log equilibrium constants and [T_last]
    are unchanged; when [|T - T_last| >= 1e-6] the log forward rates are
    recomputed from the rate laws at [T], the log equilibrium constants are
    recomputed at [T], and [T_last] becomes [T]; and after such a
    recomputation any further call at [T2] with [|T2 - T| < 1e-6] leaves
    the three unchanged. *)
Theorem updateT_cache_guard (RU : R) (k : Kinetics) (c : RateCall) (T : R) :
  sealed_engine RU k ->
  (Rabs (T - m_T_last k) < 1.0E-6 -> cache (snd (call RU c T k)) = cache k)
  /\ (1.0E-6 <= Rabs (T - m_T_last k) ->
      cache (snd (call RU c T k))
      = (map (fun r => rateLaw r T) (m_reactions k), lnkeq_at RU k T, T))
  /\ (forall (c2 : RateCall) (T2 : R),
        1.0E-6 <= Rabs (T - m_T_last k) -> Rabs (T2 - T) < 1.0E-6 ->
        cache (snd (call RU c2 T2 (snd (call RU c T k))))
        = cache (snd (call RU c T k))).
Proof.
  intros Hk. apply sealed_engine_inv in Hk.
  assert (Hstale : 1.0E-6 <= Rabs (T - m_T_last k) ->
                   cache (snd (call RU c T k))
                   = (map (fun r => rateLaw r T) (m_reactions k), lnkeq_at RU k T, T)).
  { intros H. rewrite call_cache, updateT_stale by lra.
    unfold cache; cbn [set_cache m_lnkf m_lnkeq m_T_last].
    now rewrite lnForwardRateCoefficients_sealed. }
  split; [|split].
  - intros H. now rewrite call_cache, updateT_current.
  - exact Hstale.
  - intros c2 T2 H H2. rewrite (call_cache RU c2). apply f_equal.
    apply updateT_current.
    assert (E : m_T_last (snd (call RU c T k)) = T)
      by (specialize (Hstale H); now injection Hstale).
    now rewrite E.
Qed.

(* ================================================================= *)
(** ** Rate coefficients (C2, C8) *)

Lemma vsub_length (u v : RealVector) :
  List.length u = List.length v -> List.length (vsub u v) = List.length v.
Proof.
  revert v; induction u as [|x u IH]; intros [|y v]; simpl; try discriminate; auto.
Qed.

Lemma vget_exp_vsub (u v : RealVector) (j : N) :
  List.length u = List.length v -> (j < N.of_nat (List.length v))%N ->
  vget (vexp (vsub u v)) j = exp (vget u j - vget v j).
Proof.
  intros Hlen Hj. rewrite vget_vexp by (rewrite vsub_length; assumption).
  now rewrite vget_vsub.
Qed.

Lemma sealed_lengths (RU T : R) (k : Kinetics) :
  sealed_inv k ->
  List.length (m_lnkf (updateT RU T k)) = List.length (m_lnkeq (updateT RU T k))
  /\ N.of_nat (List.length (m_lnkeq (updateT RU T k))) = m_num_rxns k
  /\ N.of_nat (List.length (m_lnkf (updateT RU T k))) = m_num_rxns k.
Proof.
  intros Hk. pose proof (updateT_inv RU T k Hk) as H1.
  pose proof (si_lnkf _ H1) as Hf. pose proof (si_lnkeq _ H1) as Hq.
  assert (Hr : m_reactions (updateT RU T k) = m_reactions k)
    by (unfold updateT; destruct (Rlt_dec _ _); reflexivity).
  rewrite Hr in Hf, Hq. rewrite Hf, Hq, (ld_num k (si_loaded k Hk)). auto.
Qed.

(** C2: for a sealed engine and a temperature [T], the three calls
    [equilibriumConstants], [forwardRateCoefficients] and
    [backwardRateCoefficients] made one after the other return, for every
    reaction [r] (reversible ones included), a backward coefficient that is
    the exponential of the cached difference [lnkf - lnkeq] and that equals
    the forward coefficient divided by the equilibrium constant. *)
Theorem backward_is_forward_over_equilibrium (RU : R) (k : Kinetics) (T : R) (r : N) :
  sealed_engine RU k -> (r < m_num_rxns k)%N ->
  let keq := equilibriumConstants RU T k in
  let kf := forwardRateCoefficients RU T (snd keq) in
  let kb := backwardRateCoefficients RU T (snd kf) in
  vget (fst kb) r
  = exp (vget (m_lnkf (snd kb)) r - vget (m_lnkeq (snd kb)) r)
  /\ vget (fst kb) r = vget (fst kf) r / vget (fst keq) r.
Proof.
  intros Hk Hr. apply sealed_engine_inv in Hk.
  cbv zeta. unfold backwardRateCoefficients, forwardRateCoefficients,
    equilibriumConstants. cbn [fst snd]. rewrite !updateT_idem.
  destruct (sealed_lengths RU T k Hk) as (Hlen & Hq & Hf).
  rewrite vget_exp_vsub by (rewrite ?Hq; assumption).
  rewrite !vget_vexp by (rewrite ?Hq, ?Hf; assumption).
  split; [reflexivity|].
  unfold Rminus, Rdiv. now rewrite exp_plus, exp_Ropp.
Qed.

(** C8: when a call at [T] triggers a cache update of a sealed engine, the
    log equilibrium constant stored for reaction [r] is
    [dnu(r) * ln(101325 / (RU*T))] plus the sum of the dimensionless Gibbs
    energies of its reactants (one term per occurrence) minus the sum over
    its products, whether the reaction is reversible or not. *)
Theorem lnkeq_after_update (RU : R) (k : Kinetics) (T : R) (r : N) (rx : Reaction) :
  sealed_engine RU k -> at_index (m_reactions k) r = Some rx ->
  1.0E-6 <= Rabs (T - m_T_last k) ->
  let th := m_thermo k in
  let g := speciesGOverRT th in
  vget (m_lnkeq (updateT RU T k)) r
  = vget (m_dnu k) r * ln (101325.0 / (RU * T))
    + Rsum (map (fun name => vget g (size_of_int (speciesIndex th name))) (reactants rx))
    - Rsum (map (fun name => vget g (size_of_int (speciesIndex th name))) (products rx)).
Proof.
  intros Hk Hr HT. apply sealed_engine_inv in Hk. cbv zeta.
  rewrite updateT_stale by lra. cbn [set_cache m_lnkeq].
  rewrite (lnkeq_at_at RU k T r rx Hk Hr).
  unfold incidence_sum, reactant_indices, product_indices, speciesIndices.
  now rewrite !map_map.
Qed.

(* ================================================================= *)
(** ** Rates of progress (C3) *)

Lemma updateT_frame (RU T : R) (k : Kinetics) :
  m_reactions (updateT RU T k) = m_reactions k
  /\ m_thermo (updateT RU T k) = m_thermo k
  /\ m_num_rxns (updateT RU T k) = m_num_rxns k.
Proof. unfold updateT. destruct (Rlt_dec _ _); auto. Qed.

Lemma multReactions_reactants_at (k : Kinetics) (c r0 : RealVector) (j : N)
    (rx : Reaction) :
  loaded k -> List.length r0 = List.length (m_reactions k) ->
  at_index (m_reactions k) j = Some rx ->
  vget (multReactions (m_reactants k) c r0) j
  = vget r0 j * incidence_prod c (reactant_indices (m_thermo k) rx).
Proof.
  intros Hk Hlen Hj. unfold multReactions. rewrite (ld_reactants k Hk).
  exact (manager_at _ (fun a x => x * incidence_prod c a) _ _ j rx Hlen Hj).
Qed.

Lemma multReactions_rev_prods_at (k : Kinetics) (c r0 : RealVector) (j : N)
    (rx : Reaction) :
  loaded k -> List.length r0 = List.length (m_reactions k) ->
  at_index (m_reactions k) j = Some rx ->
  vget (multReactions (m_rev_prods k) c r0) j
  = if isReversible rx
    then vget r0 j * incidence_prod c (product_indices (m_thermo k) rx)
    else vget r0 j.
Proof.
  intros Hk Hlen Hj. unfold multReactions. rewrite (ld_rev_prods k Hk).
  rewrite (manager_at _ (fun a x => x * incidence_prod c a) _ _ j rx Hlen Hj).
  destruct (isReversible rx); reflexivity.
Qed.

Lemma multiplyThirdbodies_at (k : Kinetics) (c r0 : RealVector) (j : N)
    (rx : Reaction) :
  loaded k -> List.length r0 = List.length (m_reactions k) ->
  at_index (m_reactions k) j = Some rx ->
  vget (multiplyThirdbodies (m_thirdbodies k) c r0) j
  = thirdbody_scale (m_thermo k) c rx (vget r0 j).
Proof.
  intros Hk Hlen Hj. unfold multiplyThirdbodies. rewrite (ld_thirdbodies k Hk).
  rewrite (manager_at _ (fun a x => x * thirdbodyFactor a c) _ _ j rx Hlen Hj).
  unfold thirdbody_scale. destruct (isThirdbody rx); reflexivity.
Qed.

Lemma vexp_length (v : RealVector) : List.length (vexp v) = List.length v.
Proof. apply length_map. Qed.

(** C3: for a reaction [r] of a sealed engine that is not marked
    reversible, the products are registered in the irreversible-product
    manager and the reversible-product manager has no entry for [r];
    [backwardRatesOfProgress] returns [exp(lnkf(r) - lnkeq(r))] scaled by
    the third-body factor only (no product-concentration factor);
    [netRatesOfProgress] subtracts that same quantity from the forward
    mass-action term before the third-body scaling; and without a third
    body the backward rate of progress is strictly positive. *)
Theorem irreversible_backward_rate (RU : R) (k : Kinetics) (T : R)
    (conc : RealVector) (r : N) (rx : Reaction) :
  sealed_engine RU k -> at_index (m_reactions k) r = Some rx ->
  isReversible rx = false ->
  let k1 := updateT RU T k in
  let kb := exp (vget (m_lnkf k1) r - vget (m_lnkeq k1) r) in
  In (r, speciesIndices (m_thermo k) (products rx)) (m_irr_prods k)
  /\ (forall sps, ~ In (r, sps) (m_rev_prods k))
  /\ vget (fst (backwardRatesOfProgress RU T conc k)) r
     = thirdbody_scale (m_thermo k) conc rx kb
  /\ vget (fst (netRatesOfProgress RU T conc k)) r
     = thirdbody_scale (m_thermo k) conc rx
         (exp (vget (m_lnkf k1) r)
          * incidence_prod conc (reactant_indices (m_thermo k) rx) - kb)
  /\ (isThirdbody rx = false ->
      0 < vget (fst (backwardRatesOfProgress RU T conc k)) r).
Proof.
  intros Hk Hr Hirr. apply sealed_engine_inv in Hk. cbv zeta.
  split.
  { rewrite (ld_irr_prods k (si_loaded k Hk)). apply entries_at.
    exists rx. rewrite N.sub_0_r, Hirr. split; [lia|]. split; [exact Hr|reflexivity]. }
  split.
  { intros sps Hin. rewrite (ld_rev_prods k (si_loaded k Hk)) in Hin.
    apply entries_at in Hin. destruct Hin as (rx' & _ & Hat & Hf).
    rewrite N.sub_0_r, Hr in Hat. injection Hat as <-.
    rewrite Hirr in Hf. discriminate. }
  pose proof (updateT_inv RU T k Hk) as H1.
  destruct (updateT_frame RU T k) as (Frx & Fth & _).
  destruct (sealed_lengths RU T k Hk) as (Hlen & Hq & Hf).
  pose proof (si_lnkf _ H1) as Lf. pose proof (si_lnkeq _ H1) as Lq.
  pose proof (si_loaded _ H1) as Hl.
  assert (Hr1 : at_index (m_reactions (updateT RU T k)) r = Some rx)
    by (now rewrite Frx).
  assert (Hrn : (r < N.of_nat (List.length (m_lnkeq (updateT RU T k))))%N).
  { rewrite Lq. now apply at_index_Some_lt in Hr1. }
  assert (Hb : vget (fst (backwardRatesOfProgress RU T conc k)) r
               = thirdbody_scale (m_thermo k) conc rx
                   (exp (vget (m_lnkf (updateT RU T k)) r
                         - vget (m_lnkeq (updateT RU T k)) r))).
  { unfold backwardRatesOfProgress, backwardRateCoefficients. cbn [fst].
    rewrite (multiplyThirdbodies_at _ conc _ r rx Hl)
      by (rewrite ?multReactions_length, ?vexp_length, ?vsub_length; assumption).
    rewrite (multReactions_rev_prods_at _ conc _ r rx Hl)
      by (rewrite ?vexp_length, ?vsub_length; assumption).
    rewrite Hirr, Fth, vget_exp_vsub by assumption. reflexivity. }
  split; [exact Hb|]. split.
  - unfold netRatesOfProgress, backwardRateCoefficients, forwardRateCoefficients.
    cbn [fst]. rewrite updateT_idem.
    rewrite (multiplyThirdbodies_at _ conc _ r rx Hl)
      by (rewrite ?vsub_length; rewrite ?multReactions_length, ?vexp_length,
            ?vsub_length; congruence).
    rewrite vget_vsub
      by (rewrite ?multReactions_length, ?vexp_length, ?vsub_length; congruence).
    rewrite (multReactions_reactants_at _ conc _ r rx Hl)
      by (rewrite ?vexp_length; assumption).
    rewrite (multReactions_rev_prods_at _ conc _ r rx Hl)
      by (rewrite ?vexp_length, ?vsub_length; assumption).
    rewrite Hirr, Fth, vget_exp_vsub by assumption.
    rewrite vget_vexp by (rewrite Hlen; assumption). reflexivity.
  - intros Htb. rewrite Hb. unfold thirdbody_scale. rewrite Htb. apply exp_pos.
Qed.

(* ================================================================= *)
(** ** Species indices and sums over species *)

Lemma index_from_bounds (names : list string) (name : string) (i0 : Z) :
  (0 <= index_from names name i0)%Z ->
  (i0 <= index_from names name i0 < i0 + Z.of_nat (List.length names))%Z.
Proof.
  revert i0; induction names as [|x t IH]; intros i0; simpl; [lia|].
  destruct (String.eqb x name); [lia|].
  intros H. specialize (IH _ H). lia.
Qed.

Lemma index_from_at (names : list string) (name : string) (i0 : Z) :
  (0 <= i0)%Z -> (0 <= index_from names name i0)%Z ->
  at_index names (Z.to_N (index_from names name i0 - i0)) = Some name.
Proof.
  revert i0; induction names as [|x t IH]; intros i0 H0; simpl; [lia|].
  destruct (String.eqb_spec x name) as [->|Hne].
  - rewrite Z.sub_diag. reflexivity.
  - intros H. pose proof (index_from_bounds t name (i0 + 1) H) as Hb.
    destruct (N.eqb_spec (Z.to_N (index_from t name (i0 + 1) - i0)) 0); [lia|].
    replace (N.pred (Z.to_N (index_from t name (i0 + 1) - i0)))
      with (Z.to_N (index_from t name (i0 + 1) - (i0 + 1))) by lia.
    apply IH; lia.
Qed.

Lemma size_of_int_nonneg (z : Z) : (0 <= z)%Z -> size_of_int z = Z.to_N z.
Proof. intros H. unfold size_of_int. destruct (Z.ltb_spec z 0); [lia|reflexivity]. Qed.

Lemma speciesIndex_valid (th : Thermodynamics) (name : string) :
  (0 <= speciesIndex th name)%Z ->
  (size_of_int (speciesIndex th name) < nSpecies th)%N
  /\ speciesName th (size_of_int (speciesIndex th name)) = name.
Proof.
  intros H. rewrite size_of_int_nonneg by exact H. unfold speciesIndex in *.
  pose proof (index_from_bounds _ _ _ H) as Hb.
  pose proof (index_from_at _ _ 0 (Z.le_refl 0) H) as Ha.
  rewrite Z.sub_0_r in Ha. split.
  - unfold nSpecies. lia.
  - unfold speciesName. now rewrite Ha.
Qed.

Lemma at_index_NoDup {A : Type} (l : list A) (i j : N) (x : A) :
  NoDup l -> at_index l i = Some x -> at_index l j = Some x -> i = j.
Proof.
  intros Hnd. revert i j; induction Hnd as [|y t Hy Hnd IH]; intros i j; simpl;
    [discriminate|].
  destruct (N.eqb_spec i 0), (N.eqb_spec j 0); try lia.
  - intros [= ->] H. exfalso. apply Hy. eapply at_index_In; eauto.
  - intros H [= ->]. exfalso. apply Hy. eapply at_index_In; eauto.
  - intros Hi Hj. specialize (IH _ _ Hi Hj). lia.
Qed.

Lemma Rsum_map_add {A : Type} (a b : A -> R) (l : list A) :
  Rsum (map (fun x => a x + b x) l) = Rsum (map a l) + Rsum (map b l).
Proof. induction l as [|x t IH]; simpl; [lra|]. rewrite IH. lra. Qed.

Lemma Rsum_map_sub {A : Type} (a b : A -> R) (l : list A) :
  Rsum (map (fun x => a x - b x) l) = Rsum (map a l) - Rsum (map b l).
Proof. induction l as [|x t IH]; simpl; [lra|]. rewrite IH. lra. Qed.

Lemma Rsum_map_ext {A : Type} (a b : A -> R) (l : list A) :
  (forall x, In x l -> a x = b x) -> Rsum (map a l) = Rsum (map b l).
Proof.
  induction l as [|x t IH]; simpl; [reflexivity|].
  intros H. rewrite (H x) by auto. rewrite IH; auto.
Qed.

Lemma Rsum_map_zero {A : Type} (a : A -> R) (l : list A) :
  (forall x, In x l -> a x = 0) -> Rsum (map a l) = 0.
Proof.
  induction l as [|x t IH]; simpl; [reflexivity|].
  intros H. rewrite (H x) by auto. rewrite IH; [lra|auto].
Qed.

(** A sum over a loop range that picks the single index [kx]. *)
Lemma Rsum_pick (f : N -> R) (kx : N) (c : nat) (lo : N) :
  Rsum (map (fun k => if (k =? kx)%N then f k else 0) (range_from c lo))
  = if ((lo <=? kx) && (kx <? lo + N.of_nat c))%N then f kx else 0.
Proof.
  revert lo; induction c as [|c IH]; intros lo; simpl range_from; simpl map;
    simpl Rsum.
  - destruct (N.leb_spec lo kx), (N.ltb_spec kx (lo + N.of_nat 0)); simpl;
      try reflexivity; lia.
  - rewrite IH.
    destruct (N.eqb_spec lo kx) as [->|Hne].
    + destruct (N.leb_spec (N.succ kx) kx); [lia|].
      destruct (N.leb_spec kx kx); [|lia].
      destruct (N.ltb_spec kx (kx + N.of_nat (S c))); [|lia]. simpl. lra.
    + destruct (N.leb_spec (N.succ lo) kx), (N.leb_spec lo kx),
        (N.ltb_spec kx (N.succ lo + N.of_nat c)),
        (N.ltb_spec kx (lo + N.of_nat (S c))); simpl; try lra; lia.
Qed.

Lemma Rsum_pick_range (f : N -> R) (kx n : N) :
  (kx < n)%N ->
  Rsum (map (fun k => if (k =? kx)%N then f k else 0) (range 0 n)) = f kx.
Proof.
  intros H. unfold range. rewrite Rsum_pick.
  destruct (N.leb_spec 0 kx); [|lia].
  destruct (N.ltb_spec kx (0 + N.of_nat (N.to_nat (n - 0)))); [reflexivity|lia].
Qed.

Lemma vget_map_range_from (f : N -> R) (c : nat) (lo j : N) :
  (j < N.of_nat c)%N -> vget (map f (range_from c lo)) j = f (lo + j)%N.
Proof.
  revert lo j; induction c as [|c IH]; intros lo j Hj; [lia|].
  simpl. destruct (N.eqb_spec j 0) as [->|Hne].
  - now rewrite N.add_0_r.
  - rewrite IH by lia. f_equal. lia.
Qed.

Lemma vget_map_range (f : N -> R) (n j : N) :
  (j < n)%N -> vget (map f (range 0 n)) j = f j.
Proof. intros H. unfold range. rewrite vget_map_range_from by lia. reflexivity. Qed.

Lemma count_name_cons (name x : string) (l : list string) :
  count_name name (x :: l)
  = ((if String.eqb x name then 1 else 0) + count_name name l)%Z.
Proof.
  unfold count_name. simpl.
  destruct (string_dec x name) as [->|Hne].
  - rewrite String.eqb_refl. lia.
  - destruct (String.eqb_spec x name); [contradiction|lia].
Qed.

(** A sum over the species indices of a side, regrouped by species: each
    species of the mixture contributes its coefficient times its value. *)
Lemma incidence_sum_by_species (th : Thermodynamics) (f : N -> R) (l : list string) :
  NoDup (speciesNames th) ->
  (forall name, In name l -> (0 <= speciesIndex th name)%Z) ->
  Rsum (map (fun name => f (size_of_int (speciesIndex th name))) l)
  = Rsum (map (fun k => IZR (count_name (speciesName th k) l) * f k)
              (range 0 (nSpecies th))).
Proof.
  intros Hnd. induction l as [|x t IH]; intros Hex.
  - simpl. symmetry. apply Rsum_map_zero. intros k _.
    unfold count_name. simpl. lra.
  - cbn [map Rsum fold_right]. fold (Rsum (map (fun name => f (size_of_int (speciesIndex th name))) t)).
    rewrite IH by (intros; apply Hex; now right).
    destruct (speciesIndex_valid th x (Hex x (or_introl eq_refl))) as [Hlt Hname].
    set (kx := size_of_int (speciesIndex th x)) in *.
    rewrite <- (Rsum_pick_range f kx (nSpecies th) Hlt).
    rewrite <- Rsum_map_add. apply Rsum_map_ext. intros k Hk.
    apply In_range in Hk. rewrite count_name_cons, plus_IZR.
    destruct (N.eqb_spec k kx) as [->|Hne].
    + rewrite Hname, String.eqb_refl. lra.
    + destruct (String.eqb_spec x (speciesName th k)) as [E|E]; [|lra].
      exfalso. apply Hne.
      unfold speciesName in E, Hname.
      destruct (at_index (speciesNames th) k) as [s|] eqn:Ek.
      * destruct (at_index (speciesNames th) kx) as [s'|] eqn:Ekx.
        -- subst. eapply at_index_NoDup; eauto.
        -- apply at_index_lt in Hlt. destruct Hlt as [y Hy]. congruence.
      * assert (Hk' : (k < N.of_nat (List.length (speciesNames th)))%N)
          by (unfold nSpecies in Hk; lia).
        apply at_index_lt in Hk'. destruct Hk' as [y Hy]. congruence.
Qed.

(* ================================================================= *)
(** ** What validation establishes *)

Lemma missing_species_nil (th : Thermodynamics) (i : N) (f : string)
    (names : list string) :
  missing_species th i f names = [] <->
  forall name, In name names -> (0 <= speciesIndex th name)%Z.
Proof.
  unfold missing_species. induction names as [|x t IH]; simpl.
  - split; [intros _ name []|reflexivity].
  - destruct (Z.ltb_spec (speciesIndex th x) 0) as [Hlt|Hge]; simpl.
    + split; [discriminate|]. intros H. specialize (H x (or_introl eq_refl)). lia.
    + rewrite IH. split.
      * intros H name [<-|Hin]; auto.
      * intros H name Hin. apply H. now right.
Qed.

Lemma missing_thirdbodies_nil (th : Thermodynamics) (i : N) (f : string)
    (effs : list (string * R)) :
  missing_thirdbodies th i f effs = [] <->
  forall name, In name (map fst effs) -> (0 <= speciesIndex th name)%Z.
Proof.
  unfold missing_thirdbodies. induction effs as [|x t IH]; simpl.
  - split; [intros _ name []|reflexivity].
  - destruct (Z.ltb_spec (speciesIndex th (fst x)) 0) as [Hlt|Hge]; simpl.
    + split; [discriminate|]. intros H. specialize (H _ (or_introl eq_refl)). lia.
    + rewrite IH. split.
      * intros H name [<-|Hin]; auto.
      * intros H name Hin. apply H. now right.
Qed.

(** The lines the first pass writes for one reaction are empty exactly when
    every name it looks up exists. *)
Lemma species_lines_nil (th : Thermodynamics) (i : N) (r : Reaction) :
  species_lines th i r = []
  <-> forall name, In name (names_checked r) -> (0 <= speciesIndex th name)%Z.
Proof.
  unfold species_lines, names_checked. split.
  - intros H. apply app_eq_nil in H as [H1 H2]. apply app_eq_nil in H2 as [H2 H3].
    rewrite missing_species_nil in H1, H2.
    intros name Hin. rewrite !in_app_iff in Hin.
    destruct Hin as [Hin|[Hin|Hin]]; auto.
    destruct (isThirdbody r); [|destruct Hin].
    rewrite missing_thirdbodies_nil in H3. auto.
  - intros H.
    assert (H1 : missing_species th i (formula r) (reactants r) = []).
    { apply missing_species_nil. intros; apply H. rewrite in_app_iff; auto. }
    assert (H2 : missing_species th i (formula r) (products r) = []).
    { apply missing_species_nil. intros; apply H. rewrite !in_app_iff; auto. }
    rewrite H1, H2. simpl. destruct (isThirdbody r); [|reflexivity].
    apply missing_thirdbodies_nil. intros; apply H. rewrite !in_app_iff; auto.
Qed.

Lemma checkSpecies_nil (k : Kinetics) :
  m_num_rxns k = N.of_nat (List.length (m_reactions k)) ->
  (checkSpecies k = Some [] <->
   forall r name, In r (m_reactions k) -> In name (names_checked r) ->
                  (0 <= speciesIndex (m_thermo k) name)%Z).
Proof.
  intros Hn. unfold checkSpecies. rewrite for_each_nil. split.
  - intros H r name Hr Hname.
    destruct (In_at_index _ _ Hr) as [i Hi].
    pose proof (at_index_Some_lt _ _ _ Hi) as Hlt.
    specialize (H i). rewrite Hi in H.
    assert (Hin : In i (range 0 (m_num_rxns k))) by (apply In_range; lia).
    specialize (H Hin). injection H as H.
    rewrite species_lines_nil in H. auto.
  - intros H i Hi. apply In_range in Hi.
    destruct (at_index_lt (m_reactions k) i) as [r Hr]; [lia|].
    rewrite Hr. f_equal. apply species_lines_nil.
    intros name Hname. apply (H r); [eapply at_index_In; eauto|assumption].
Qed.

Lemma checkSpecies_defined (k : Kinetics) :
  m_num_rxns k = N.of_nat (List.length (m_reactions k)) ->
  exists d, checkSpecies k = Some d.
Proof.
  intros Hn. unfold checkSpecies. apply for_each_defined.
  intros i Hi. apply In_range in Hi.
  destruct (at_index_lt (m_reactions k) i) as [r Hr]; [lia|].
  rewrite Hr. discriminate.
Qed.

Lemma names_checked_species (th : Thermodynamics) (r : Reaction) :
  (forall name, In name (names_checked r) -> (0 <= speciesIndex th name)%Z) ->
  species_exist th r.
Proof.
  intros H name Hin. apply H. unfold names_checked.
  rewrite in_app_iff in Hin. rewrite !in_app_iff. tauto.
Qed.

(* ================================================================= *)
(** ** The subscripts of the conservation pass *)

Lemma index_from_negative (names : list string) (name : string) (i0 : Z) :
  (0 <= i0)%Z -> (index_from names name i0 < 0)%Z ->
  index_from names name i0 = (-1)%Z.
Proof.
  revert i0; induction names as [|x t IH]; intros i0 H0 H; [reflexivity|].
  cbn [index_from] in *. destruct (String.eqb x name); [lia|].
  apply IH; [lia|exact H].
Qed.

(** A name the mixture does not have is registered under the largest
    [size_t]. *)
Lemma missing_species_index (th : Thermodynamics) (name : string) :
  (speciesIndex th name < 0)%Z ->
  size_of_int (speciesIndex th name) = 18446744073709551615%N.
Proof.
  intros H. unfold speciesIndex in *.
  rewrite (index_from_negative _ _ 0 (Z.le_refl 0) H). reflexivity.
Qed.

Lemma SM_in_range_entries (f : Reaction -> option (list N)) (rxns : list Reaction)
    (s r : RealVector) :
  List.length r = List.length rxns ->
  (forall rx sps sp, In rx rxns -> f rx = Some sps -> In sp sps ->
                     (sp < N.of_nat (List.length s))%N) ->
  SM_in_range (entries f 0 rxns) s r = true.
Proof.
  intros Hr H. unfold SM_in_range. apply forallb_forall. intros [j sps] He.
  apply entries_at_0 in He. destruct He as (rx & Hat & Hf). cbn [fst snd].
  apply andb_true_intro. split.
  - apply N.ltb_lt. apply at_index_Some_lt in Hat. lia.
  - apply forallb_forall. intros sp Hsp. apply N.ltb_lt.
    apply (H rx sps sp); [eapply at_index_In; eauto|exact Hf|exact Hsp].
Qed.

Lemma SM_in_range_In (m : StoichiometryManager) (s r : RealVector)
    (j : N) (sps : list N) (sp : N) :
  SM_in_range m s r = true -> In (j, sps) m -> In sp sps ->
  (sp < N.of_nat (List.length s))%N.
Proof.
  unfold SM_in_range. intros H Hin Hsp.
  pose proof (proj1 (forallb_forall _ _) H _ Hin) as He. cbn [fst snd] in He.
  apply andb_prop in He. destruct He as [_ He].
  apply N.ltb_lt. exact (proj1 (forallb_forall _ _) He _ Hsp).
Qed.

(** When the species of every reaction exist, [getReactionDelta] stays
    inside a species vector of [nSpecies] entries and a reaction vector of
    [m_num_rxns] entries. *)
Lemma getReactionDelta_inside (k : Kinetics) (s r : RealVector) :
  loaded k ->
  (forall rx, In rx (m_reactions k) -> species_exist (m_thermo k) rx) ->
  N.of_nat (List.length s) = nSpecies (m_thermo k) ->
  List.length r = List.length (m_reactions k) ->
  getReactionDelta_in_range k s r = true.
Proof.
  intros Hk Hex Hs Hr. unfold getReactionDelta_in_range.
  rewrite (ld_reactants k Hk), (ld_rev_prods k Hk), (ld_irr_prods k Hk).
  assert (Hside : forall rx (side : list string) sp,
             In rx (m_reactions k) ->
             (forall name, In name side -> In name (reactants rx ++ products rx)) ->
             In sp (speciesIndices (m_thermo k) side) ->
             (sp < N.of_nat (List.length s))%N).
  { intros rx side sp Hrx Hside Hsp. apply in_map_iff in Hsp.
    destruct Hsp as (name & <- & Hname). rewrite Hs.
    apply speciesIndex_valid. apply (Hex rx Hrx). auto. }
  rewrite !SM_in_range_entries; try exact Hr; [reflexivity| | |].
  - intros rx sps sp Hrx Hf Hsp.
    destruct (isReversible rx); [discriminate|]. injection Hf as <-.
    apply (Hside rx (products rx) sp Hrx); [|exact Hsp].
    intros; rewrite in_app_iff; auto.
  - intros rx sps sp Hrx Hf Hsp.
    destruct (isReversible rx); [|discriminate]. injection Hf as <-.
    apply (Hside rx (products rx) sp Hrx); [|exact Hsp].
    intros; rewrite in_app_iff; auto.
  - intros rx sps sp Hrx Hf Hsp. injection Hf as <-.
    apply (Hside rx (reactants rx) sp Hrx); [|exact Hsp].
    intros; rewrite in_app_iff; auto.
Qed.

(** When a reactant or a product of some reaction is missing from the
    mixture, [getReactionDelta] reads the species vector at [2^64 - 1]. *)
Lemma getReactionDelta_outside (k : Kinetics) (s r : RealVector)
    (rx : Reaction) (name : string) :
  loaded k -> In rx (m_reactions k) -> In name (reactants rx ++ products rx) ->
  (speciesIndex (m_thermo k) name < 0)%Z ->
  (N.of_nat (List.length s) < 2 ^ 64)%N ->
  getReactionDelta_in_range k s r = false.
Proof.
  intros Hk Hrx Hname Hlt Hs.
  destruct (getReactionDelta_in_range k s r) eqn:E; [exfalso|reflexivity].
  unfold getReactionDelta_in_range in E.
  apply andb_prop in E. destruct E as [E E3].
  apply andb_prop in E. destruct E as [E1 E2].
  destruct (In_at_index _ _ Hrx) as [j Hj].
  pose proof (missing_species_index _ _ Hlt) as Hidx.
  assert (Hin : forall side, In name side ->
             In 18446744073709551615%N (speciesIndices (m_thermo k) side)).
  { intros side Hside. rewrite <- Hidx. unfold speciesIndices.
    apply (in_map (fun n => size_of_int (speciesIndex (m_thermo k) n))). exact Hside. }
  assert (Hbig : forall m sps,
             SM_in_range m s r = true -> In (j, sps) m ->
             In 18446744073709551615%N sps -> False).
  { intros m sps Hm Hjm Hsp. pose proof (SM_in_range_In m s r j sps _ Hm Hjm Hsp).
    change (2 ^ 64)%N with 18446744073709551616%N in Hs. lia. }
  apply in_app_iff in Hname. destruct Hname as [Hname|Hname].
  - refine (Hbig (m_reactants k) (reactant_indices (m_thermo k) rx) E1 _ (Hin _ Hname)).
    rewrite (ld_reactants k Hk). apply entries_at_0. exists rx. auto.
  - destruct (isReversible rx) eqn:Erev.
    + refine (Hbig (m_rev_prods k) (product_indices (m_thermo k) rx) E2 _ (Hin _ Hname)).
      rewrite (ld_rev_prods k Hk). apply entries_at_0. exists rx. now rewrite Erev.
    + refine (Hbig (m_irr_prods k) (product_indices (m_thermo k) rx) E3 _ (Hin _ Hname)).
      rewrite (ld_irr_prods k Hk). apply entries_at_0. exists rx. now rewrite Erev.
Qed.

Lemma element_column_length (th : Thermodynamics) (e : N) :
  N.of_nat (List.length (element_column th e)) = nSpecies th.
Proof. unfold element_column. rewrite length_map, range_length. lia. Qed.

Lemma for_each_ext {A D : Type} (l : list A) (f g : A -> option (list D)) :
  (forall x, In x l -> f x = g x) -> for_each l f = for_each l g.
Proof.
  induction l as [|x t IH]; intros H; [reflexivity|]. cbn [for_each].
  rewrite (H x (or_introl eq_refl)), IH by (intros; apply H; now right).
  reflexivity.
Qed.

(** The third pass on a mechanism whose reactants and products exist: no
    subscript leaves its vector. *)
Lemma checkConservation_inside (k : Kinetics) :
  loaded k ->
  (forall rx, In rx (m_reactions k) -> species_exist (m_thermo k) rx) ->
  checkConservation k
  = for_each (range 0 (nElements (m_thermo k))) (fun i =>
      for_each (range 0 (m_num_rxns k)) (fun j =>
        if Req_dec_T
             (vget (getReactionDelta k (element_column (m_thermo k) i)
                      (vzero (m_num_rxns k))) j) 0
        then Some []
        else match at_index (m_reactions k) j with
             | None => None
             | Some r =>
                 Some [NotConserved (N.succ j) (formula r)
                         (elementName (m_thermo k) i)]
             end)).
Proof.
  intros Hk Hex. unfold checkConservation. apply for_each_ext. intros e _.
  cbv zeta. rewrite getReactionDelta_inside; [reflexivity|exact Hk|exact Hex| |].
  - apply element_column_length.
  - rewrite vzero_length, (ld_num k Hk). apply Nat2N.id.
Qed.

(** The third pass on a mechanism with a missing reactant or product, over
    a mixture with at least one element: it reads outside [stoichi]. *)
Lemma checkConservation_outside (k : Kinetics) (rx : Reaction) (name : string) :
  loaded k -> In rx (m_reactions k) -> In name (reactants rx ++ products rx) ->
  (speciesIndex (m_thermo k) name < 0)%Z ->
  (nSpecies (m_thermo k) < 2 ^ 64)%N -> (0 < nElements (m_thermo k))%N ->
  checkConservation k = None.
Proof.
  intros Hk Hrx Hname Hlt Hns Hne. unfold checkConservation.
  apply (for_each_None _ _ 0%N); [apply In_range; lia|]. cbv zeta.
  rewrite (getReactionDelta_outside k _ _ rx name Hk Hrx Hname Hlt); [reflexivity|].
  now rewrite element_column_length.
Qed.

(** The residual the third pass computes for a reaction whose species
    exist is zero exactly when the pass writes no line for it. *)
Lemma conservation_mass_at (k : Kinetics) (e j : N) (rx : Reaction) :
  loaded k -> at_index (m_reactions k) j = Some rx ->
  vget (getReactionDelta k (element_column (m_thermo k) e) (vzero (m_num_rxns k))) j
  = delta_of (m_thermo k) (element_column (m_thermo k) e) rx.
Proof.
  intros Hk Hj. rewrite getReactionDelta_loaded.
  - now apply vget_map_at.
  - exact Hk.
  - rewrite (ld_num k Hk). vec_length.
Qed.

Lemma checkConservation_nil (k : Kinetics) :
  loaded k ->
  (forall rx, In rx (m_reactions k) -> species_exist (m_thermo k) rx) ->
  (checkConservation k = Some [] <->
   forall e r, (e < nElements (m_thermo k))%N -> In r (m_reactions k) ->
               delta_of (m_thermo k) (element_column (m_thermo k) e) r = 0).
Proof.
  intros Hk Hex. pose proof (ld_num k Hk) as Hn.
  rewrite (checkConservation_inside k Hk Hex). rewrite for_each_nil. split.
  - intros H e r He Hr.
    destruct (In_at_index _ _ Hr) as [j Hj].
    pose proof (at_index_Some_lt _ _ _ Hj) as Hlt.
    specialize (H e (proj2 (In_range _ _ _) (conj (N.le_0_l e) He))).
    rewrite for_each_nil in H.
    specialize (H j). rewrite (conservation_mass_at k e j r Hk Hj), Hj in H.
    assert (Hin : In j (range 0 (m_num_rxns k))) by (apply In_range; lia).
    specialize (H Hin). destruct (Req_dec_T _ _); [assumption|discriminate].
  - intros H e He. apply In_range in He. apply for_each_nil.
    intros j Hj. apply In_range in Hj.
    destruct (at_index_lt (m_reactions k) j) as [r Hr]; [lia|].
    rewrite (conservation_mass_at k e j r Hk Hr).
    destruct (Req_dec_T _ _) as [_|Hne]; [reflexivity|].
    exfalso. apply Hne. apply H; [lia|eapply at_index_In; eauto].
Qed.

Lemma checkConservation_defined (k : Kinetics) :
  loaded k ->
  (forall rx, In rx (m_reactions k) -> species_exist (m_thermo k) rx) ->
  exists d, checkConservation k = Some d.
Proof.
  intros Hk Hex. pose proof (ld_num k Hk) as Hn.
  rewrite (checkConservation_inside k Hk Hex). apply for_each_defined.
  intros e _ H.
  match type of H with
  | for_each ?l ?body = None =>
      destruct (for_each_defined l body) as [d Hd]; [|congruence]
  end.
  intros j Hj. apply In_range in Hj.
  destruct (Req_dec_T _ _); [discriminate|].
  destruct (at_index_lt (m_reactions k) j) as [r Hr]; [lia|].
  rewrite Hr. discriminate.
Qed.

(* ================================================================= *)
(** ** The duplicate pass and its subscripts *)

Lemma size_sub_1 (n : N) : (1 <= n)%N -> size_sub n 1%N = (n - 1)%N.
Proof.
  intros H. unfold size_sub, size_of_int.
  destruct (Z.ltb_spec (Z.of_N n - Z.of_N 1) 0); lia.
Qed.

Lemma size_sub_0_1 : size_sub 0%N 1%N = 18446744073709551615%N.
Proof. reflexivity. Qed.

Lemma checkDuplicates_defined (k : Kinetics) :
  m_num_rxns k = N.of_nat (List.length (m_reactions k)) ->
  (1 <= m_num_rxns k)%N ->
  exists d, checkDuplicates k = Some d.
Proof.
  intros Hn H1. unfold checkDuplicates. rewrite size_sub_1 by exact H1.
  apply for_each_defined. intros i Hi. apply In_range in Hi.
  destruct (at_index_lt (m_reactions k) i) as [ri Hri]; [lia|].
  rewrite Hri. intros H.
  match type of H with
  | for_each ?l ?body = None =>
      destruct (for_each_defined l body) as [d Hd]; [|congruence]
  end.
  intros j Hj. apply In_range in Hj.
  destruct (at_index_lt (m_reactions k) j) as [rj Hrj]; [lia|].
  rewrite Hrj. destruct (vec_eqb _ _); discriminate.
Qed.

(** The lines of the duplicate pass are exactly the pairs that compare
    equal. *)
Lemma checkDuplicates_In (k : Kinetics) (d : list Diagnostic) (x : Diagnostic) :
  m_num_rxns k = N.of_nat (List.length (m_reactions k)) ->
  checkDuplicates k = Some d ->
  (In x d <->
   exists i j ri rj,
     duplicate_pair (m_thermo k) (m_reactions k) i j ri rj
     /\ x = Identical (N.succ i) (formula ri) (N.succ j) (formula rj)).
Proof.
  intros Hn Hd.
  assert (H1 : (1 <= m_num_rxns k)%N).
  { destruct (N.eq_dec (m_num_rxns k) 0) as [E|E]; [|lia].
    exfalso. unfold checkDuplicates in Hd. rewrite E, size_sub_0_1 in Hd.
    rewrite (for_each_None _ _ 0%N) in Hd; [discriminate|apply In_range; lia|].
    rewrite at_index_None by lia. reflexivity. }
  unfold checkDuplicates in Hd. rewrite size_sub_1 in Hd by exact H1.
  rewrite (for_each_In _ _ d x Hd). split.
  - intros (i & di & Hi & Hbody & Hx). apply In_range in Hi.
    destruct (at_index (m_reactions k) i) as [ri|] eqn:Hri; [|discriminate].
    rewrite (for_each_In _ _ di x Hbody) in Hx.
    destruct Hx as (j & dj & Hj & Hbj & Hx). apply In_range in Hj.
    destruct (at_index (m_reactions k) j) as [rj|] eqn:Hrj; [|discriminate].
    destruct (vec_eqb (normalize (net_stoichiometry (m_thermo k) ri))
                (normalize (net_stoichiometry (m_thermo k) rj))) eqn:Heq;
      injection Hbj as <-; [|destruct Hx].
    destruct Hx as [<-|[]].
    exists i, j, ri, rj. split; [|reflexivity].
    repeat split; try assumption. lia.
  - intros (i & j & ri & rj & (Hij & Hri & Hrj & Heq) & ->).
    pose proof (at_index_Some_lt _ _ _ Hrj) as Hjn.
    assert (Hin : forall j', In j' (range (i + 1)%N (m_num_rxns k)) ->
              (fun j' => match at_index (m_reactions k) j' with
                         | Some rj' =>
                             if vec_eqb (normalize (net_stoichiometry (m_thermo k) ri))
                                  (normalize (net_stoichiometry (m_thermo k) rj'))
                             then Some [Identical (N.succ i) (formula ri)
                                          (N.succ j') (formula rj')]
                             else Some []
                         | None => None
                         end) j' <> None).
    { intros j' Hj'. apply In_range in Hj'. cbv beta.
      destruct (at_index_lt (m_reactions k) j') as [rj' Hrj']; [lia|].
      rewrite Hrj'.
      match goal with |- context [vec_eqb ?a ?b] => destruct (vec_eqb a b) end;
        discriminate. }
    apply for_each_defined in Hin. destruct Hin as [di Hdi].
    exists i, di. split; [apply In_range; lia|]. rewrite Hri. split; [exact Hdi|].
    rewrite (for_each_In _ _ di _ Hdi).
    exists j, [Identical (N.succ i) (formula ri) (N.succ j) (formula rj)].
    split; [apply In_range; lia|]. rewrite Hrj, Heq. split; [reflexivity|now left].
Qed.

Lemma checkDuplicates_empty (k : Kinetics) :
  m_reactions k = [] -> m_num_rxns k = 0%N -> checkDuplicates k = None.
Proof.
  intros Hr Hn. unfold checkDuplicates. rewrite Hn, size_sub_0_1.
  apply (for_each_None _ _ 0%N).
  - apply In_range. lia.
  - rewrite Hr. reflexivity.
Qed.

Lemma validate_defined (k : Kinetics) :
  loaded k -> (1 <= m_num_rxns k)%N ->
  exists d1 d2,
    checkSpecies k = Some d1 /\ checkDuplicates k = Some d2
    /\ ((forall rx, In rx (m_reactions k) -> species_exist (m_thermo k) rx) ->
        exists d3, checkConservation k = Some d3
                   /\ validate k = Some (d1 ++ d2 ++ d3)).
Proof.
  intros Hk H1. pose proof (ld_num k Hk) as Hn.
  destruct (checkSpecies_defined k Hn) as [d1 E1].
  destruct (checkDuplicates_defined k Hn H1) as [d2 E2].
  exists d1, d2. repeat (split; [assumption|]). intros Hex.
  destruct (checkConservation_defined k Hk Hex) as [d3 E3].
  exists d3. unfold validate. rewrite E1, E2, E3. auto.
Qed.

Lemma validate_empty (k : Kinetics) :
  m_reactions k = [] -> m_num_rxns k = 0%N -> validate k = None.
Proof.
  intros Hr Hn. unfold validate.
  destruct (checkSpecies k); [|reflexivity].
  now rewrite (checkDuplicates_empty k Hr Hn).
Qed.

(** The constructor on a mechanism without reactions: the duplicate pass
    leaves the reaction list. *)
Lemma empty_mechanism_undefined (th : Thermodynamics) (T_last0 : R) :
  Kinetics_ctor th T_last0 [] = Undefined.
Proof.
  unfold Kinetics_ctor, closeReactions.
  now rewrite (validate_empty (addReactions [] (Kinetics_new th T_last0))).
Qed.

(* ================================================================= *)
(** ** The lines each pass writes *)

Lemma missing_species_In (th : Thermodynamics) (i : N) (f : string)
    (names : list string) (x : Diagnostic) :
  In x (missing_species th i f names) <->
  exists name, In name names /\ (speciesIndex th name < 0)%Z
               /\ x = SpeciesMissing i f name.
Proof.
  unfold missing_species. rewrite in_flat_map. split.
  - intros (name & Hin & Hx). exists name. split; [exact Hin|].
    destruct (Z.ltb_spec (speciesIndex th name) 0); [|destruct Hx].
    destruct Hx as [<-|[]]. auto.
  - intros (name & Hin & Hlt & ->). exists name. split; [exact Hin|].
    destruct (Z.ltb_spec (speciesIndex th name) 0); [now left|lia].
Qed.

Lemma missing_thirdbodies_In (th : Thermodynamics) (i : N) (f : string)
    (effs : list (string * R)) (x : Diagnostic) :
  In x (missing_thirdbodies th i f effs) <->
  exists name, In name (map fst effs) /\ (speciesIndex th name < 0)%Z
               /\ x = ThirdbodyMissing i f name.
Proof.
  unfold missing_thirdbodies. rewrite in_flat_map. split.
  - intros (p & Hin & Hx). exists (fst p). split; [now apply in_map|].
    destruct (Z.ltb_spec (speciesIndex th (fst p)) 0); [|destruct Hx].
    destruct Hx as [<-|[]]. auto.
  - intros (name & Hin & Hlt & ->). apply in_map_iff in Hin.
    destruct Hin as (p & <- & Hp). exists p. split; [exact Hp|].
    destruct (Z.ltb_spec (speciesIndex th (fst p)) 0); [now left|lia].
Qed.

Lemma checkSpecies_In (k : Kinetics) (d : list Diagnostic) (x : Diagnostic) :
  m_num_rxns k = N.of_nat (List.length (m_reactions k)) ->
  checkSpecies k = Some d ->
  (In x d <->
   exists i r, at_index (m_reactions k) i = Some r
               /\ In x (species_lines (m_thermo k) (N.succ i) r)).
Proof.
  intros Hn Hd. unfold checkSpecies in Hd. rewrite (for_each_In _ _ d x Hd). split.
  - intros (i & di & Hi & Hbody & Hx).
    destruct (at_index (m_reactions k) i) as [r|] eqn:Hr; [|discriminate].
    injection Hbody as <-. exists i, r. auto.
  - intros (i & r & Hr & Hx). exists i, (species_lines (m_thermo k) (N.succ i) r).
    split; [|split].
    + apply In_range. apply at_index_Some_lt in Hr. lia.
    + now rewrite Hr.
    + exact Hx.
Qed.

Lemma checkConservation_In (k : Kinetics) (d : list Diagnostic) (x : Diagnostic) :
  loaded k ->
  (forall rx, In rx (m_reactions k) -> species_exist (m_thermo k) rx) ->
  checkConservation k = Some d ->
  (In x d <->
   exists e j r,
     (e < nElements (m_thermo k))%N /\ at_index (m_reactions k) j = Some r
     /\ delta_of (m_thermo k) (element_column (m_thermo k) e) r <> 0
     /\ x = NotConserved (N.succ j) (formula r) (elementName (m_thermo k) e)).
Proof.
  intros Hk Hex Hd. pose proof (ld_num k Hk) as Hn.
  rewrite (checkConservation_inside k Hk Hex) in Hd.
  rewrite (for_each_In _ _ d x Hd). split.
  - intros (e & de & He & Hbody & Hx). apply In_range in He.
    rewrite (for_each_In _ _ de x Hbody) in Hx.
    destruct Hx as (j & dj & Hj & Hbj & Hx). apply In_range in Hj.
    destruct (at_index_lt (m_reactions k) j) as [r Hr]; [lia|].
    rewrite (conservation_mass_at k e j r Hk Hr), Hr in Hbj.
    destruct (Req_dec_T _ _) as [E|E]; injection Hbj as <-; [destruct Hx|].
    destruct Hx as [<-|[]]. exists e, j, r. repeat split; try assumption. lia.
  - intros (e & j & r & He & Hr & Hne & ->).
    pose proof (at_index_Some_lt _ _ _ Hr) as Hj.
    assert (Hin : forall j', In j' (range 0 (m_num_rxns k)) ->
              (fun j' =>
                 if Req_dec_T
                      (vget (getReactionDelta k (element_column (m_thermo k) e)
                               (vzero (m_num_rxns k))) j') 0
                 then Some []
                 else match at_index (m_reactions k) j' with
                      | Some r' =>
                          Some [NotConserved (N.succ j') (formula r')
                                  (elementName (m_thermo k) e)]
                      | None => None
                      end) j' <> None).
    { intros j' Hj'. apply In_range in Hj'. cbv beta.
      destruct (Req_dec_T _ _); [discriminate|].
      destruct (at_index_lt (m_reactions k) j') as [r' Hr']; [lia|].
      rewrite Hr'. discriminate. }
    apply for_each_defined in Hin. destruct Hin as [de Hde].
    exists e, de. split; [apply In_range; lia|]. split; [exact Hde|].
    rewrite (for_each_In _ _ de _ Hde).
    exists j, [NotConserved (N.succ j) (formula r) (elementName (m_thermo k) e)].
    split; [apply In_range; lia|].
    rewrite (conservation_mass_at k e j r Hk Hr), Hr.
    destruct (Req_dec_T _ _); [contradiction|]. split; [reflexivity|now left].
Qed.

Lemma closeReactions_validated (k : Kinetics) (d : list Diagnostic) :
  validate k = Some d ->
  closeReactions true k = match d with [] => Sealed (seal k) | _ => ExitFailure d end.
Proof. intros H. unfold closeReactions. rewrite H. reflexivity. Qed.

Lemma closeReactions_reports (k : Kinetics) (d : list Diagnostic) (x : Diagnostic) :
  validate k = Some d -> In x d -> closeReactions true k = ExitFailure d.
Proof.
  intros H Hx. rewrite (closeReactions_validated k d H).
  destruct d; [destruct Hx|reflexivity].
Qed.

(* ================================================================= *)
(** ** Subscripts of the duplicate pass (C10) *)

Lemma duplicate_subscripts_In (n x : N) :
  In x (duplicate_subscripts n) <->
  exists i, (i < size_sub n 1%N)%N /\ (x = i \/ (i + 1 <= x < n)%N).
Proof.
  unfold duplicate_subscripts. rewrite in_flat_map. split.
  - intros (i & Hi & Hx). apply In_range in Hi. exists i. split; [lia|].
    destruct Hx as [<-|Hx]; [now left|]. apply In_range in Hx. now right.
  - intros (i & Hi & Hx). exists i. split; [apply In_range; lia|].
    destruct Hx as [->|Hx]; [now left|]. right. now apply In_range.
Qed.

(** C10: when the mechanism has at least one reaction, every subscript of
    the reaction list that the duplicate pass evaluates is below the number
    of reactions, and the pass runs without leaving the list.  The
    precondition cannot be dropped: for the empty mechanism the bound
    [m_num_rxns-1] is [2^64-1] in [size_t] arithmetic, the pass subscripts
    the empty list at 0, and its behaviour is undefined. *)
Theorem duplicate_pass_subscripts (th : Thermodynamics) (T_last0 : R)
    (rxns : list Reaction) :
  rxns <> [] ->
  let k := addReactions rxns (Kinetics_new th T_last0) in
  Forall (fun i => (0 <= i < m_num_rxns k)%N) (duplicate_subscripts (m_num_rxns k))
  /\ (exists d, checkDuplicates k = Some d)
  /\ (let k0 := Kinetics_new th T_last0 in
      size_sub (m_num_rxns k0) 1%N = 18446744073709551615%N
      /\ In 0%N (duplicate_subscripts (m_num_rxns k0))
      /\ checkDuplicates k0 = None).
Proof.
  intros Hne k.
  destruct (addReactions_new th T_last0 rxns) as (Hl & Hr & _ & _ & Hn).
  fold k in Hl, Hr, Hn.
  assert (H1 : (1 <= m_num_rxns k)%N).
  { rewrite Hn. destruct rxns; [contradiction|simpl; lia]. }
  split; [|split].
  - apply Forall_forall. intros x Hx. apply duplicate_subscripts_In in Hx.
    destruct Hx as (i & Hi & Hx). rewrite size_sub_1 in Hi by exact H1. lia.
  - apply checkDuplicates_defined; [|exact H1]. now rewrite Hn, Hr.
  - cbv zeta. cbn [Kinetics_new m_num_rxns]. split; [reflexivity|]. split.
    + apply duplicate_subscripts_In. exists 0%N. rewrite size_sub_0_1.
      split; [lia|now left].
    + now apply checkDuplicates_empty.
Qed.

(* ================================================================= *)
(** ** Validation reports (C6, C5) *)

Lemma validate_nil (k : Kinetics) :
  validate k = Some [] ->
  checkSpecies k = Some [] /\ checkDuplicates k = Some []
  /\ checkConservation k = Some [].
Proof.
  unfold validate.
  destruct (checkSpecies k) as [d1|]; [|discriminate].
  destruct (checkDuplicates k) as [d2|]; [|discriminate].
  destruct (checkConservation k) as [d3|]; [|discriminate].
  intros [= H]. apply app_eq_nil in H as [-> H]. apply app_eq_nil in H as [-> ->].
  auto.
Qed.

Lemma closeReactions_true_Sealed (k k' : Kinetics) :
  closeReactions true k = Sealed k' -> validate k = Some [].
Proof.
  unfold closeReactions. destruct (validate k) as [[|d ds]|]; try discriminate.
  reflexivity.
Qed.

(** What the three passes write on a mechanism with at least one reaction:
    the species pass and the duplicate pass always return, with a line for
    each missing name and for each pair that compares equal; the
    conservation pass returns, with a line for each non-zero residual, when
    the reactants and products of every reaction exist, and reads outside
    the species vector when one of them is missing. *)
Lemma ctor_report (th : Thermodynamics) (T_last0 : R) (rxns : list Reaction) :
  rxns <> [] ->
  let k := addReactions rxns (Kinetics_new th T_last0) in
  exists d1 d2,
    checkSpecies k = Some d1 /\ checkDuplicates k = Some d2
    /\ (forall x, In x d1 <->
          exists i r, at_index rxns i = Some r
                      /\ In x (species_lines th (N.succ i) r))
    /\ (forall x, In x d2 <->
          exists i j ri rj,
            duplicate_pair th rxns i j ri rj
            /\ x = Identical (N.succ i) (formula ri) (N.succ j) (formula rj))
    /\ ((forall rx, In rx rxns -> species_exist th rx) ->
        exists d3,
          checkConservation k = Some d3
          /\ validate k = Some (d1 ++ d2 ++ d3)
          /\ (forall x, In x d3 <->
                exists e j r,
                  (e < nElements th)%N /\ at_index rxns j = Some r
                  /\ delta_of th (element_column th e) r <> 0
                  /\ x = NotConserved (N.succ j) (formula r) (elementName th e)))
    /\ ((exists rx name, In rx rxns /\ In name (reactants rx ++ products rx)
                         /\ (speciesIndex th name < 0)%Z) ->
        (nSpecies th < 2 ^ 64)%N -> (0 < nElements th)%N ->
        checkConservation k = None /\ validate k = None).
Proof.
  intros Hne k.
  destruct (addReactions_new th T_last0 rxns) as (Hl & Hr & Ht & _ & Hn).
  fold k in Hl, Hr, Ht, Hn.
  assert (H1 : (1 <= m_num_rxns k)%N).
  { rewrite Hn. destruct rxns; [contradiction|simpl; lia]. }
  destruct (validate_defined k Hl H1) as (d1 & d2 & E1 & E2 & E3).
  exists d1, d2. repeat (split; [assumption|]).
  split; [|split; [|split]].
  - intros x. rewrite (checkSpecies_In k d1 x (ld_num k Hl) E1), Hr, Ht. reflexivity.
  - intros x. rewrite (checkDuplicates_In k d2 x (ld_num k Hl) E2), Hr, Ht.
    reflexivity.
  - intros Hex. rewrite <- Hr, <- Ht in Hex.
    destruct (E3 Hex) as (d3 & Ed3 & Ev). exists d3. repeat (split; [assumption|]).
    intros x. rewrite (checkConservation_In k d3 x Hl Hex Ed3), Hr, Ht. reflexivity.
  - intros (rx & name & Hrx & Hname & Hlt) Hns Hel.
    assert (E : checkConservation k = None).
    { apply (checkConservation_outside k rx name Hl); rewrite ?Hr, ?Ht; assumption. }
    split; [exact E|]. unfold validate. now rewrite E1, E2, E.
Qed.

(** A line of the first or the second pass keeps the constructor from
    sealing the engine. *)
Lemma line_not_sealed (k : Kinetics) (d1 d2 : list Diagnostic) (x : Diagnostic) :
  checkSpecies k = Some d1 -> checkDuplicates k = Some d2 -> In x (d1 ++ d2) ->
  forall k', closeReactions true k <> Sealed k'.
Proof.
  intros E1 E2 Hx k' H. apply closeReactions_true_Sealed, validate_nil in H.
  destruct H as (H1 & H2 & _). rewrite E1 in H1. rewrite E2 in H2.
  injection H1 as ->. injection H2 as ->. destruct Hx.
Qed.

(** C6: when two reactions [i < j] of the mechanism have normalized
    net-stoichiometry vectors that compare equal under [==], whatever the
    vector class computes, the duplicate pass writes the line that names
    both reactions by their numbers [i+1] and [j+1] and their formulas,
    and the constructor does not seal the engine.  When the reactants and
    products of every reaction exist in the mixture (the incidence
    invariant, without which the conservation pass reads outside the
    species vector), the constructor ends in the failure exit and the line
    is among those written to [cerr]. *)
Theorem duplicate_reactions_reported (th : Thermodynamics) (T_last0 : R)
    (rxns : list Reaction) (i j : N) (ri rj : Reaction) :
  duplicate_pair th rxns i j ri rj ->
  let k := addReactions rxns (Kinetics_new th T_last0) in
  let line := Identical (N.succ i) (formula ri) (N.succ j) (formula rj) in
  (exists d2, checkDuplicates k = Some d2 /\ In line d2)
  /\ (forall k', Kinetics_ctor th T_last0 rxns <> Sealed k')
  /\ ((forall rx, In rx rxns -> species_exist th rx) ->
      exists cerr, Kinetics_ctor th T_last0 rxns = ExitFailure cerr /\ In line cerr).
Proof.
  intros Hdup k line.
  assert (Hne : rxns <> []).
  { destruct Hdup as (_ & Hi & _). destruct rxns; [discriminate|discriminate]. }
  destruct (ctor_report th T_last0 rxns Hne)
    as (d1 & d2 & E1 & E2 & _ & Hd2 & Hin3 & _).
  fold k in E1, E2, Hin3.
  assert (Hin : In line d2).
  { apply Hd2. exists i, j, ri, rj. auto. }
  split; [exists d2; auto|]. split.
  - apply (line_not_sealed k d1 d2 line E1 E2). rewrite in_app_iff. auto.
  - intros Hex. destruct (Hin3 Hex) as (d3 & _ & Ev & _).
    exists (d1 ++ d2 ++ d3).
    assert (Hin' : In line (d1 ++ d2 ++ d3)) by (rewrite !in_app_iff; auto).
    split; [|exact Hin']. exact (closeReactions_reports k _ _ Ev Hin').
Qed.

(** X27, what validation reports: for a mechanism with at least one
    reaction, the species pass and the duplicate pass run over the whole
    mechanism, whatever they find: every reactant, product and third-body
    species that is missing from the mixture has its line, and every pair
    of reactions that compare equal has its line.  When the reactants and
    products of every reaction exist, the conservation pass runs over
    every element and reaction as well, every non-zero computed residual
    has its line, and [is_valid] is tested only then: the constructor
    seals the engine when no line was written and otherwise exits with all
    the lines of the three passes.  When a reactant or a product is missing
    (over a mixture with at least one element), the species pass has
    written its line, but the conservation pass reads [stoichi] at the
    index [2^64 - 1] under which the species was registered: it does not
    run to completion, and the behaviour of the constructor is undefined
    instead of the exit with the report. *)
Theorem validation_reports_every_problem (th : Thermodynamics) (T_last0 : R)
    (rxns : list Reaction) :
  rxns <> [] ->
  let k := addReactions rxns (Kinetics_new th T_last0) in
  exists d1 d2,
    checkSpecies k = Some d1 /\ checkDuplicates k = Some d2
    /\ (forall i r name,
          at_index rxns i = Some r -> In name (reactants r ++ products r) ->
          (speciesIndex th name < 0)%Z ->
          In (SpeciesMissing (N.succ i) (formula r) name) d1)
    /\ (forall i r name,
          at_index rxns i = Some r -> isThirdbody r = true ->
          In name (map fst (efficiencies r)) -> (speciesIndex th name < 0)%Z ->
          In (ThirdbodyMissing (N.succ i) (formula r) name) d1)
    /\ (forall i j ri rj,
          duplicate_pair th rxns i j ri rj ->
          In (Identical (N.succ i) (formula ri) (N.succ j) (formula rj)) d2)
    /\ ((forall rx, In rx rxns -> species_exist th rx) ->
        exists d3,
          checkConservation k = Some d3
          /\ Kinetics_ctor th T_last0 rxns
             = match d1 ++ d2 ++ d3 with
               | [] => Sealed (seal k)
               | _ => ExitFailure (d1 ++ d2 ++ d3)
               end
          /\ (forall e j r,
                (e < nElements th)%N -> at_index rxns j = Some r ->
                vget (getReactionDelta k (element_column th e)
                        (vzero (m_num_rxns k))) j <> 0 ->
                In (NotConserved (N.succ j) (formula r) (elementName th e)) d3))
    /\ ((exists rx name, In rx rxns /\ In name (reactants rx ++ products rx)
                         /\ (speciesIndex th name < 0)%Z) ->
        (nSpecies th < 2 ^ 64)%N -> (0 < nElements th)%N ->
        d1 <> [] /\ checkConservation k = None
        /\ Kinetics_ctor th T_last0 rxns = Undefined).
Proof.
  intros Hne k.
  destruct (addReactions_new th T_last0 rxns) as (Hl & Hr & Ht & _ & Hn).
  destruct (ctor_report th T_last0 rxns Hne)
    as (d1 & d2 & E1 & E2 & Hd1 & Hd2 & Hin3 & Hout).
  fold k in Hl, Hr, Ht, Hn, E1, E2, Hin3, Hout.
  assert (Hmiss : forall i r name,
             at_index rxns i = Some r -> In name (reactants r ++ products r) ->
             (speciesIndex th name < 0)%Z ->
             In (SpeciesMissing (N.succ i) (formula r) name) d1).
  { intros i r name Hi Hname Hlt. apply Hd1. exists i, r. split; [exact Hi|].
    unfold species_lines. rewrite in_app_iff in Hname. rewrite !in_app_iff.
    destruct Hname as [Hname|Hname]; [left|right; left];
      apply missing_species_In; exists name; auto. }
  exists d1, d2. repeat (split; [assumption|]).
  split; [|split; [|split]].
  - intros i r name Hi Htb Hname Hlt. apply Hd1. exists i, r. split; [exact Hi|].
    unfold species_lines. rewrite !in_app_iff. right; right. rewrite Htb.
    apply missing_thirdbodies_In. exists name; auto.
  - intros i j ri rj Hdup. apply Hd2. exists i, j, ri, rj. auto.
  - intros Hex. destruct (Hin3 Hex) as (d3 & Ed3 & Ev & Hd3).
    exists d3. split; [exact Ed3|]. split.
    + exact (closeReactions_validated k _ Ev).
    + intros e j r He Hj Hmass. apply Hd3. exists e, j, r.
      repeat split; try assumption.
      rewrite <- Hr in Hj. rewrite <- Ht in Hmass at 1.
      rewrite (conservation_mass_at k e j r Hl Hj) in Hmass. now rewrite Ht in Hmass.
  - intros (rx & name & Hrx & Hname & Hlt) Hns Hel.
    destruct Hout as [Ec Ev]; [exists rx, name; auto|exact Hns|exact Hel|].
    split; [|split; [exact Ec|]].
    + destruct (In_at_index _ _ Hrx) as [i Hi].
      intros ->. exact (Hmiss i rx name Hi Hname Hlt).
    + unfold Kinetics_ctor, closeReactions. fold k. now rewrite Ev.
Qed.

Lemma delta_of_residual (th : Thermodynamics) (r : Reaction) (e : N) :
  NoDup (speciesNames th) -> species_exist th r ->
  delta_of th (element_column th e) r = conservation_residual th r e.
Proof.
  intros Hnd Hex. unfold delta_of, conservation_residual, incidence_sum,
    product_indices, reactant_indices, speciesIndices.
  rewrite !map_map.
  rewrite (incidence_sum_by_species th (vget (element_column th e)) (products r) Hnd)
    by (intros; apply Hex; rewrite in_app_iff; auto).
  rewrite (incidence_sum_by_species th (vget (element_column th e)) (reactants r) Hnd)
    by (intros; apply Hex; rewrite in_app_iff; auto).
  rewrite <- Rsum_map_sub. apply Rsum_map_ext. intros k Hk.
  apply In_range in Hk. unfold element_column.
  rewrite vget_map_range by lia. unfold product, reactant.
  rewrite minus_IZR. lra.
Qed.

(** The names the species pass writes a line for. *)
Lemma species_lines_missing (th : Thermodynamics) (i : N) (r : Reaction)
    (x : Diagnostic) :
  In x (species_lines th i r) ->
  exists name, In name (names_checked r) /\ (speciesIndex th name < 0)%Z.
Proof.
  unfold species_lines, names_checked. rewrite !in_app_iff.
  intros [Hx|[Hx|Hx]].
  - apply missing_species_In in Hx. destruct Hx as (name & Hname & Hlt & _).
    exists name. rewrite !in_app_iff. auto.
  - apply missing_species_In in Hx. destruct Hx as (name & Hname & Hlt & _).
    exists name. rewrite !in_app_iff. auto.
  - destruct (isThirdbody r); [|destruct Hx].
    apply missing_thirdbodies_In in Hx. destruct Hx as (name & Hname & Hlt & _).
    exists name. rewrite !in_app_iff. auto.
Qed.

(** C5: over a mixture whose species names are distinct, for a mechanism
    with at least one reaction, the constructor (which closes the
    mechanism with validation) fails to seal the engine if and only if
    some reaction has, for some element, a non-zero residual (its net
    stoichiometric vector dotted with the element's atom counts; the
    comparison with zero is exact), or some name looked up by the species
    pass is missing from the mixture, or two reactions compare equal in the
    duplicate pass.  When the reactants and products of every reaction
    exist in the mixture (the incidence invariant, without which the
    conservation pass reads outside the species vector), the failure is
    the exit with status 1, under the same condition. *)
Theorem validation_fails_iff (th : Thermodynamics) (T_last0 : R)
    (rxns : list Reaction) :
  NoDup (speciesNames th) -> rxns <> [] ->
  let problem :=
    (exists e r, (e < nElements th)%N /\ In r rxns
                 /\ conservation_residual th r e <> 0)
    \/ (exists r name, In r rxns /\ In name (names_checked r)
                       /\ (speciesIndex th name < 0)%Z)
    \/ (exists i j ri rj, duplicate_pair th rxns i j ri rj) in
  ((forall k', Kinetics_ctor th T_last0 rxns <> Sealed k') <-> problem)
  /\ ((forall rx, In rx rxns -> species_exist th rx) ->
      ((exists cerr, Kinetics_ctor th T_last0 rxns = ExitFailure cerr) <-> problem)).
Proof.
  intros Hnd Hne problem.
  destruct (addReactions_new th T_last0 rxns) as (Hl & Hr & Ht & _ & Hn).
  destruct (ctor_report th T_last0 rxns Hne)
    as (d1 & d2 & E1 & E2 & Hd1 & Hd2 & Hin3 & _).
  set (k := addReactions rxns (Kinetics_new th T_last0)) in *.
  (* the species pass wrote nothing: every reaction has its species *)
  assert (Hexist : d1 = [] -> forall r, In r rxns -> species_exist th r).
  { intros -> r Hin. apply names_checked_species. intros name Hname.
    rewrite <- Ht. apply (proj1 (checkSpecies_nil k (ld_num k Hl)) E1 r name);
      [|exact Hname].
    now rewrite Hr. }
  (* a problem leaves a line, or the third pass undefined *)
  assert (Hfail : problem -> forall k', Kinetics_ctor th T_last0 rxns <> Sealed k').
  { intros Hp k' Hs. unfold Kinetics_ctor in Hs. fold k in Hs.
    apply closeReactions_true_Sealed, validate_nil in Hs.
    destruct Hs as (S1 & S2 & S3).
    rewrite E1 in S1. rewrite E2 in S2. injection S1 as ->. injection S2 as ->.
    pose proof (Hexist eq_refl) as Hex.
    destruct Hp as [(e & r & He & Hin & Hres)|[(r & name & Hin & Hname & Hlt)
                                              |(i & j & ri & rj & Hdup)]].
    - rewrite <- (delta_of_residual th r e Hnd (Hex r Hin)) in Hres.
      apply Hres. rewrite <- Ht.
      apply (proj1 (checkConservation_nil k Hl ltac:(now rewrite Hr, Ht)) S3);
        rewrite ?Ht, ?Hr; assumption.
    - pose proof (proj1 (checkSpecies_nil k (ld_num k Hl)) E1 r name) as Hge.
      rewrite Hr, Ht in Hge. specialize (Hge Hin Hname). lia.
    - refine (proj2 (Hd2 _) _). exists i, j, ri, rj. split; [exact Hdup|reflexivity]. }
  (* no line at all means no problem *)
  assert (Hfound : forall d3,
             (forall rx, In rx rxns -> species_exist th rx) ->
             (forall x, In x d3 <->
                exists e j r,
                  (e < nElements th)%N /\ at_index rxns j = Some r
                  /\ delta_of th (element_column th e) r <> 0
                  /\ x = NotConserved (N.succ j) (formula r) (elementName th e)) ->
             forall x, In x (d1 ++ d2 ++ d3) -> problem).
  { intros d3 Hex Hd3 x Hx. rewrite !in_app_iff in Hx.
    destruct Hx as [Hx|[Hx|Hx]].
    - right; left. apply Hd1 in Hx. destruct Hx as (i & r & Hi & Hx).
      destruct (species_lines_missing th _ r x Hx) as (name & Hname & Hlt).
      exists r, name. split; [eapply at_index_In; eauto|auto].
    - right; right. apply Hd2 in Hx.
      destruct Hx as (i & j & ri & rj & Hdup & _). eauto.
    - left. apply Hd3 in Hx. destruct Hx as (e & j & r & He & Hj & Hres & _).
      pose proof (at_index_In _ _ _ Hj) as Hin.
      exists e, r. repeat split; try assumption.
      now rewrite <- (delta_of_residual th r e Hnd (Hex r Hin)). }
  split.
  - split; [|exact Hfail]. intros Hns.
    destruct d1 as [|x1 d1].
    + pose proof (Hexist eq_refl) as Hex.
      destruct (Hin3 Hex) as (d3 & Ed3 & Ev & Hd3).
      destruct ([] ++ d2 ++ d3) as [|x l] eqn:El.
      * exfalso. apply (Hns (seal k)). unfold Kinetics_ctor. fold k.
        now rewrite (closeReactions_validated k _ Ev).
      * apply (Hfound d3 Hex Hd3 x). rewrite El. now left.
    + right; left. destruct (proj1 (Hd1 x1) (or_introl eq_refl)) as (i & r & Hi & Hx).
      destruct (species_lines_missing th _ r x1 Hx) as (name & Hname & Hlt).
      exists r, name. split; [eapply at_index_In; eauto|auto].
  - intros Hex. destruct (Hin3 Hex) as (d3 & Ed3 & Ev & Hd3).
    unfold Kinetics_ctor in *. fold k in Hfail |- *.
    rewrite (closeReactions_validated k _ Ev) in *. split.
    + intros [cerr Hc]. destruct (d1 ++ d2 ++ d3) as [|x l] eqn:El; [discriminate|].
      apply (Hfound d3 Hex Hd3 x). rewrite El. now left.
    + intros Hp. specialize (Hfail Hp).
      destruct (d1 ++ d2 ++ d3) as [|x l]; [now contradiction (Hfail (seal k))|eauto].
Qed.

Lemma nitrogen_names_NoDup : NoDup (speciesNames nitrogen).
Proof.
  unfold nitrogen; cbn [speciesNames].
  apply NoDup_cons; [|apply NoDup_cons; [|apply NoDup_nil]].
  - intros [H|[]]. discriminate.
  - intros [].
Qed.

(* ================================================================= *)
(** ** The net mole-number change (C9) *)

Lemma vget_const (c : R) (m : nat) (i : N) :
  (i < N.of_nat m)%N -> vget (map (fun _ => c) (repeat 0 m)) i = c.
Proof.
  revert i; induction m as [|m IH]; intros i Hi; [lia|].
  simpl. destruct (N.eqb_spec i 0); [reflexivity|]. apply IH. lia.
Qed.

Lemma vget_ones (th : Thermodynamics) (i : N) :
  (i < nSpecies th)%N -> vget (ones th) i = 1.
Proof. intros H. unfold ones, vfill, vzero. apply vget_const. lia. Qed.

Lemma incidence_sum_ones (th : Thermodynamics) (l : list string) :
  (forall name, In name l -> (0 <= speciesIndex th name)%Z) ->
  incidence_sum (ones th) (speciesIndices th l) = INR (List.length l).
Proof.
  unfold incidence_sum, speciesIndices. rewrite map_map.
  induction l as [|x t IH]; intros H; [reflexivity|].
  cbn [map Rsum fold_right List.length]. rewrite S_INR.
  fold (Rsum (map (fun name => vget (ones th) (size_of_int (speciesIndex th name))) t)).
  rewrite IH by (intros; apply H; now right).
  rewrite vget_ones by (apply speciesIndex_valid, H; now left). lra.
Qed.

Lemma delta_of_ones (th : Thermodynamics) (r : Reaction) :
  species_exist th r ->
  delta_of th (ones th) r
  = INR (List.length (products r)) - INR (List.length (reactants r)).
Proof.
  intros H. unfold delta_of, product_indices, reactant_indices.
  rewrite !incidence_sum_ones; [reflexivity| |];
    intros name Hin; apply H; rewrite in_app_iff; auto.
Qed.



(** C9: when [closeReactions] seals a loaded mechanism, [dnu] is the result
    of [getReactionDelta] on the all-ones species vector; for every
    reaction whose species exist in the mixture (which validation
    guarantees when it was requested) [dnu(r)] is the number of product
    occurrences minus the number of reactant occurrences, that is, the sum
    over the species of the product coefficient minus the reactant
    coefficient; and no rate-returning call, temperature update or change
    of thermodynamic state modifies [dnu]. *)
Theorem dnu_is_net_mole_change (RU : R) (validate_mechanism : bool)
    (th : Thermodynamics) (T_last0 : R) (rxns : list Reaction) (k : Kinetics) :
  closeReactions validate_mechanism (addReactions rxns (Kinetics_new th T_last0))
    = Sealed k ->
  m_dnu k = getReactionDelta k (vfill (vzero (nSpecies th)) 1) (vzero (m_num_rxns k))
  /\ (forall r rx,
        at_index rxns r = Some rx ->
        species_exist th rx \/ validate_mechanism = true ->
        vget (m_dnu k) r
        = INR (List.length (products rx)) - INR (List.length (reactants rx))
        /\ (NoDup (speciesNames th) ->
            vget (m_dnu k) r
            = Rsum (map (fun s => IZR (product rx (speciesName th s))
                                  - IZR (reactant rx (speciesName th s)))
                        (range 0 (nSpecies th)))))
  /\ (forall k' c T, m_dnu (snd (call RU c T k')) = m_dnu k')
  /\ (forall k' T, m_dnu (updateT RU T k') = m_dnu k')
  /\ (forall k' g, m_dnu (setState g k') = m_dnu k').
Proof.
  intros Hclose.
  destruct (addReactions_new th T_last0 rxns) as (Hl & Hr & Ht & _ & Hn).
  set (k0 := addReactions rxns (Kinetics_new th T_last0)) in *.
  pose proof (closeReactions_Sealed _ _ _ Hclose) as ->.
  pose proof (seal_inv k0 Hl) as Hs.
  split; [|split; [|split; [|split]]].
  - cbn [seal m_dnu m_num_rxns]. now rewrite Ht.
  - intros r rx Hrx Hex.
    assert (Hex' : species_exist th rx).
    { destruct Hex as [Hex| ->]; [exact Hex|].
      apply closeReactions_true_Sealed, validate_nil in Hclose.
      destruct Hclose as (Hsp & _).
      apply names_checked_species. intros name Hname. rewrite <- Ht.
      apply (proj1 (checkSpecies_nil k0 (ld_num k0 Hl)) Hsp rx name); [|exact Hname].
      rewrite Hr. eapply at_index_In; eauto. }
    rewrite (si_dnu _ Hs). cbn [seal m_reactions m_thermo]. rewrite Hr, Ht.
    rewrite (vget_map_at _ rxns r rx Hrx).
    split; [now apply delta_of_ones|].
    intros Hnd. unfold delta_of, incidence_sum, product_indices, reactant_indices,
      speciesIndices. rewrite !map_map.
    rewrite (incidence_sum_by_species th (vget (ones th)) (products rx) Hnd)
      by (intros; apply Hex'; rewrite in_app_iff; auto).
    rewrite (incidence_sum_by_species th (vget (ones th)) (reactants rx) Hnd)
      by (intros; apply Hex'; rewrite in_app_iff; auto).
    rewrite <- Rsum_map_sub. apply Rsum_map_ext. intros s Hs'.
    apply In_range in Hs'. rewrite vget_ones by lia.
    unfold product, reactant. lra.
  - intros k' c T. apply call_dnu.
  - intros k' T. unfold updateT. destruct (Rlt_dec _ _); reflexivity.
  - reflexivity.
Qed.

(* ================================================================= *)
(** ** Net production rates (C1) *)

Lemma vget_vupd (v : RealVector) (sp : N) (f : R -> R) (i : N) :
  (sp < N.of_nat (List.length v))%N ->
  vget (vupd v sp f) i = if (i =? sp)%N then f (vget v i) else vget v i.
Proof.
  revert sp i; induction v as [|x v IH]; intros sp i Hsp; [simpl in Hsp; lia|].
  simpl. destruct (N.eqb_spec sp 0) as [->|Hsp0].
  - simpl. destruct (N.eqb_spec i 0) as [->|Hi]; [reflexivity|].
    destruct (N.eqb_spec i 0); [lia|reflexivity].
  - simpl. destruct (N.eqb_spec i 0) as [->|Hi].
    + destruct (N.eqb_spec 0 sp); [lia|reflexivity].
    + rewrite IH by (simpl in Hsp; lia).
      destruct (N.eqb_spec (N.pred i) (N.pred sp)), (N.eqb_spec i sp);
        try reflexivity; lia.
Qed.

Lemma species_dot_vupd (ns : N) (v : RealVector) (w : N -> R) (sp : N)
    (f : R -> R) (c : R) :
  N.of_nat (List.length v) = ns -> (sp < ns)%N -> (forall x, f x = x + c) ->
  species_dot ns (vupd v sp f) w = species_dot ns v w + c * w sp.
Proof.
  intros Hlen Hsp Hf. unfold species_dot.
  rewrite <- (Rsum_pick_range (fun i => c * w i) sp ns Hsp).
  rewrite <- Rsum_map_add. apply Rsum_map_ext. intros i _.
  rewrite vget_vupd by lia. destruct (i =? sp)%N; [rewrite Hf|]; lra.
Qed.

Lemma species_dot_scatter_one (ns : N) (w : N -> R) (f : R -> R) (c : R)
    (sps : list N) (v : RealVector) :
  N.of_nat (List.length v) = ns -> (forall sp, In sp sps -> (sp < ns)%N) ->
  (forall x, f x = x + c) ->
  species_dot ns (fold_left (fun s sp => vupd s sp f) sps v) w
  = species_dot ns v w + c * Rsum (map w sps)
  /\ N.of_nat (List.length (fold_left (fun s sp => vupd s sp f) sps v)) = ns.
Proof.
  intros Hlen Hsps Hf. revert v Hlen.
  induction sps as [|sp t IH]; intros v Hlen.
  - simpl. split; [lra|exact Hlen].
  - cbn [fold_left map Rsum fold_right].
    destruct (IH (fun s Hs => Hsps s (or_intror Hs)) (vupd v sp f)) as [E L].
    + now rewrite vupd_length.
    + split; [|exact L]. rewrite E.
      rewrite (species_dot_vupd ns v w sp f c Hlen (Hsps sp (or_introl eq_refl)) Hf).
      fold (Rsum (map w t)). lra.
Qed.

(** Scattering reaction values into species space changes the weighted
    species sum by the weighted incidence sums. *)
Lemma species_dot_scatter (ns : N) (w : N -> R) (F : N * list N -> R -> R)
    (c : N * list N -> R) (m : StoichiometryManager) (v : RealVector) :
  N.of_nat (List.length v) = ns ->
  (forall e sp, In e m -> In sp (snd e) -> (sp < ns)%N) ->
  (forall e x, F e x = x + c e) ->
  species_dot ns
    (fold_left (fun s e => fold_left (fun s sp => vupd s sp (F e)) (snd e) s) m v) w
  = species_dot ns v w + Rsum (map (fun e => c e * Rsum (map w (snd e))) m)
  /\ N.of_nat (List.length
       (fold_left (fun s e => fold_left (fun s sp => vupd s sp (F e)) (snd e) s) m v))
     = ns.
Proof.
  intros Hlen Hm HF. revert v Hlen.
  induction m as [|e t IH]; intros v Hlen.
  - simpl. split; [lra|exact Hlen].
  - cbn [fold_left map Rsum fold_right].
    destruct (species_dot_scatter_one ns w (F e) (c e) (snd e) v Hlen
                (fun sp Hsp => Hm e sp (or_introl eq_refl) Hsp) (HF e)) as [E1 L1].
    destruct (IH (fun e' sp He' => Hm e' sp (or_intror He')) _ L1) as [E2 L2].
    split; [|exact L2]. rewrite E2, E1.
    fold (Rsum (map (fun e0 => c e0 * Rsum (map w (snd e0))) t)). lra.
Qed.

Lemma entries_In {A : Type} (f : Reaction -> option A) (i0 : N)
    (rxns : list Reaction) (e : N * A) :
  In e (entries f i0 rxns) -> exists rx, In rx rxns /\ f rx = Some (snd e).
Proof.
  revert i0; induction rxns as [|r t IH]; intros i0; simpl; [tauto|].
  destruct (f r) as [a|] eqn:E.
  - intros [<-|Hin].
    + exists r. auto.
    + destruct (IH _ Hin) as (rx & Hrx & Hf). exists rx. auto.
  - intros Hin. destruct (IH _ Hin) as (rx & Hrx & Hf). exists rx. auto.
Qed.

(** The three scatters of [netProductionRates] add up, reaction by
    reaction, to the rate of progress times products minus reactants. *)
Lemma scatter_total (th : Thermodynamics) (s rop : RealVector)
    (rxns : list Reaction) (i0 : N) :
  (forall rx, In rx rxns -> delta_of th s rx = 0) ->
  let g := fun e : N * list N => vget rop (fst e) * incidence_sum s (snd e) in
  Rsum (map g (entries (fun r => if isReversible r
                                 then None else Some (product_indices th r)) i0 rxns))
  + (Rsum (map g (entries (fun r => if isReversible r
                                    then Some (product_indices th r) else None) i0 rxns))
     - Rsum (map g (entries (fun r => Some (reactant_indices th r)) i0 rxns)))
  = 0.
Proof.
  intros Hd g. revert i0. induction rxns as [|r t IH]; intros i0.
  - simpl. lra.
  - cbn [entries].
    specialize (IH (fun rx Hrx => Hd rx (or_intror Hrx)) (N.succ i0)).
    pose proof (Hd r (or_introl eq_refl)) as H0. unfold delta_of in H0.
    assert (HP : incidence_sum s (product_indices th r)
                 = incidence_sum s (reactant_indices th r)) by lra.
    subst g; cbv beta in *.
    destruct (isReversible r); cbn [map]; unfold Rsum in *;
      cbn [fold_right fst snd]; rewrite HP; lra.
Qed.

Lemma incidence_sum_linear (aw : N -> R) (E : N -> N -> R) (mw : N -> R)
    (cols : N -> RealVector) (s : RealVector) (es : list N) (sps : list N) :
  (forall sp, In sp sps -> vget s sp = Rsum (map (fun e => aw e * E sp e) es)) ->
  (forall sp e, In sp sps -> In e es -> vget (cols e) sp = E sp e) ->
  incidence_sum s sps
  = Rsum (map (fun e => aw e * incidence_sum (cols e) sps) es).
Proof.
  unfold incidence_sum. induction sps as [|sp t IH]; intros Hs Hc.
  - simpl. symmetry. apply Rsum_map_zero. intros; lra.
  - cbn [map Rsum fold_right]. fold (Rsum (map (vget s) t)).
    rewrite IH;
      [ | intros; apply Hs; now right | intros; apply Hc; [now right|assumption] ].
    rewrite (Hs sp (or_introl eq_refl)). rewrite <- Rsum_map_add.
    apply Rsum_map_ext. intros e He.
    rewrite (Hc sp e (or_introl eq_refl) He).
    fold (Rsum (map (vget (cols e)) t)). lra.
Qed.

Lemma ctor_validated (th : Thermodynamics) (T_last0 : R) (rxns : list Reaction)
    (k : Kinetics) :
  Kinetics_ctor th T_last0 rxns = Sealed k -> validated_inv k.
Proof.
  unfold Kinetics_ctor. intros Hclose.
  destruct (addReactions_new th T_last0 rxns) as (Hl & Hr & Ht & _ & Hn).
  set (k0 := addReactions rxns (Kinetics_new th T_last0)) in *.
  pose proof (closeReactions_Sealed _ _ _ Hclose) as ->.
  apply closeReactions_true_Sealed, validate_nil in Hclose.
  destruct Hclose as (Hsp & _ & Hco).
  assert (Hex : forall r, In r (m_reactions k0) -> species_exist (m_thermo k0) r).
  { intros r Hin. apply names_checked_species. intros name Hname.
    exact (proj1 (checkSpecies_nil k0 (ld_num k0 Hl)) Hsp r name Hin Hname). }
  constructor; cbn [seal m_reactions m_thermo].
  - now apply seal_inv.
  - exact Hex.
  - exact (proj1 (checkConservation_nil k0 Hl Hex) Hco).
Qed.

Lemma set_rop_validated (k : Kinetics) (ropf ropb rop : RealVector) :
  validated_inv k -> validated_inv (set_rop k ropf ropb rop).
Proof.
  intros [Hs Hsp Hco]. constructor; [now apply set_rop_inv|exact Hsp|exact Hco].
Qed.

Lemma updateT_validated (RU T : R) (k : Kinetics) :
  validated_inv k -> validated_inv (updateT RU T k).
Proof.
  intros [Hs Hsp Hco]. constructor; [now apply updateT_inv| |];
    unfold updateT; destruct (Rlt_dec _ _); assumption.
Qed.

Lemma setState_validated (g : RealVector) (k : Kinetics) :
  validated_inv k -> validated_inv (setState g k).
Proof.
  intros [Hs Hsp Hco]. constructor; [now apply setState_inv|exact Hsp|exact Hco].
Qed.

Lemma validated_engine_inv (RU : R) (k : Kinetics) :
  validated_engine RU k -> validated_inv k.
Proof.
  induction 1 as [th T0 rxns k H|c T k _ IH|g k _ IH].
  - eapply ctor_validated; eauto.
  - destruct (call_state RU c T k) as (f & b & r & ->).
    now apply set_rop_validated, updateT_validated.
  - now apply setState_validated.
Qed.

Lemma updateT_managers (RU T : R) (k : Kinetics) :
  m_reactants (updateT RU T k) = m_reactants k
  /\ m_rev_prods (updateT RU T k) = m_rev_prods k
  /\ m_irr_prods (updateT RU T k) = m_irr_prods k.
Proof. unfold updateT. destruct (Rlt_dec _ _); auto. Qed.

Lemma species_dot_vzero (ns : N) (w : N -> R) : species_dot ns (vzero ns) w = 0.
Proof.
  unfold species_dot. apply Rsum_map_zero. intros i _. rewrite vget_vzero. lra.
Qed.

(** On a validated mechanism whose molecular weights come from the element
    matrix, products and reactants of every reaction weigh the same. *)
Lemma delta_of_weights (k : Kinetics) (aw : N -> R) (rx : Reaction) :
  validated_inv k -> weights_from_elements (m_thermo k) aw ->
  In rx (m_reactions k) ->
  delta_of (m_thermo k) (speciesMws (m_thermo k)) rx = 0.
Proof.
  intros Hv Hw Hin. set (th := m_thermo k) in *.
  pose proof (vi_species k Hv rx Hin) as Hex. fold th in Hex.
  assert (Hside : forall l, (forall name, In name l -> In name (reactants rx ++ products rx)) ->
            incidence_sum (speciesMws th) (speciesIndices th l)
            = Rsum (map (fun e => aw e * incidence_sum (element_column th e)
                                           (speciesIndices th l))
                        (range 0 (nElements th)))).
  { intros l Hl.
    apply (incidence_sum_linear aw (elementMatrix th) (speciesMw th)).
    - intros sp Hsp. apply in_map_iff in Hsp. destruct Hsp as (name & <- & Hname).
      apply (Hw _). apply speciesIndex_valid, Hex, Hl, Hname.
    - intros sp e Hsp _. apply in_map_iff in Hsp. destruct Hsp as (name & <- & Hname).
      unfold element_column.
      rewrite (vget_map_range (fun s => elementMatrix th s e)); [reflexivity|].
      apply speciesIndex_valid, Hex, Hl, Hname. }
  unfold delta_of, product_indices, reactant_indices.
  rewrite (Hside (products rx)) by (intros; rewrite in_app_iff; auto).
  rewrite (Hside (reactants rx)) by (intros; rewrite in_app_iff; auto).
  rewrite <- Rsum_map_sub. apply Rsum_map_zero. intros e He.
  apply In_range in He.
  pose proof (vi_conserved k Hv e rx (proj2 He) Hin) as H0.
  fold th in H0. unfold delta_of, product_indices, reactant_indices in H0.
  rewrite <- Rmult_minus_distr_l, H0. lra.
Qed.

Lemma manager_species_valid (th : Thermodynamics) (side : Reaction -> list string)
    (f : Reaction -> option (list N)) (rxns : list Reaction) (e : N * list N) (sp : N) :
  (forall r, In r rxns -> forall name, In name (side r) -> (0 <= speciesIndex th name)%Z) ->
  (forall r a, f r = Some a -> a = speciesIndices th (side r)) ->
  In e (entries f 0 rxns) -> In sp (snd e) -> (sp < nSpecies th)%N.
Proof.
  intros Hex Hf He Hsp. apply entries_In in He. destruct He as (rx & Hrx & Hfe).
  apply Hf in Hfe. rewrite Hfe in Hsp. apply in_map_iff in Hsp.
  destruct Hsp as (name & <- & Hname).
  apply speciesIndex_valid. exact (Hex rx Hrx name Hname).
Qed.

Lemma Rsum_map_opp {A : Type} (a : A -> R) (l : list A) :
  Rsum (map (fun x => - a x) l) = - Rsum (map a l).
Proof. induction l as [|x t IH]; simpl; [lra|]. rewrite IH. lra. Qed.

(** The mass-basis production rates written by [netProductionRates], summed
    over the species, for any vector of rates of progress. *)
Lemma scattered_mass_is_zero (k : Kinetics) (aw : N -> R) (rop : RealVector) :
  validated_inv k -> weights_from_elements (m_thermo k) aw ->
  species_dot (nSpecies (m_thermo k))
    (incrSpecies (m_irr_prods k) rop
       (incrSpecies (m_rev_prods k) rop
          (decrSpecies (m_reactants k) rop (vzero (nSpecies (m_thermo k))))))
    (speciesMw (m_thermo k))
  = 0.
Proof.
  intros Hv Hw. pose proof (si_loaded k (vi_sealed k Hv)) as Hl.
  set (th := m_thermo k) in *. set (ns := nSpecies th).
  set (w := speciesMw th).
  assert (Hreact : forall r, In r (m_reactions k) -> forall name,
             In name (reactants r) -> (0 <= speciesIndex th name)%Z).
  { intros r Hr name Hn. apply (vi_species k Hv r Hr). rewrite in_app_iff; auto. }
  assert (Hprod : forall r, In r (m_reactions k) -> forall name,
             In name (products r) -> (0 <= speciesIndex th name)%Z).
  { intros r Hr name Hn. apply (vi_species k Hv r Hr). rewrite in_app_iff; auto. }
  unfold incrSpecies, decrSpecies.
  destruct (species_dot_scatter ns w
              (fun e x => x - vget rop (fst e)) (fun e => - vget rop (fst e))
              (m_reactants k) (vzero ns)) as [E1 L1].
  { rewrite vzero_length. lia. }
  { rewrite (ld_reactants k Hl). intros e sp.
    apply (manager_species_valid th reactants _ (m_reactions k) e sp Hreact).
    intros r a [= <-]. reflexivity. }
  { intros; lra. }
  destruct (species_dot_scatter ns w
              (fun e x => x + vget rop (fst e)) (fun e => vget rop (fst e))
              (m_rev_prods k) _ L1) as [E2 L2].
  { rewrite (ld_rev_prods k Hl). intros e sp.
    apply (manager_species_valid th products _ (m_reactions k) e sp Hprod).
    intros r a. destruct (isReversible r); [intros [= <-]; reflexivity|discriminate]. }
  { intros; lra. }
  destruct (species_dot_scatter ns w
              (fun e x => x + vget rop (fst e)) (fun e => vget rop (fst e))
              (m_irr_prods k) _ L2) as [E3 _].
  { rewrite (ld_irr_prods k Hl). intros e sp.
    apply (manager_species_valid th products _ (m_reactions k) e sp Hprod).
    intros r a. destruct (isReversible r); [discriminate|intros [= <-]; reflexivity]. }
  { intros; lra. }
  rewrite E3, E2, E1, species_dot_vzero.
  rewrite (Rsum_map_ext (fun e => - vget rop (fst e) * Rsum (map w (snd e)))
             (fun e => - (vget rop (fst e) * Rsum (map w (snd e)))))
    by (intros; lra).
  rewrite Rsum_map_opp.
  pose proof (scatter_total th (speciesMws th) rop (m_reactions k) 0
                (fun rx Hrx => delta_of_weights k aw rx Hv Hw Hrx)) as Htot.
  cbv zeta in Htot. unfold incidence_sum in Htot.
  pose proof (ld_reactants k Hl) as HR. pose proof (ld_rev_prods k Hl) as HV.
  pose proof (ld_irr_prods k Hl) as HI. fold th in HR, HV, HI.
  rewrite <- HR, <- HV, <- HI in Htot.
  change (map (vget (speciesMws th))) with (map w) in Htot.
  lra.
Qed.

(** C1, amended: on an engine whose mechanism passed validation, and whose
    molecular weights are the atomic weights of the elements weighted by
    the atom counts of the element matrix, the mass-basis production rates
    returned by [netProductionRates] sum to zero over the species, in exact
    arithmetic, at every temperature and concentration vector. *)
Theorem production_rates_conserve_mass (RU : R) (k : Kinetics) (aw : N -> R)
    (T : R) (conc : RealVector) :
  validated_engine RU k -> weights_from_elements (m_thermo k) aw ->
  Rsum (fst (netProductionRates RU T conc k)) = 0.
Proof.
  intros Hk Hw. apply validated_engine_inv in Hk.
  unfold netProductionRates.
  set (conc' := map (vget conc) (range 0 (nSpecies (m_thermo k)))).
  destruct (netRatesOfProgress RU T conc' k) as [rop k1] eqn:E.
  destruct (call_state RU (CallNetRatesOfProgress conc') T k) as (f & b & r & Hk1).
  cbn [call] in Hk1. rewrite E in Hk1. cbn [snd] in Hk1. subst k1.
  cbn [fst set_rop m_thermo m_irr_prods m_rev_prods m_reactants].
  destruct (updateT_frame RU T k) as (_ & -> & _).
  destruct (updateT_managers RU T k) as (-> & -> & ->).
  exact (scattered_mass_is_zero k aw rop Hk Hw).
Qed.

(** A mechanism that passes the three validation passes is sealed by the
    constructor. *)
Lemma ctor_sealed (th : Thermodynamics) (T_last0 : R) (rxns : list Reaction) :
  rxns <> [] ->
  (forall r name, In r rxns -> In name (names_checked r) ->
                  (0 <= speciesIndex th name)%Z) ->
  (forall i j ri rj, ~ duplicate_pair th rxns i j ri rj) ->
  (forall e r, (e < nElements th)%N -> In r rxns ->
               delta_of th (element_column th e) r = 0) ->
  Kinetics_ctor th T_last0 rxns
  = Sealed (seal (addReactions rxns (Kinetics_new th T_last0))).
Proof.
  intros Hne Hsp Hdup Hco.
  destruct (addReactions_new th T_last0 rxns) as (Hl & Hr & Ht & _ & Hn').
  destruct (ctor_report th T_last0 rxns Hne)
    as (d1 & d2 & E1 & E2 & _ & Hd2 & Hin3 & _).
  set (k := addReactions rxns (Kinetics_new th T_last0)) in *.
  pose proof (ld_num k Hl) as Hn.
  assert (Hex : forall rx, In rx rxns -> species_exist th rx).
  { intros rx Hrx. apply names_checked_species. intros name Hname.
    exact (Hsp rx name Hrx Hname). }
  destruct (Hin3 Hex) as (d3 & E3 & Ev & _).
  assert (H1 : checkSpecies k = Some []).
  { apply (checkSpecies_nil k Hn). rewrite Hr, Ht. exact Hsp. }
  assert (H3 : checkConservation k = Some []).
  { apply (checkConservation_nil k Hl); rewrite Hr, Ht; assumption. }
  assert (H2 : d2 = []).
  { destruct d2 as [|x d2]; [reflexivity|]. exfalso.
    destruct (proj1 (Hd2 x) (or_introl eq_refl)) as (i & j & ri & rj & Hd & _).
    exact (Hdup _ _ _ _ Hd). }
  rewrite E1 in H1. rewrite E3 in H3. injection H1 as ->. injection H3 as ->.
  subst d2. unfold Kinetics_ctor. fold k.
  now rewrite (closeReactions_validated k _ Ev).
Qed.

Lemma nitrogen_ctor : Kinetics_ctor nitrogen 0 [dissociation] = Sealed nitrogen_engine.
Proof.
  apply ctor_sealed.
  - discriminate.
  - intros r name [<-|[]] Hname. simpl in Hname.
    destruct Hname as [<-|[<-|[<-|[]]]]; unfold speciesIndex; simpl; lia.
  - intros i j ri rj (Hij & Hi & Hj & _).
    apply at_index_Some_lt in Hj. simpl in Hj. lia.
  - intros e r He [<-|[]].
    assert (e = 0%N) as -> by (unfold nElements in He; simpl in He; lia).
    eval_model. lra.
Qed.

Lemma nitrogen_engine_validated (RU : R) : validated_engine RU nitrogen_engine.
Proof. exact (validated_by_ctor RU nitrogen 0 [dissociation] _ nitrogen_ctor). Qed.

Lemma nitrogen_weights : weights_from_elements (m_thermo nitrogen_engine) (fun _ => 14).
Proof.
  intros sp Hsp. change (m_thermo nitrogen_engine) with nitrogen in *.
  assert (Hcase : sp = 0%N \/ sp = 1%N)
    by (unfold nSpecies in Hsp; simpl in Hsp; lia).
  destruct Hcase as [-> | ->]; eval_model; lra.
Qed.

Lemma nitrogen_irr_engine_sealed (RU : R) : sealed_engine RU nitrogen_irr_engine.
Proof.
  apply (sealed_by_close RU false nitrogen 0 [dissociation_irr]). reflexivity.
Qed.

(* ================================================================= *)
(** ** Mass action in the rates of progress *)

(** X1, forward mass action: for every reaction [r] of a sealed engine,
    [forwardRatesOfProgress] returns the forward rate coefficient times the
    product of the reactant concentrations (one factor per occurrence),
    scaled by the third-body factor; when the call recomputes the cache the
    coefficient is the exponential of the reaction's rate law at [T]. *)
Theorem forward_rate_is_mass_action (RU : R) (k : Kinetics) (T : R)
    (conc : RealVector) (r : N) (rx : Reaction) :
  sealed_engine RU k -> at_index (m_reactions k) r = Some rx ->
  vget (fst (forwardRatesOfProgress RU T conc k)) r
  = thirdbody_scale (m_thermo k) conc rx
      (exp (vget (m_lnkf (updateT RU T k)) r)
       * incidence_prod conc (reactant_indices (m_thermo k) rx))
  /\ (1.0E-6 <= Rabs (T - m_T_last k) ->
      vget (m_lnkf (updateT RU T k)) r = rateLaw rx T).
Proof.
  intros Hk Hr. apply sealed_engine_inv in Hk.
  pose proof (updateT_inv RU T k Hk) as H1.
  destruct (updateT_frame RU T k) as (Frx & Fth & _).
  destruct (sealed_lengths RU T k Hk) as (Hlen & Hq & Hf).
  pose proof (si_lnkf _ H1) as Lf. pose proof (si_loaded _ H1) as Hl.
  assert (Hr1 : at_index (m_reactions (updateT RU T k)) r = Some rx)
    by (now rewrite Frx).
  split.
  - unfold forwardRatesOfProgress, forwardRateCoefficients. cbn [fst].
    rewrite (multiplyThirdbodies_at _ conc _ r rx Hl)
      by (rewrite ?multReactions_length, ?vexp_length; assumption).
    rewrite (multReactions_reactants_at _ conc _ r rx Hl)
      by (rewrite ?vexp_length; assumption).
    rewrite Fth, vget_vexp; [reflexivity|].
    rewrite Lf. now apply at_index_Some_lt in Hr1.
  - intros HT. rewrite updateT_stale by lra. cbn [set_cache m_lnkf].
    rewrite (lnForwardRateCoefficients_sealed k T Hk).
    now apply (vget_map_at (fun rx0 => rateLaw rx0 T)).
Qed.

(** X2, net rate of a reversible reaction: for every reversible reaction
    [r] of a sealed engine, [netRatesOfProgress] returns the forward
    mass-action term minus the backward one (backward coefficient times the
    product of the product concentrations), scaled once by the third-body
    factor. *)
Theorem reversible_net_rate (RU : R) (k : Kinetics) (T : R)
    (conc : RealVector) (r : N) (rx : Reaction) :
  sealed_engine RU k -> at_index (m_reactions k) r = Some rx ->
  isReversible rx = true ->
  let k1 := updateT RU T k in
  vget (fst (netRatesOfProgress RU T conc k)) r
  = thirdbody_scale (m_thermo k) conc rx
      (exp (vget (m_lnkf k1) r)
       * incidence_prod conc (reactant_indices (m_thermo k) rx)
       - exp (vget (m_lnkf k1) r - vget (m_lnkeq k1) r)
         * incidence_prod conc (product_indices (m_thermo k) rx)).
Proof.
  intros Hk Hr Hrev. apply sealed_engine_inv in Hk. cbv zeta.
  pose proof (updateT_inv RU T k Hk) as H1.
  destruct (updateT_frame RU T k) as (Frx & Fth & _).
  destruct (sealed_lengths RU T k Hk) as (Hlen & Hq & Hf).
  pose proof (si_lnkf _ H1) as Lf. pose proof (si_lnkeq _ H1) as Lq.
  pose proof (si_loaded _ H1) as Hl.
  assert (Hr1 : at_index (m_reactions (updateT RU T k)) r = Some rx)
    by (now rewrite Frx).
  assert (Hrn : (r < N.of_nat (List.length (m_lnkeq (updateT RU T k))))%N).
  { rewrite Lq. now apply at_index_Some_lt in Hr1. }
  unfold netRatesOfProgress, backwardRateCoefficients, forwardRateCoefficients.
  cbn [fst]. rewrite updateT_idem.
  rewrite (multiplyThirdbodies_at _ conc _ r rx Hl)
    by (rewrite ?vsub_length; rewrite ?multReactions_length, ?vexp_length,
          ?vsub_length; congruence).
  rewrite vget_vsub
    by (rewrite ?multReactions_length, ?vexp_length, ?vsub_length; congruence).
  rewrite (multReactions_reactants_at _ conc _ r rx Hl)
    by (rewrite ?vexp_length; assumption).
  rewrite (multReactions_rev_prods_at _ conc _ r rx Hl)
    by (rewrite ?vexp_length, ?vsub_length; assumption).
  rewrite Hrev, Fth, vget_exp_vsub by assumption.
  rewrite vget_vexp by (rewrite Hlen; assumption). reflexivity.
Qed.

(* ================================================================= *)
(** ** The three rates of progress together *)

Lemma thirdbody_scale_minus (th : Thermodynamics) (conc : RealVector)
    (rx : Reaction) (a b : R) :
  thirdbody_scale th conc rx (a - b)
  = thirdbody_scale th conc rx a - thirdbody_scale th conc rx b.
Proof. unfold thirdbody_scale. destruct (isThirdbody rx); lra. Qed.

(** Two vectors of the same length with the same entries are the same. *)
Lemma vget_ext (u v : RealVector) :
  List.length u = List.length v ->
  (forall i, (i < N.of_nat (List.length u))%N -> vget u i = vget v i) -> u = v.
Proof.
  revert v; induction u as [|x u IH]; intros [|y v] Hlen H; try discriminate;
    [reflexivity|].
  f_equal.
  - apply (H 0%N). cbn [List.length]. lia.
  - apply IH; [cbn [List.length] in Hlen; lia|]. intros i Hi.
    specialize (H (N.succ i)). cbn [vget List.length] in H.
    destruct (N.eqb_spec (N.succ i) 0); [lia|].
    rewrite N.pred_succ in H. apply H. lia.
Qed.

Lemma vget_map (g : R -> R) (v : RealVector) (j : N) :
  (j < N.of_nat (List.length v))%N -> vget (map g v) j = g (vget v j).
Proof.
  revert j; induction v as [|x v IH]; intros j; cbn [map vget List.length]; [lia|].
  intros H. destruct (N.eqb_spec j 0); [reflexivity|]. apply IH. lia.
Qed.



(** The three rates of progress of one reaction, in closed form. *)
Lemma rates_of_progress_at (RU : R) (k : Kinetics) (T : R) (conc : RealVector)
    (r : N) (rx : Reaction) :
  sealed_inv k -> at_index (m_reactions k) r = Some rx ->
  let k1 := updateT RU T k in
  let th := m_thermo k in
  let F := exp (vget (m_lnkf k1) r) * incidence_prod conc (reactant_indices th rx) in
  let kb := exp (vget (m_lnkf k1) r - vget (m_lnkeq k1) r) in
  let B := if isReversible rx
           then kb * incidence_prod conc (product_indices th rx) else kb in
  vget (fst (forwardRatesOfProgress RU T conc k)) r = thirdbody_scale th conc rx F
  /\ vget (fst (backwardRatesOfProgress RU T conc k)) r = thirdbody_scale th conc rx B
  /\ vget (fst (netRatesOfProgress RU T conc k)) r
     = thirdbody_scale th conc rx (F - B).
Proof.
  intros Hk Hr. cbv zeta.
  pose proof (updateT_inv RU T k Hk) as H1.
  destruct (updateT_frame RU T k) as (Frx & Fth & _).
  destruct (sealed_lengths RU T k Hk) as (Hlen & Hq & Hf).
  pose proof (si_lnkf _ H1) as Lf. pose proof (si_lnkeq _ H1) as Lq.
  pose proof (si_loaded _ H1) as Hl.
  assert (Hr1 : at_index (m_reactions (updateT RU T k)) r = Some rx)
    by (now rewrite Frx).
  assert (Hrn : (r < N.of_nat (List.length (m_lnkeq (updateT RU T k))))%N).
  { rewrite Lq. now apply at_index_Some_lt in Hr1. }
  split; [|split].
  - unfold forwardRatesOfProgress, forwardRateCoefficients. cbn [fst].
    rewrite (multiplyThirdbodies_at _ conc _ r rx Hl)
      by (rewrite ?multReactions_length, ?vexp_length; assumption).
    rewrite (multReactions_reactants_at _ conc _ r rx Hl)
      by (rewrite ?vexp_length; assumption).
    rewrite Fth, vget_vexp by (rewrite Hlen; assumption). reflexivity.
  - unfold backwardRatesOfProgress, backwardRateCoefficients. cbn [fst].
    rewrite (multiplyThirdbodies_at _ conc _ r rx Hl)
      by (rewrite ?multReactions_length, ?vexp_length, ?vsub_length; assumption).
    rewrite (multReactions_rev_prods_at _ conc _ r rx Hl)
      by (rewrite ?vexp_length, ?vsub_length; assumption).
    rewrite Fth, vget_exp_vsub by assumption.
    destruct (isReversible rx); reflexivity.
  - unfold netRatesOfProgress, backwardRateCoefficients, forwardRateCoefficients.
    cbn [fst]. rewrite updateT_idem.
    rewrite (multiplyThirdbodies_at _ conc _ r rx Hl)
      by (rewrite ?vsub_length; rewrite ?multReactions_length, ?vexp_length,
            ?vsub_length; congruence).
    rewrite vget_vsub
      by (rewrite ?multReactions_length, ?vexp_length, ?vsub_length; congruence).
    rewrite (multReactions_reactants_at _ conc _ r rx Hl)
      by (rewrite ?vexp_length; assumption).
    rewrite (multReactions_rev_prods_at _ conc _ r rx Hl)
      by (rewrite ?vexp_length, ?vsub_length; assumption).
    rewrite Fth, vget_exp_vsub by assumption.
    rewrite vget_vexp by (rewrite Hlen; assumption).
    destruct (isReversible rx); reflexivity.
Qed.

Lemma rates_of_progress_length (RU : R) (k : Kinetics) (T : R) (conc : RealVector) :
  sealed_inv k ->
  List.length (fst (forwardRatesOfProgress RU T conc k)) = List.length (m_reactions k)
  /\ List.length (fst (backwardRatesOfProgress RU T conc k))
     = List.length (m_reactions k)
  /\ List.length (fst (netRatesOfProgress RU T conc k)) = List.length (m_reactions k).
Proof.
  intros Hk. pose proof (updateT_inv RU T k Hk) as H1.
  destruct (updateT_frame RU T k) as (Frx & _ & _).
  pose proof (si_lnkf _ H1) as Lf. pose proof (si_lnkeq _ H1) as Lq.
  rewrite Frx in Lf, Lq.
  unfold forwardRatesOfProgress, backwardRatesOfProgress, netRatesOfProgress,
    backwardRateCoefficients, forwardRateCoefficients. cbn [fst].
  rewrite ?updateT_idem.
  split; [|split];
    rewrite ?multiplyThirdbodies_length, ?multReactions_length, ?vexp_length.
  - exact Lf.
  - rewrite vsub_length; congruence.
  - rewrite vsub_length;
      rewrite ?multReactions_length, ?vexp_length; rewrite ?vsub_length; congruence.
Qed.

(** X3, the net rate is the forward rate minus the backward rate: for a
    sealed engine the vector returned by [netRatesOfProgress] is, entry by
    entry, the vector returned by [forwardRatesOfProgress] minus the one
    returned by [backwardRatesOfProgress] at the same temperature and
    concentrations, third-body reactions and irreversible reactions
    included. *)
Theorem net_rate_is_forward_minus_backward (RU : R) (k : Kinetics) (T : R)
    (conc : RealVector) :
  sealed_engine RU k ->
  fst (netRatesOfProgress RU T conc k)
  = vsub (fst (forwardRatesOfProgress RU T conc k))
         (fst (backwardRatesOfProgress RU T conc k)).
Proof.
  intros Hk. apply sealed_engine_inv in Hk.
  destruct (rates_of_progress_length RU k T conc Hk) as (Lf & Lb & Ln).
  apply vget_ext.
  - rewrite vsub_length; congruence.
  - intros i Hi. rewrite Ln in Hi.
    destruct (at_index_lt (m_reactions k) i Hi) as [rx Hrx].
    destruct (rates_of_progress_at RU k T conc i rx Hk Hrx) as (Ef & Eb & En).
    rewrite vget_vsub by congruence.
    rewrite En, Ef, Eb. apply thirdbody_scale_minus.
Qed.

(* ================================================================= *)
(** ** What a rate call reads and writes *)

Lemma updateT_set_rop (RU T : R) (k : Kinetics) (f b r : RealVector) :
  updateT RU T (set_rop k f b r) = set_rop (updateT RU T k) f b r.
Proof.
  unfold updateT. cbn [set_rop m_T_last]. destruct (Rlt_dec _ _); reflexivity.
Qed.

Lemma call_updateT (RU : R) (c : RateCall) (T : R) (k : Kinetics) :
  call RU c T (updateT RU T k) = call RU c T k.
Proof.
  destruct (updateT_frame RU T k) as (_ & Fth & _).
  destruct c; cbn [call];
    unfold netProductionRates, netRatesOfProgress, forwardRatesOfProgress,
      backwardRatesOfProgress, backwardRateCoefficients, forwardRateCoefficients,
      equilibriumConstants; cbv beta iota zeta;
    rewrite ?Fth, ?updateT_idem; reflexivity.
Qed.

(** The value a rate call returns does not read the work arrays. *)
Lemma call_fst_set_rop (RU : R) (c : RateCall) (T : R) (k : Kinetics)
    (f b r : RealVector) :
  fst (call RU c T (set_rop k f b r)) = fst (call RU c T k).
Proof.
  destruct c; cbn [call];
    unfold netProductionRates, netRatesOfProgress, forwardRatesOfProgress,
      backwardRatesOfProgress, backwardRateCoefficients, forwardRateCoefficients,
      equilibriumConstants; cbv beta iota zeta;
    rewrite ?updateT_set_rop; rewrite ?updateT_set_rop; reflexivity.
Qed.

(** X4, a rate call returns the same value whatever rate call at the same
    temperature came before it: the value of [c2] at [T] on the engine left
    by [c1] at [T] is the value of [c2] at [T] on the engine before [c1];
    and repeating a call changes nothing more in the engine. *)
Theorem calls_at_one_temperature_agree (RU : R) (c1 c2 : RateCall) (T : R)
    (k : Kinetics) :
  fst (call RU c2 T (snd (call RU c1 T k))) = fst (call RU c2 T k)
  /\ snd (call RU c1 T (snd (call RU c1 T k))) = snd (call RU c1 T k).
Proof.
  split.
  - destruct (call_state RU c1 T k) as (f & b & r & ->).
    rewrite call_fst_set_rop. now rewrite call_updateT.
  - destruct (updateT_frame RU T k) as (_ & Fth & _).
    destruct c1; cbn [call];
      unfold netProductionRates, netRatesOfProgress, forwardRatesOfProgress,
        backwardRatesOfProgress, backwardRateCoefficients, forwardRateCoefficients,
        equilibriumConstants; cbv beta iota zeta; cbn [snd fst];
      rewrite ?updateT_idem; rewrite ?updateT_set_rop; rewrite ?updateT_idem;
      cbn [set_rop m_thermo]; rewrite ?Fth; reflexivity.
Qed.

(** X5, what a rate call never changes: the number of reactions, the
    mixture, the reaction records, the three stoichiometry managers, the
    third-body manager, the rate manager and [dnu] are the same after any
    rate call; the calls other than [netRatesOfProgress] and
    [netProductionRates] leave the engine exactly as [updateT] leaves it,
    and [netRatesOfProgress] does not write [m_rop]. *)
Theorem rate_calls_keep_mechanism (RU : R) (c : RateCall) (T : R) (k : Kinetics) :
  let k' := snd (call RU c T k) in
  m_num_rxns k' = m_num_rxns k /\ m_thermo k' = m_thermo k
  /\ m_reactions k' = m_reactions k /\ m_reactants k' = m_reactants k
  /\ m_rev_prods k' = m_rev_prods k /\ m_irr_prods k' = m_irr_prods k
  /\ m_thirdbodies k' = m_thirdbodies k /\ m_rates k' = m_rates k
  /\ m_dnu k' = m_dnu k
  /\ match c with
     | CallNetRatesOfProgress _ => m_rop k' = m_rop k
     | CallNetProductionRates _ => True
     | _ => k' = updateT RU T k
     end.
Proof.
  cbv zeta.
  assert (Hlast : match c with
                  | CallNetRatesOfProgress _ =>
                      m_rop (snd (call RU c T k)) = m_rop k
                  | CallNetProductionRates _ => True
                  | _ => snd (call RU c T k) = updateT RU T k
                  end).
  { destruct c; cbn [call]; try reflexivity; try exact I.
    unfold netRatesOfProgress, backwardRateCoefficients, forwardRateCoefficients.
    cbv beta iota zeta. cbn [snd set_rop m_rop]. rewrite updateT_idem.
    unfold updateT. destruct (Rlt_dec _ _); reflexivity. }
  destruct (call_state RU c T k) as (f & b & r & E).
  rewrite E in *. cbn [set_rop m_num_rxns m_thermo m_reactions m_reactants
                         m_rev_prods m_irr_prods m_thirdbodies m_rates m_dnu].
  unfold updateT at 1 2 3 4 5 6 7 8 9.
  destruct (Rlt_dec _ _); cbn [set_cache m_num_rxns m_thermo m_reactions m_reactants
                         m_rev_prods m_irr_prods m_thirdbodies m_rates m_dnu];
    repeat (split; [reflexivity|]); exact Hlast.
Qed.

(* ================================================================= *)
(** ** Rate coefficients and the Jacobian entry point *)


Lemma map_range_vget (g : R -> R) (v : RealVector) (n : N) :
  N.of_nat (List.length v) = n ->
  map (fun i => g (vget v i)) (range 0 n) = map g v.
Proof.
  intros Hn. apply vget_ext.
  - rewrite !length_map, range_length. lia.
  - intros i Hi. rewrite length_map, range_length in Hi.
    rewrite (vget_map_range (fun i => g (vget v i))) by lia.
    rewrite vget_map by lia. reflexivity.
Qed.

(** X7, the Jacobian is evaluated at the engine's rate coefficients: for a
    sealed engine [jacobianRho] hands to [computeJacobian] exactly the
    vector [forwardRateCoefficients] returns at [T], the vector
    [backwardRateCoefficients] returns at [T] and the caller's
    concentrations, and it leaves the engine as [updateT] leaves it. *)
Theorem jacobian_uses_rate_coefficients (RU : R)
    (computeJacobian : Thermodynamics -> list Reaction -> RealVector ->
                       RealVector -> RealVector -> RealVector)
    (k : Kinetics) (T : R) (conc : RealVector) :
  sealed_engine RU k ->
  jacobianRho RU computeJacobian T conc k
  = (computeJacobian (m_thermo k) (m_reactions k)
       (fst (forwardRateCoefficients RU T k))
       (fst (backwardRateCoefficients RU T k)) conc,
     updateT RU T k).
Proof.
  intros Hk. apply sealed_engine_inv in Hk.
  destruct (sealed_lengths RU T k Hk) as (Hlen & Hq & Hf).
  destruct (updateT_frame RU T k) as (Frx & Fth & Fn).
  unfold jacobianRho, forwardRateCoefficients, backwardRateCoefficients.
  cbv zeta. cbn [fst]. rewrite Frx, Fth, Fn. f_equal. f_equal.
  - apply (map_range_vget exp). exact Hf.
  - apply vget_ext.
    + rewrite length_map, range_length, vexp_length, vsub_length by exact Hlen. lia.
    + intros i Hi. rewrite length_map, range_length in Hi.
      rewrite (vget_map_range
                 (fun i => exp (vget (m_lnkf (updateT RU T k)) i
                                - vget (m_lnkeq (updateT RU T k)) i))) by lia.
      rewrite vget_exp_vsub by (rewrite ?Hq; try assumption; lia). reflexivity.
Qed.

(* ================================================================= *)
(** ** What [addReaction] registers *)


(** X8, what loading registers: after the reactions of a mechanism were
    added one by one to a new engine, [m_num_rxns] is their number, and the
    managers hold, under the position [j] of each reaction and under no
    other index: its reactant indices; its product indices, in the
    reversible-product manager when it is reversible and in the
    irreversible one otherwise, never in both; its third-body efficiencies
    when it is a third-body reaction; and its rate law. *)
Theorem addReaction_registers (th : Thermodynamics) (T_last0 : R)
    (rxns : list Reaction) (j : N) :
  let k := addReactions rxns (Kinetics_new th T_last0) in
  m_num_rxns k = N.of_nat (List.length rxns) /\ m_reactions k = rxns
  /\ (forall sps, In (j, sps) (m_reactants k) <->
        exists rx, at_index rxns j = Some rx
                   /\ sps = speciesIndices th (reactants rx))
  /\ (forall sps, In (j, sps) (m_rev_prods k) <->
        exists rx, at_index rxns j = Some rx /\ isReversible rx = true
                   /\ sps = speciesIndices th (products rx))
  /\ (forall sps, In (j, sps) (m_irr_prods k) <->
        exists rx, at_index rxns j = Some rx /\ isReversible rx = false
                   /\ sps = speciesIndices th (products rx))
  /\ (forall effs, In (j, effs) (m_thirdbodies k) <->
        exists rx, at_index rxns j = Some rx /\ isThirdbody rx = true
                   /\ effs = thirdbodyEffs th (efficiencies rx))
  /\ (forall law, In (j, law) (m_rates k) <->
        exists rx, at_index rxns j = Some rx /\ law = rateLaw rx).
Proof.
  intros k. destruct (addReactions_new th T_last0 rxns) as (Hl & Hr & Ht & _ & Hn).
  fold k in Hl, Hr, Ht, Hn.
  split; [exact Hn|]. split; [exact Hr|].
  rewrite (ld_reactants k Hl), (ld_rev_prods k Hl), (ld_irr_prods k Hl),
    (ld_thirdbodies k Hl), (ld_rates k Hl), Hr, Ht.
  unfold reactant_indices, product_indices.
  split; [|split; [|split; [|split]]]; intros a; rewrite entries_at_0;
    split; intros (rx & Hat & H); exists rx; (split; [exact Hat|]).
  - now injection H as <-.
  - now subst a.
  - destruct (isReversible rx); [|discriminate]. injection H as <-. auto.
  - destruct H as [-> ->]. reflexivity.
  - destruct (isReversible rx); [discriminate|]. injection H as <-. auto.
  - destruct H as [-> ->]. reflexivity.
  - destruct (isThirdbody rx); [|discriminate]. injection H as <-. auto.
  - destruct H as [-> ->]. reflexivity.
  - now injection H as <-.
  - now subst a.
Qed.

(* ================================================================= *)
(** ** Subscripts of a validated engine *)

Lemma ctor_thirdbodies (th : Thermodynamics) (T_last0 : R) (rxns : list Reaction)
    (k : Kinetics) :
  Kinetics_ctor th T_last0 rxns = Sealed k ->
  forall r, In r (m_reactions k) -> thirdbodies_exist (m_thermo k) r.
Proof.
  unfold Kinetics_ctor. intros Hclose.
  destruct (addReactions_new th T_last0 rxns) as (Hl & Hr & Ht & _ & Hn).
  set (k0 := addReactions rxns (Kinetics_new th T_last0)) in *.
  pose proof (closeReactions_Sealed _ _ _ Hclose) as ->.
  apply closeReactions_true_Sealed, validate_nil in Hclose.
  destruct Hclose as (Hsp & _ & _).
  cbn [seal m_reactions m_thermo]. intros r Hin Htb name Hname.
  apply (proj1 (checkSpecies_nil k0 (ld_num k0 Hl)) Hsp r name Hin).
  unfold names_checked. rewrite Htb, !in_app_iff. auto.
Qed.

Lemma validated_thirdbodies (RU : R) (k : Kinetics) :
  validated_engine RU k ->
  forall r, In r (m_reactions k) -> thirdbodies_exist (m_thermo k) r.
Proof.
  induction 1 as [th T0 rxns k H|c T k _ IH|g k _ IH].
  - eapply ctor_thirdbodies; eauto.
  - destruct (call_state RU c T k) as (f & b & r & ->).
    cbn [set_rop m_reactions m_thermo].
    destruct (updateT_frame RU T k) as (-> & -> & _). exact IH.
  - exact IH.
Qed.

(** X9, validation keeps every subscript in range: on an engine whose
    mechanism passed validation, every entry of the three stoichiometry
    managers and of the third-body manager is filed under a reaction index
    below [m_num_rxns], and every species index it holds is below the
    number of species of the mixture. *)
Theorem validated_indices_in_range (RU : R) (k : Kinetics) :
  validated_engine RU k ->
  (forall j sps sp,
      In (j, sps) (m_reactants k) \/ In (j, sps) (m_rev_prods k)
      \/ In (j, sps) (m_irr_prods k) ->
      In sp sps -> (j < m_num_rxns k)%N /\ (sp < nSpecies (m_thermo k))%N)
  /\ (forall j effs sp e,
         In (j, effs) (m_thirdbodies k) -> In (sp, e) effs ->
         (j < m_num_rxns k)%N /\ (sp < nSpecies (m_thermo k))%N).
Proof.
  intros Hk. pose proof (validated_thirdbodies RU k Hk) as Htb.
  apply validated_engine_inv in Hk.
  pose proof (si_loaded k (vi_sealed k Hk)) as Hl.
  pose proof (ld_num k Hl) as Hn.
  assert (Hside : forall rx (side : Reaction -> list string) sp,
             In rx (m_reactions k) ->
             (forall name, In name (side rx) ->
                           In name (reactants rx ++ products rx)) ->
             In sp (speciesIndices (m_thermo k) (side rx)) ->
             (sp < nSpecies (m_thermo k))%N).
  { intros rx side sp Hrx Hs Hsp. apply in_map_iff in Hsp.
    destruct Hsp as (name & <- & Hname).
    apply speciesIndex_valid. apply (vi_species k Hk rx Hrx). auto. }
  split.
  - intros j sps sp Hin Hsp.
    rewrite (ld_reactants k Hl), (ld_rev_prods k Hl), (ld_irr_prods k Hl) in Hin.
    rewrite !entries_at_0 in Hin.
    destruct Hin as [(rx & Hat & H)|[(rx & Hat & H)|(rx & Hat & H)]];
      (split; [apply at_index_Some_lt in Hat; lia|]);
      pose proof (at_index_In _ _ _ Hat) as Hrx.
    + injection H as <-. apply (Hside rx reactants sp Hrx); [|exact Hsp].
      intros; rewrite in_app_iff; auto.
    + destruct (isReversible rx); [|discriminate]. injection H as <-.
      apply (Hside rx products sp Hrx); [|exact Hsp].
      intros; rewrite in_app_iff; auto.
    + destruct (isReversible rx); [discriminate|]. injection H as <-.
      apply (Hside rx products sp Hrx); [|exact Hsp].
      intros; rewrite in_app_iff; auto.
  - intros j effs sp e Hin Hsp.
    rewrite (ld_thirdbodies k Hl), entries_at_0 in Hin.
    destruct Hin as (rx & Hat & H).
    split; [apply at_index_Some_lt in Hat; lia|].
    pose proof (at_index_In _ _ _ Hat) as Hrx.
    destruct (isThirdbody rx) eqn:Etb; [|discriminate]. injection H as <-.
    unfold thirdbodyEffs in Hsp. apply in_map_iff in Hsp.
    destruct Hsp as (p & [= <- _] & Hp).
    apply speciesIndex_valid. apply (Htb rx Hrx Etb). now apply in_map.
Qed.

Lemma nitrogen_tb_ctor :
  Kinetics_ctor nitrogen 0 [dissociation_tb] = Sealed nitrogen_tb_engine.
Proof.
  apply ctor_sealed.
  - discriminate.
  - intros r name [<-|[]] Hname. simpl in Hname.
    destruct Hname as [<-|[<-|[<-|[<-|[]]]]]; unfold speciesIndex; simpl; lia.
  - intros i j ri rj (Hij & Hi & Hj & _).
    apply at_index_Some_lt in Hj. simpl in Hj. lia.
  - intros e r He [<-|[]].
    assert (e = 0%N) as -> by (unfold nElements in He; simpl in He; lia).
    eval_model. lra.
Qed.

(* ================================================================= *)
(** ** The production rate of one species *)

Lemma vget_app_length (pre : RealVector) (x : R) (post : RealVector) :
  vget (pre ++ x :: post) (N.of_nat (List.length pre)) = x.
Proof.
  induction pre as [|y t IH]; [reflexivity|].
  cbn [List.length app vget].
  destruct (N.eqb_spec (N.of_nat (S (List.length t))) 0); [lia|].
  rewrite Nat2N.inj_succ, N.pred_succ. exact IH.
Qed.

(** A sum over the entries of a manager, written as a sum over the
    reactions and their values. *)
Lemma entries_sum_zip {A : Type} (f : Reaction -> option A) (h : A -> R)
    (rxns : list Reaction) (pre r0 : RealVector) :
  List.length r0 = List.length rxns ->
  Rsum (map (fun e => vget (pre ++ r0) (fst e) * h (snd e))
            (entries f (N.of_nat (List.length pre)) rxns))
  = Rsum (zip_with (fun x rx => match f rx with Some a => x * h a | None => 0 end)
                   r0 rxns).
Proof.
  revert pre r0; induction rxns as [|r t IH]; intros pre r0 Hlen.
  - destruct r0; [reflexivity|discriminate].
  - destruct r0 as [|x r0]; [discriminate|]. cbn [entries zip_with].
    assert (Hs : N.succ (N.of_nat (List.length pre))
                 = N.of_nat (List.length (pre ++ [x]))).
    { rewrite length_app. simpl. lia. }
    assert (Happ : pre ++ x :: r0 = (pre ++ [x]) ++ r0)
      by (now rewrite <- app_assoc).
    specialize (IH (pre ++ [x]) r0). rewrite <- Hs, <- Happ in IH.
    assert (Hl : List.length r0 = List.length t) by (simpl in Hlen; lia).
    specialize (IH Hl). unfold Rsum in *.
    destruct (f r) as [a|]; cbn [map fold_right fst snd]; rewrite IH.
    + now rewrite vget_app_length.
    + lra.
Qed.

Lemma species_dot_indicator (ns : N) (v : RealVector) (sp : N) :
  (sp < ns)%N ->
  species_dot ns v (fun i => if (i =? sp)%N then 1 else 0) = vget v sp.
Proof.
  intros H. unfold species_dot.
  rewrite (Rsum_map_ext _ (fun i => if (i =? sp)%N then vget v i else 0)).
  - exact (Rsum_pick_range (vget v) sp ns H).
  - intros i _. destruct (i =? sp)%N; lra.
Qed.

(** Occurrences of species [sp] among the indices of a side. *)
Lemma indicator_count (th : Thermodynamics) (sp : N) (names : list string) :
  NoDup (speciesNames th) ->
  (forall name, In name names -> (0 <= speciesIndex th name)%Z) ->
  (sp < nSpecies th)%N ->
  Rsum (map (fun i => if (i =? sp)%N then 1 else 0) (speciesIndices th names))
  = IZR (count_name (speciesName th sp) names).
Proof.
  intros Hnd Hex Hsp. unfold speciesIndices. rewrite map_map.
  rewrite (incidence_sum_by_species th (fun i => if (i =? sp)%N then 1 else 0)
             names Hnd Hex).
  rewrite (Rsum_map_ext _
             (fun k => if (k =? sp)%N
                       then IZR (count_name (speciesName th k) names) else 0)).
  - exact (Rsum_pick_range (fun k => IZR (count_name (speciesName th k) names))
             sp (nSpecies th) Hsp).
  - intros i _. destruct (i =? sp)%N; lra.
Qed.

Lemma zip_sums_net (th : Thermodynamics) (sp : N) (rxns : list Reaction)
    (rop : RealVector) :
  NoDup (speciesNames th) -> (sp < nSpecies th)%N ->
  (forall rx, In rx rxns -> species_exist th rx) ->
  let h := fun a : list N => Rsum (map (fun i => if (i =? sp)%N then 1 else 0) a) in
  Rsum (zip_with (fun x rx =>
                    match (if isReversible rx
                           then None else Some (product_indices th rx)) with
                    | Some a => x * h a | None => 0 end) rop rxns)
  + (Rsum (zip_with (fun x rx =>
                       match (if isReversible rx
                              then Some (product_indices th rx) else None) with
                       | Some a => x * h a | None => 0 end) rop rxns)
     - Rsum (zip_with (fun x rx =>
                         match Some (reactant_indices th rx) with
                         | Some a => x * h a | None => 0 end) rop rxns))
  = Rsum (zip_with (fun q rx => IZR (net_coefficient th rx sp) * q) rop rxns).
Proof.
  intros Hnd Hsp Hex h. revert rop.
  induction rxns as [|r t IH]; intros rop.
  - destruct rop; simpl; lra.
  - destruct rop as [|x rop]; [simpl; lra|].
    specialize (IH (fun rx Hrx => Hex rx (or_intror Hrx)) rop).
    pose proof (Hex r (or_introl eq_refl)) as Hr.
    assert (HP : h (product_indices th r)
                 = IZR (count_name (speciesName th sp) (products r))).
    { apply indicator_count; try assumption.
      intros name Hn. apply Hr. rewrite in_app_iff; auto. }
    assert (HR : h (reactant_indices th r)
                 = IZR (count_name (speciesName th sp) (reactants r))).
    { apply indicator_count; try assumption.
      intros name Hn. apply Hr. rewrite in_app_iff; auto. }
    cbn [zip_with]. unfold Rsum in *. cbn [fold_right]. rewrite <- IH.
    unfold net_coefficient, product, reactant. rewrite minus_IZR, <- HP, <- HR.
    destruct (isReversible r); lra.
Qed.

(** The three scatters of [netProductionRates], read at one species. *)
Lemma scattered_rate_at (k : Kinetics) (rop : RealVector) (sp : N) :
  validated_inv k -> NoDup (speciesNames (m_thermo k)) ->
  List.length rop = List.length (m_reactions k) ->
  (sp < nSpecies (m_thermo k))%N ->
  vget (incrSpecies (m_irr_prods k) rop
          (incrSpecies (m_rev_prods k) rop
             (decrSpecies (m_reactants k) rop (vzero (nSpecies (m_thermo k))))))
       sp
  = Rsum (zip_with (fun q rx => IZR (net_coefficient (m_thermo k) rx sp) * q)
                   rop (m_reactions k)).
Proof.
  intros Hv Hnd Hlen Hsp. pose proof (si_loaded k (vi_sealed k Hv)) as Hl.
  set (th := m_thermo k) in *. set (ns := nSpecies th) in *.
  set (w := fun i : N => if (i =? sp)%N then 1 else 0).
  assert (Hreact : forall r, In r (m_reactions k) -> forall name,
             In name (reactants r) -> (0 <= speciesIndex th name)%Z).
  { intros r Hr name Hn. apply (vi_species k Hv r Hr). rewrite in_app_iff; auto. }
  assert (Hprod : forall r, In r (m_reactions k) -> forall name,
             In name (products r) -> (0 <= speciesIndex th name)%Z).
  { intros r Hr name Hn. apply (vi_species k Hv r Hr). rewrite in_app_iff; auto. }
  rewrite <- (species_dot_indicator ns _ sp Hsp). fold w.
  unfold incrSpecies, decrSpecies.
  destruct (species_dot_scatter ns w
              (fun e x => x - vget rop (fst e)) (fun e => - vget rop (fst e))
              (m_reactants k) (vzero ns)) as [E1 L1].
  { rewrite vzero_length. lia. }
  { rewrite (ld_reactants k Hl). intros e s.
    apply (manager_species_valid th reactants _ (m_reactions k) e s Hreact).
    intros r a [= <-]. reflexivity. }
  { intros; lra. }
  destruct (species_dot_scatter ns w
              (fun e x => x + vget rop (fst e)) (fun e => vget rop (fst e))
              (m_rev_prods k) _ L1) as [E2 L2].
  { rewrite (ld_rev_prods k Hl). intros e s.
    apply (manager_species_valid th products _ (m_reactions k) e s Hprod).
    intros r a. destruct (isReversible r); [intros [= <-]; reflexivity|discriminate]. }
  { intros; lra. }
  destruct (species_dot_scatter ns w
              (fun e x => x + vget rop (fst e)) (fun e => vget rop (fst e))
              (m_irr_prods k) _ L2) as [E3 _].
  { rewrite (ld_irr_prods k Hl). intros e s.
    apply (manager_species_valid th products _ (m_reactions k) e s Hprod).
    intros r a. destruct (isReversible r); [discriminate|intros [= <-]; reflexivity]. }
  { intros; lra. }
  rewrite E3, E2, E1, species_dot_vzero.
  rewrite (Rsum_map_ext (fun e => - vget rop (fst e) * Rsum (map w (snd e)))
             (fun e => - (vget rop (fst e) * Rsum (map w (snd e)))))
    by (intros; lra).
  rewrite Rsum_map_opp.
  pose proof (ld_reactants k Hl) as HR. pose proof (ld_rev_prods k Hl) as HV.
  pose proof (ld_irr_prods k Hl) as HI. fold th in HR, HV, HI.
  rewrite HR, HV, HI.
  pose proof (fun (f : Reaction -> option (list N)) =>
                entries_sum_zip f (fun a => Rsum (map w a)) (m_reactions k) [] rop Hlen)
    as Hz.
  cbn [app List.length N.of_nat] in Hz. rewrite !Hz.
  pose proof (zip_sums_net th sp (m_reactions k) rop Hnd Hsp (vi_species k Hv)) as Hnet.
  cbv zeta in Hnet. fold w in Hnet. cbv beta in Hnet. cbv beta. lra.
Qed.

(** X10, the production rate of one species: on an engine whose mechanism
    passed validation, over a mixture whose species names are distinct,
    the entry of [netProductionRates] for species [sp] is the molecular
    weight of [sp] times the sum over the reactions of the net
    stoichiometric coefficient of [sp] (occurrences among the products
    minus occurrences among the reactants) times the net rate of progress
    of the reaction, as [netRatesOfProgress] returns it for the first
    [nSpecies] concentrations. *)
Theorem species_production_rate (RU : R) (k : Kinetics) (T : R)
    (p_conc : RealVector) (sp : N) :
  validated_engine RU k -> NoDup (speciesNames (m_thermo k)) ->
  (sp < nSpecies (m_thermo k))%N ->
  let th := m_thermo k in
  let conc := map (vget p_conc) (range 0 (nSpecies th)) in
  let rop := fst (netRatesOfProgress RU T conc k) in
  vget (fst (netProductionRates RU T p_conc k)) sp
  = Rsum (zip_with (fun q rx => IZR (net_coefficient th rx sp) * q)
                   rop (m_reactions k))
    * speciesMw th sp.
Proof.
  intros Hk Hnd Hsp. apply validated_engine_inv in Hk. cbv zeta.
  pose proof (rates_of_progress_length RU k T
                (map (vget p_conc) (range 0 (nSpecies (m_thermo k))))
                (vi_sealed k Hk)) as (_ & _ & Hlen).
  unfold netProductionRates.
  set (conc' := map (vget p_conc) (range 0 (nSpecies (m_thermo k)))) in *.
  destruct (netRatesOfProgress RU T conc' k) as [rop k1] eqn:E.
  destruct (call_state RU (CallNetRatesOfProgress conc') T k) as (f & b & r & Hk1).
  cbn [call] in Hk1. rewrite E in Hk1. cbn [snd] in Hk1. subst k1.
  cbn [fst set_rop m_thermo m_irr_prods m_rev_prods m_reactants] in *.
  destruct (updateT_frame RU T k) as (_ & -> & _).
  destruct (updateT_managers RU T k) as (-> & -> & ->).
  rewrite (vget_map_range
             (fun i => vget (incrSpecies (m_irr_prods k) rop
                               (incrSpecies (m_rev_prods k) rop
                                  (decrSpecies (m_reactants k) rop
                                     (vzero (nSpecies (m_thermo k)))))) i
                       * speciesMw (m_thermo k) i)) by exact Hsp.
  now rewrite (scattered_rate_at k rop sp Hk Hnd Hlen Hsp).
Qed.

(* ================================================================= *)
(** ** Loading the species of a mixture *)

Lemma set_insert_In (x y : string) (s : list string) :
  In y (set_insert x s) <-> y = x \/ In y s.
Proof.
  induction s as [|z t IH]; simpl.
  - intuition.
  - destruct (String.compare x z) eqn:E.
    + apply String.compare_eq_iff in E. subst. simpl. intuition.
    + simpl. intuition.
    + simpl. rewrite IH. intuition.
Qed.

Lemma set_of_names_In (names : list string) (y : string) :
  In y (set_of_names names) <-> In y names.
Proof.
  unfold set_of_names.
  assert (H : forall s, In y (fold_left (fun s x => set_insert x s) names s)
                        <-> In y names \/ In y s).
  { induction names as [|x t IH]; intros s; simpl; [intuition|].
    rewrite IH, set_insert_In. intuition. }
  rewrite H. simpl. intuition.
Qed.

Lemma set_find_In (x : string) (s : list string) :
  set_find x s = true <-> In x s.
Proof.
  unfold set_find. rewrite existsb_exists. split.
  - intros (y & Hy & E). apply String.eqb_eq in E. now subst.
  - intros H. exists x. split; [exact H|apply String.eqb_refl].
Qed.

Lemma set_erase_In (x y : string) (s : list string) :
  In y (set_erase x s) <-> In y s /\ y <> x.
Proof.
  unfold set_erase. rewrite filter_In.
  destruct (String.eqb_spec x y); simpl; intuition congruence.
Qed.

Lemma swap_ends_snoc {A : Type} (x : A) (mid : list A) (s : A) :
  swap_ends (x :: mid ++ [s]) = s :: mid ++ [x].
Proof.
  unfold swap_ends. rewrite rev_app_distr. simpl. now rewrite rev_involutive.
Qed.

Lemma map_find_assign_same (k : string) (v : Z) (m : list (string * Z)) :
  map_find k (map_assign k v m) = Some v.
Proof.
  induction m as [|[k' v'] t IH]; simpl.
  - now rewrite String.eqb_refl.
  - destruct (String.eqb_spec k' k) as [->|Hne]; simpl.
    + now rewrite String.eqb_refl.
    + destruct (String.eqb_spec k' k); [contradiction|exact IH].
Qed.

Lemma map_find_assign_other (k k' : string) (v : Z) (m : list (string * Z)) :
  k <> k' -> map_find k (map_assign k' v m) = map_find k m.
Proof.
  intros Hne. induction m as [|[k0 v0] t IH]; simpl.
  - destruct (String.eqb_spec k' k); [congruence|reflexivity].
  - destruct (String.eqb_spec k0 k') as [->|H0]; simpl.
    + destruct (String.eqb_spec k' k); [congruence|reflexivity].
    + destruct (String.eqb_spec k0 k); [reflexivity|exact IH].
Qed.

Lemma index_names_absent (names : list string) (i : Z) (m : list (string * Z))
    (n : string) :
  ~ In n names -> map_find n (index_names names i m) = map_find n m.
Proof.
  revert i m; induction names as [|x t IH]; intros i m Hn; simpl; [reflexivity|].
  rewrite IH by (intros H; apply Hn; now right).
  apply map_find_assign_other. intros ->. apply Hn. now left.
Qed.

(** The index map filled from a list of distinct names sends each name to
    its position. *)
Lemma index_names_find (names : list string) (i : Z) (m : list (string * Z))
    (n : string) :
  NoDup names -> In n names ->
  map_find n (index_names names i m) = Some (index_from names n i).
Proof.
  intros Hnd. revert i m; induction Hnd as [|x t Hx Hnd IH]; intros i m Hin;
    [destruct Hin|].
  cbn [index_names index_from].
  destruct (String.eqb_spec x n) as [->|Hne].
  - rewrite index_names_absent by exact Hx. apply map_find_assign_same.
  - destruct Hin as [->|Hin]; [contradiction|]. now apply IH.
Qed.

Lemma index_from_present (names : list string) (n : string) (i0 : Z) :
  In n names -> (i0 <= index_from names n i0)%Z.
Proof.
  revert i0; induction names as [|y t IH]; intros i0 Hin; [destruct Hin|].
  cbn [index_from]. destruct (String.eqb_spec y n) as [->|Hne]; [lia|].
  destruct Hin as [->|Hin]; [contradiction|].
  specialize (IH (i0 + 1)%Z Hin). lia.
Qed.

Lemma index_from_absent (names : list string) (n : string) (i0 : Z) :
  ~ In n names -> index_from names n i0 = (-1)%Z.
Proof.
  revert i0; induction names as [|y t IH]; intros i0 Hn; [reflexivity|].
  cbn [index_from]. destruct (String.eqb_spec y n) as [->|Hne].
  - exfalso. apply Hn. now left.
  - apply IH. intros H. apply Hn. now right.
Qed.

Lemma load_inv_skip (requested seen loaded : list string) (he : bool)
    (set : list string) (x : string) :
  load_inv requested seen loaded he set -> ~ In x set ->
  load_inv requested (seen ++ [x]) loaded he set.
Proof.
  intros [H1 H2 H3 H4 H5 H6 H7] Hx. constructor; try assumption.
  - intros n Hn. rewrite in_app_iff. left. auto.
  - intros n Hn Hin. rewrite in_app_iff in Hin. destruct Hin as [Hin|[<-|[]]].
    + exact (H7 n Hn Hin).
    + contradiction.
Qed.

Lemma load_inv_more (requested seen loaded : list string) (he : bool)
    (more : list string) :
  load_inv requested seen loaded he [] ->
  load_inv requested (seen ++ more) loaded he [].
Proof.
  intros [H1 H2 H3 H4 H5 H6 H7]. constructor; try assumption.
  - intros n Hn. rewrite in_app_iff. left. auto.
  - intros n [].
Qed.

Lemma load_inv_push (requested seen loaded loaded' : list string) (he : bool)
    (set : list string) (x : string) :
  load_inv requested seen loaded he set -> In x set ->
  Permutation loaded' (x :: loaded) ->
  (In "e-"%string loaded' -> exists t, loaded' = "e-"%string :: t) ->
  load_inv requested (seen ++ [x]) loaded'
    (if String.eqb x "e-" then true else he) (set_erase x set).
Proof.
  intros [H1 H2 H3 H4 H5 H6 H7] Hx Hp Hfirst.
  assert (Hin : forall n, In n loaded' <-> n = x \/ In n loaded).
  { intros n. split; intros H.
    - apply (Permutation_in _ Hp) in H. destruct H as [<-|H]; auto.
    - apply (Permutation_in _ (Permutation_sym Hp)). destruct H as [->|H];
        [now left|now right]. }
  constructor.
  - apply (Permutation_NoDup (Permutation_sym Hp)). constructor; [|exact H1].
    intros Hl. exact (H2 x Hl Hx).
  - intros n Hn He. apply set_erase_In in He. destruct He as [He Hne].
    apply Hin in Hn. destruct Hn as [->|Hn]; [congruence|]. exact (H2 n Hn He).
  - intros n. rewrite H3, Hin, set_erase_In. split.
    + intros [Hl|Hs]; [auto|].
      destruct (string_dec n x) as [->|Hne]; auto.
    + intros [[->|Hl]|[Hs _]]; auto.
  - rewrite Hin. destruct (String.eqb_spec x "e-") as [->|Hne].
    + split; auto.
    + rewrite H4. split; [auto|]. intros [E|Hl]; [congruence|exact Hl].
  - exact Hfirst.
  - intros n Hn. rewrite in_app_iff. apply Hin in Hn.
    destruct Hn as [->|Hn]; [right; now left|left; auto].
  - intros n Hn Hs. apply set_erase_In in Hn. destruct Hn as [Hn Hne].
    rewrite in_app_iff in Hs. destruct Hs as [Hs|[E|[]]]; [|congruence].
    exact (H7 n Hn Hs).
Qed.

Section LoadSpeciesFacts.

Variable XmlElement : Type.
Variable Element : Type.
Variable Species : Type.
Variable name_attribute : XmlElement -> string.
Variable Species_new : XmlElement -> list Element -> list Z -> Species * list Z.
Variable Species_name : Species -> string.
Variable Element_name : Element -> string.

(** The name of a species is the name attribute of the node it was built
    from. *)
Hypothesis Species_name_attribute :
  forall node els used,
    Species_name (fst (Species_new node els used)) = name_attribute node.

(** The names of [m_species] after a species was pushed and, for the
    electron, swapped to the front. *)
Lemma pushed_names (species : list Species) (s : Species) :
  let x := Species_name s in
  let pushed := species ++ [s] in
  let species' :=
    if String.eqb x "e-" && (1 <? List.length pushed)%nat
    then swap_ends pushed else pushed in
  Permutation (map Species_name species') (x :: map Species_name species)
  /\ ((x = "e-"%string \/ exists t, map Species_name species = "e-"%string :: t) ->
      exists t, map Species_name species' = "e-"%string :: t).
Proof.
  cbv zeta. destruct (String.eqb_spec (Species_name s) "e-") as [E|E];
    cbn [andb].
  - destruct species as [|y mid].
    + cbn. split; [apply Permutation_refl|]. intros _. rewrite E. eauto.
    + assert (Hl : (1 <? List.length ((y :: mid) ++ [s]))%nat = true).
      { apply Nat.ltb_lt. rewrite length_app. simpl. lia. }
      rewrite Hl. cbn [app]. rewrite swap_ends_snoc. cbn [map].
      rewrite map_app. cbn [map]. split.
      * apply perm_skip. apply Permutation_sym, Permutation_cons_append.
      * intros _. rewrite E. eauto.
  - rewrite map_app. cbn [map]. split.
    + apply Permutation_sym, Permutation_cons_append.
    + intros [H|[t Ht]]; [contradiction|]. rewrite Ht. cbn [app]. eauto.
Qed.

Lemma load_species_inv (requested : list string) (elements : list Element)
    (db : list XmlElement) :
  forall (species : list Species) (he : bool) (set : list string)
         (used : list Z) (seen : list string)
         (species' : list Species) (he' : bool) (set' : list string)
         (used' : list Z),
    load_species name_attribute Species_new elements db species he set used
    = (species', he', set', used') ->
    load_inv requested seen (map Species_name species) he set ->
    load_inv requested (seen ++ map name_attribute db)
      (map Species_name species') he' set'.
Proof.
  induction db as [|node rest IH];
    intros species he set used seen species' he' set' used' E Hinv.
  - cbn in E. injection E as <- <- <- <-. cbn [map]. now rewrite app_nil_r.
  - cbn [load_species] in E. cbn [map].
    replace (seen ++ name_attribute node :: map name_attribute rest)
      with ((seen ++ [name_attribute node]) ++ map name_attribute rest)
      by (now rewrite <- app_assoc).
    destruct (set_find (name_attribute node) set) eqn:F; cbn [negb] in E.
    + apply set_find_In in F.
      pose proof (Species_name_attribute node elements used) as Hname.
      destruct (Species_new node elements used) as [s u]. cbn [fst] in Hname.
      destruct (pushed_names species s) as [Hperm Hfirst].
      rewrite Hname in Hperm, Hfirst.
      match type of Hperm with
      | Permutation (map Species_name ?l) _ => set (sp1 := l) in *
      end.
      assert (Hpush : load_inv requested (seen ++ [name_attribute node])
                        (map Species_name sp1)
                        (if String.eqb (name_attribute node) "e-" then true else he)
                        (set_erase (name_attribute node) set)).
      { apply (load_inv_push requested seen (map Species_name species)); auto.
        intros Hin. apply Hfirst.
        destruct (string_dec (name_attribute node) "e-") as [He|He]; [now left|].
        right. apply (li_first _ _ _ _ _ Hinv).
        apply (Permutation_in _ Hperm) in Hin. destruct Hin as [Hin|Hin]; congruence. }
      destruct (set_erase (name_attribute node) set) as [|x0 s0] eqn:Eset.
      * injection E as <- <- <- <-. now apply load_inv_more.
      * eapply IH; eauto.
    + eapply IH; eauto. apply load_inv_skip; [exact Hinv|].
      intros Hin. apply set_find_In in Hin. congruence.
Qed.

Lemma load_inv_start (requested : list string) :
  load_inv requested [] [] false (set_of_names requested).
Proof.
  constructor.
  - constructor.
  - intros n [].
  - intros n. rewrite set_of_names_In. cbn. intuition.
  - cbn. split; [discriminate|intros []].
  - intros [].
  - intros n [].
  - intros n _ [].
Qed.

(** What a returned [loadSpeciesFromList] has stored. *)
Lemma loaded_species_facts (elements : list Element)
    (db : list XmlElement) (species_names : list string)
    (mix : @Mixture Element Species) :
  loadSpeciesFromList name_attribute Species_new Species_name Element_name
    elements db species_names = Loaded mix ->
  let loaded := map Species_name (m_species mix) in
  NoDup loaded
  /\ (forall n, In n loaded <-> In n species_names)
  /\ (forall n, In n loaded -> In n (map name_attribute db))
  /\ (m_has_electrons mix = true <-> In "e-"%string species_names)
  /\ (In "e-"%string species_names -> at_index loaded 0 = Some "e-"%string)
  /\ (forall i n, at_index loaded i = Some n ->
                  map_find n (m_species_indices mix) = Some (Z.of_N i))
  /\ (forall n, ~ In n loaded -> map_find n (m_species_indices mix) = None)
  /\ (forall n, match map_find n (m_species_indices mix) with
                | Some i => i
                | None => (-1)%Z
                end = index_from loaded n 0).
Proof.
  unfold loadSpeciesFromList. intros H.
  destruct (load_species name_attribute Species_new elements db [] false
              (set_of_names species_names) [])
    as [[[species he] set] used] eqn:E.
  pose proof (load_species_inv species_names elements db _ _ _ _ [] _ _ _ _ E
                (load_inv_start species_names)) as Hinv.
  destruct set as [|x0 s0]; [|discriminate].
  destruct (collect_elements elements used) as [els|]; [|discriminate].
  injection H as <-. cbn [m_species m_has_electrons m_species_indices].
  cbv zeta. destruct Hinv as [H1 H2 H3 H4 H5 H6 H7].
  assert (Hreq : forall n, In n (map Species_name species) <-> In n species_names).
  { intros n. rewrite H3. cbn. intuition. }
  split; [exact H1|]. split; [exact Hreq|]. split; [exact H6|].
  split; [now rewrite H4, Hreq|]. split.
  - intros He. apply Hreq, H5 in He. destruct He as [t ->]. reflexivity.
  - split.
    + intros i n Hi. pose proof (at_index_In _ _ _ Hi) as Hin.
      rewrite (index_names_find _ 0 [] n H1 Hin). f_equal.
      pose proof (index_from_present _ _ 0 Hin) as H0.
      pose proof (index_from_at _ _ 0 (Z.le_refl 0) H0) as Ha.
      rewrite Z.sub_0_r in Ha.
      rewrite (at_index_NoDup _ _ _ _ H1 Hi Ha). lia.
    + split; [intros n Hn; now rewrite index_names_absent|].
      intros n. destruct (in_dec string_dec n (map Species_name species)) as [Hin|Hn].
      * now rewrite (index_names_find _ 0 [] n H1 Hin).
      * rewrite index_names_absent by exact Hn. cbn [map_find].
        now rewrite index_from_absent.
Qed.

(** X11, the species a mixture holds: when [loadSpeciesFromList] returns,
    the names of [m_species] are distinct, they are exactly the requested
    names (a name requested twice is loaded once, a name the database lists
    twice is loaded from its first node), [m_has_electrons] tells whether
    "e-" was requested and "e-" is then the species at index 0, and
    [m_species_indices] sends the name of the species at every position to
    that position and holds no other name, so that looking a name up in it
    (with -1 for a name it does not hold) is [index_from] on the names of
    [m_species]. *)
Theorem loaded_species_are_the_requested (elements : list Element)
    (db : list XmlElement) (species_names : list string)
    (mix : @Mixture Element Species) :
  loadSpeciesFromList name_attribute Species_new Species_name Element_name
    elements db species_names = Loaded mix ->
  let loaded := map Species_name (m_species mix) in
  NoDup loaded
  /\ (forall n, In n loaded <-> In n species_names)
  /\ (forall n, In n loaded -> In n (map name_attribute db))
  /\ (m_has_electrons mix = true <-> In "e-"%string species_names)
  /\ (In "e-"%string species_names -> at_index loaded 0 = Some "e-"%string)
  /\ (forall i n, at_index loaded i = Some n ->
                  map_find n (m_species_indices mix) = Some (Z.of_N i))
  /\ (forall n, ~ In n loaded -> map_find n (m_species_indices mix) = None)
  /\ (forall n, match map_find n (m_species_indices mix) with
                | Some i => i
                | None => (-1)%Z
                end = index_from loaded n 0).
Proof. exact (loaded_species_facts elements db species_names mix). Qed.

(** X19, the slot of the electron fraction: in a mixture of at least two
    species loaded for a request that names "e-", the electron is the
    species at index 0 and the species at index 1 is not the electron,
    while [numberDensity()] weights the electron temperature with the mole
    fraction at index 1 of the state. *)
Theorem electron_fraction_slot (KB : R) (elements : list Element)
    (db : list XmlElement) (species_names : list string)
    (mix : @Mixture Element Species) (state : StateModel) :
  loadSpeciesFromList name_attribute Species_new Species_name Element_name
    elements db species_names = Loaded mix ->
  In "e-"%string species_names -> (2 <= List.length (m_species mix))%nat ->
  let loaded := map Species_name (m_species mix) in
  let Xe := vget (state_X state) 1 in
  at_index loaded 0 = Some "e-"%string
  /\ (exists n, at_index loaded 1 = Some n /\ n <> "e-"%string)
  /\ m_has_electrons mix = true
  /\ numberDensity KB (m_has_electrons mix) state
     = state_P state / KB * ((1 - Xe) / state_T state + Xe / state_Te state).
Proof.
  intros Hload He Hlen. cbv zeta.
  destruct (loaded_species_facts elements db species_names mix Hload)
    as (Hnd & _ & _ & Hhe & Hfirst & _ & _ & _).
  specialize (Hfirst He). apply Hhe in He.
  split; [exact Hfirst|]. split; [|split; [exact He|]].
  - destruct (at_index_lt (map Species_name (m_species mix)) 1) as [n Hn].
    { rewrite length_map. lia. }
    exists n. split; [exact Hn|]. intros ->.
    pose proof (at_index_NoDup _ _ _ _ Hnd Hfirst Hn). lia.
  - rewrite He. unfold numberDensity. replace 1.0 with 1 by lra. reflexivity.
Qed.

(** X12, the species a mixture misses: [loadSpeciesFromList] ends in the
    exit that lists missing species exactly when some requested name is
    the name of no node of the species database, and the names it lists
    are then exactly the requested names the database does not have. *)
Theorem missing_species_reported (elements : list Element)
    (db : list XmlElement) (species_names : list string) :
  let outcome :=
    loadSpeciesFromList name_attribute Species_new Species_name Element_name
      elements db species_names in
  ((exists n, In n species_names /\ ~ In n (map name_attribute db))
   <-> exists missing, outcome = MissingSpecies missing)
  /\ (forall missing, outcome = MissingSpecies missing ->
       forall n, In n missing
                 <-> In n species_names /\ ~ In n (map name_attribute db)).
Proof.
  cbv zeta. unfold loadSpeciesFromList.
  destruct (load_species name_attribute Species_new elements db [] false
              (set_of_names species_names) [])
    as [[[species he] set] used] eqn:E.
  pose proof (load_species_inv species_names elements db _ _ _ _ [] _ _ _ _ E
                (load_inv_start species_names)) as Hinv.
  cbn [app] in Hinv. destruct Hinv as [H1 H2 H3 H4 H5 H6 H7].
  assert (Hset : forall n, In n set
                           <-> In n species_names /\ ~ In n (map name_attribute db)).
  { intros n. split.
    - intros Hn. split; [apply H3; now right|exact (H7 n Hn)].
    - intros [Hn Hdb]. apply H3 in Hn. destruct Hn as [Hn|Hn]; [|exact Hn].
      exfalso. exact (Hdb (H6 n Hn)). }
  split.
  - split.
    + intros (n & Hn & Hdb).
      destruct set as [|x0 s0]; [|eauto].
      exfalso. exact (proj2 (Hset n) (conj Hn Hdb)).
    + intros (missing & Hm). destruct set as [|x0 s0].
      * destruct (collect_elements elements used); discriminate.
      * exists x0. apply Hset. now left.
  - intros missing Hm. destruct set as [|x0 s0].
    + destruct (collect_elements elements used); discriminate.
    + injection Hm as <-. exact Hset.
Qed.

End LoadSpeciesFacts.

Lemma loaded_species_are_the_requested_witness :
  let mix :=
    {| m_species := ["e-"%string; "N"%string]; m_elements := @nil string;
       m_element_indices := [];
       m_species_indices := [("e-"%string, 0%Z); ("N"%string, 1%Z)];
       m_has_electrons := true |} in
  let loaded := map (fun s : string => s) (m_species mix) in
  loadSpeciesFromList (fun node : string => node) example_Species_new
    (fun s : string => s) (fun e : string => e) [] example_db
    ["N"%string; "e-"%string; "N"%string] = Loaded mix
  /\ NoDup loaded
  /\ (forall n, In n loaded <-> In n ["N"%string; "e-"%string; "N"%string])
  /\ (forall n, In n loaded -> In n (map (fun node : string => node) example_db))
  /\ (m_has_electrons mix = true
      <-> In "e-"%string ["N"%string; "e-"%string; "N"%string])
  /\ (In "e-"%string ["N"%string; "e-"%string; "N"%string] ->
      at_index loaded 0 = Some "e-"%string)
  /\ (forall i n, at_index loaded i = Some n ->
                  map_find n (m_species_indices mix) = Some (Z.of_N i))
  /\ (forall n, ~ In n loaded -> map_find n (m_species_indices mix) = None)
  /\ (forall n, match map_find n (m_species_indices mix) with
                | Some i => i
                | None => (-1)%Z
                end = index_from loaded n 0).
Proof.
  cbv zeta. split; [reflexivity|].
  apply (loaded_species_are_the_requested string string string
           (fun node => node) example_Species_new (fun s => s) (fun e => e)
           (fun node els used => eq_refl) [] example_db
           ["N"%string; "e-"%string; "N"%string]).
  reflexivity.
Defined.

Lemma missing_species_reported_witness :
  let outcome :=
    loadSpeciesFromList (fun node : string => node) example_Species_new
      (fun s : string => s) (fun e : string => e) [] example_db
      ["N"%string; "O"%string] in
  outcome = MissingSpecies ["O"%string]
  /\ ((exists n, In n ["N"%string; "O"%string]
                 /\ ~ In n (map (fun node : string => node) example_db))
      <-> exists missing, outcome = MissingSpecies missing)
  /\ (forall missing, outcome = MissingSpecies missing ->
       forall n, In n missing
                 <-> In n ["N"%string; "O"%string]
                     /\ ~ In n (map (fun node : string => node) example_db)).
Proof.
  cbv zeta. split; [reflexivity|].
  exact (missing_species_reported string string string
           (fun node => node) example_Species_new (fun s => s) (fun e => e)
           (fun node els used => eq_refl) [] example_db
           ["N"%string; "O"%string]).
Defined.

(* ================================================================= *)
(** ** The default elemental composition *)

Lemma elementIndex_In (th : Thermodynamics) (name : string) :
  (0 <= elementIndex th name)%Z <-> In name (elementNames th).
Proof.
  unfold elementIndex. split.
  - intros H. pose proof (index_from_at _ _ 0 (Z.le_refl 0) H) as Ha.
    eapply at_index_In; eauto.
  - intros H. exact (index_from_present _ _ 0 H).
Qed.

Lemma elementIndex_lt (th : Thermodynamics) (name : string) :
  (0 <= elementIndex th name)%Z ->
  (Z.to_N (elementIndex th name) < nElements th)%N.
Proof.
  unfold elementIndex, nElements. intros H.
  pose proof (index_from_bounds _ _ _ H). lia.
Qed.

Lemma elementIndex_inj (th : Thermodynamics) (a b : string) :
  (0 <= elementIndex th a)%Z -> elementIndex th a = elementIndex th b -> a = b.
Proof.
  unfold elementIndex. intros Ha E.
  pose proof (index_from_at _ _ 0 (Z.le_refl 0) Ha) as H1.
  rewrite E in Ha. pose proof (index_from_at _ _ 0 (Z.le_refl 0) Ha) as H2.
  rewrite E in H1. congruence.
Qed.

Lemma elementIndex_at (th : Thermodynamics) (i : N) (e : string) :
  NoDup (elementNames th) -> at_index (elementNames th) i = Some e ->
  elementIndex th e = Z.of_N i.
Proof.
  intros Hnd Hi. pose proof (at_index_In _ _ _ Hi) as Hin.
  apply elementIndex_In in Hin. unfold elementIndex in *.
  pose proof (index_from_at _ _ 0 (Z.le_refl 0) Hin) as Ha.
  rewrite Z.sub_0_r in Ha.
  rewrite (at_index_NoDup _ _ _ _ Hnd Hi Ha). lia.
Qed.

Lemma flag_get_set (flags : list bool) (i j : N) :
  (i < N.of_nat (List.length flags))%N ->
  flag_get (flag_set flags i) j = if (j =? i)%N then true else flag_get flags j.
Proof.
  revert i j; induction flags as [|b t IH]; intros i j Hi; [simpl in Hi; lia|].
  cbn [flag_set]. destruct (N.eqb_spec i 0) as [->|Hi0]; cbn [flag_get].
  - destruct (N.eqb_spec j 0); reflexivity.
  - destruct (N.eqb_spec j 0) as [->|Hj].
    + destruct (N.eqb_spec 0 i); [lia|reflexivity].
    + rewrite IH by (cbn [List.length] in Hi; lia).
      destruct (N.eqb_spec (N.pred j) (N.pred i)), (N.eqb_spec j i);
        try reflexivity; lia.
Qed.

Lemma flag_set_length (flags : list bool) (i : N) :
  List.length (flag_set flags i) = List.length flags.
Proof.
  revert i; induction flags as [|b t IH]; intros i; simpl; [reflexivity|].
  destruct (i =? 0)%N; simpl; auto.
Qed.

Lemma flag_get_repeat_false (n : nat) (i : N) : flag_get (repeat false n) i = false.
Proof.
  revert i; induction n as [|n IH]; intros i; simpl; [reflexivity|].
  destruct (i =? 0)%N; auto.
Qed.

(** What a completed loop over the pairs tells of the pairs and the flags. *)
Lemma set_composition_inr (th : Thermodynamics) (comp : list (string * R)) :
  forall (flags : list bool) (dc : RealVector) (flags' : list bool)
         (dc' : RealVector),
    N.of_nat (List.length flags) = nElements th ->
    set_composition th comp flags dc = inr (flags', dc') ->
    NoDup (map fst comp)
    /\ (forall name, In name (map fst comp) ->
          (0 <= elementIndex th name)%Z
          /\ flag_get flags (Z.to_N (elementIndex th name)) = false)
    /\ (forall i, flag_get flags' i = true <->
                  flag_get flags i = true
                  \/ exists name, In name (map fst comp)
                                  /\ Z.to_N (elementIndex th name) = i)
    /\ N.of_nat (List.length flags') = nElements th
    /\ List.length dc' = List.length dc.
Proof.
  induction comp as [|[name v] rest IH]; intros flags dc flags' dc' Hlen H.
  - cbn in H. injection H as <- <-. cbn [map]. split; [constructor|].
    split; [intros n []|]. split; [|auto].
    intros i. split; [auto|]. intros [H|(n & [] & _)]. exact H.
  - cbn [set_composition] in H.
    destruct (Z.leb_spec 0 (elementIndex th name)) as [H0|]; [|discriminate].
    set (idx := Z.to_N (elementIndex th name)) in *.
    destruct (flag_get flags idx) eqn:Fg; [discriminate|].
    assert (Hidx : (idx < N.of_nat (List.length flags))%N)
      by (rewrite Hlen; now apply elementIndex_lt).
    apply IH in H; [|now rewrite flag_set_length].
    destruct H as (Hnd & Hb & Hc & Hl & Hd).
    rewrite vupd_length in Hd. cbn [map fst].
    split; [|split; [|split; [|auto]]].
    + constructor; [|exact Hnd]. intros Hin.
      destruct (Hb name Hin) as [_ Hf]. fold idx in Hf.
      rewrite flag_get_set, N.eqb_refl in Hf by exact Hidx. discriminate.
    + intros n [<-|Hin]; [auto|].
      destruct (Hb n Hin) as [Hn Hf]. split; [exact Hn|].
      rewrite flag_get_set in Hf by exact Hidx.
      destruct (_ =? idx)%N; [discriminate|exact Hf].
    + intros i. rewrite Hc, flag_get_set by exact Hidx. split.
      * intros [Hf|(n & Hn & Hi)].
        -- destruct (N.eqb_spec i idx) as [Ei|Hne]; [|auto].
           right. exists name. split; [now left|now rewrite Ei].
        -- right. exists n. split; [now right|exact Hi].
      * intros [Hf|(n & [<-|Hn] & Hi)].
        -- left. destruct (i =? idx)%N; auto.
        -- left. subst i. fold idx. now rewrite N.eqb_refl.
        -- right. eauto.
Qed.

Lemma set_composition_complete (th : Thermodynamics) (comp : list (string * R)) :
  forall (flags : list bool) (dc : RealVector),
    N.of_nat (List.length flags) = nElements th ->
    NoDup (map fst comp) ->
    (forall name, In name (map fst comp) ->
       (0 <= elementIndex th name)%Z
       /\ flag_get flags (Z.to_N (elementIndex th name)) = false) ->
    exists flags' dc', set_composition th comp flags dc = inr (flags', dc').
Proof.
  induction comp as [|[name v] rest IH]; intros flags dc Hlen Hnd Hb.
  - cbn. eauto.
  - cbn [set_composition]. cbn [map fst] in Hnd, Hb.
    destruct (Hb name (or_introl eq_refl)) as [H0 Hf].
    destruct (Z.leb_spec 0 (elementIndex th name)); [|lia]. rewrite Hf.
    inversion Hnd as [|x l Hx Hnd' E]; subst.
    apply IH; [now rewrite flag_set_length|exact Hnd'|].
    intros n Hn. destruct (Hb n (or_intror Hn)) as [Hn0 Hnf].
    split; [exact Hn0|].
    rewrite flag_get_set by (rewrite Hlen; now apply elementIndex_lt).
    destruct (N.eqb_spec (Z.to_N (elementIndex th n)) (Z.to_N (elementIndex th name)))
      as [E|E]; [|exact Hnf].
    exfalso. apply Hx.
    assert (n = name); [|now subst].
    apply (elementIndex_inj th n name Hn0). lia.
Qed.

Lemma flagged_sum_step (ne : N) (flags : list bool) (dc : RealVector)
    (idx : N) (v : R) :
  N.of_nat (List.length flags) = ne -> N.of_nat (List.length dc) = ne ->
  (idx < ne)%N -> flag_get flags idx = false ->
  flagged_sum ne (flag_set flags idx) (vupd dc idx (fun _ => v))
  = flagged_sum ne flags dc + v.
Proof.
  intros Hf Hd Hidx Hg. unfold flagged_sum.
  set (dc1 := vupd dc idx (fun _ => v)).
  rewrite <- (Rsum_pick_range (fun _ => v) idx ne Hidx).
  rewrite <- Rsum_map_add. apply Rsum_map_ext. intros i _. subst dc1.
  rewrite flag_get_set, vget_vupd by lia.
  destruct (N.eqb_spec i idx) as [->|Hne]; [rewrite Hg|]; lra.
Qed.

(** The values a completed loop leaves in the array. *)
Lemma set_composition_values (th : Thermodynamics) (comp : list (string * R)) :
  forall (flags : list bool) (dc : RealVector) (flags' : list bool)
         (dc' : RealVector),
    N.of_nat (List.length flags) = nElements th ->
    N.of_nat (List.length dc) = nElements th ->
    set_composition th comp flags dc = inr (flags', dc') ->
    (forall name v, In (name, v) comp ->
                    vget dc' (Z.to_N (elementIndex th name)) = v)
    /\ (forall i, (forall name, In name (map fst comp) ->
                                Z.to_N (elementIndex th name) <> i) ->
                  vget dc' i = vget dc i)
    /\ flagged_sum (nElements th) flags' dc'
       = flagged_sum (nElements th) flags dc + Rsum (map snd comp).
Proof.
  induction comp as [|[name v] rest IH]; intros flags dc flags' dc' Hlen Hdc H.
  - cbn in H. injection H as <- <-. cbn. split; [intros n v []|].
    split; [reflexivity|lra].
  - pose proof H as Hrun. cbn [set_composition] in H.
    destruct (Z.leb_spec 0 (elementIndex th name)) as [H0|]; [|discriminate].
    set (idx := Z.to_N (elementIndex th name)) in *.
    destruct (flag_get flags idx) eqn:Fg; [discriminate|].
    assert (Hidx : (idx < nElements th)%N) by (now apply elementIndex_lt).
    pose proof (set_composition_inr th rest _ _ _ _
                  (eq_trans (f_equal N.of_nat (flag_set_length flags idx)) Hlen) H)
      as (_ & Hb & _).
    destruct (IH _ _ _ _
                (eq_trans (f_equal N.of_nat (flag_set_length flags idx)) Hlen)
                (eq_trans (f_equal N.of_nat (vupd_length dc idx (fun _ => v))) Hdc)
                H) as (Hv & Hkeep & Hsum).
    assert (Hother : forall n, In n (map fst rest) ->
                               Z.to_N (elementIndex th n) <> idx).
    { intros n Hn E. destruct (Hb n Hn) as [_ Hf]. rewrite E in Hf.
      rewrite flag_get_set, N.eqb_refl in Hf by lia. discriminate. }
    split; [|split].
    + intros n w [[= <- <-]|Hin]; [|now apply Hv].
      fold idx. rewrite (Hkeep idx Hother).
      rewrite vget_vupd, N.eqb_refl by lia. reflexivity.
    + intros i Hi. rewrite Hkeep by (intros n Hn; apply Hi; now right).
      rewrite vget_vupd by lia.
      destruct (N.eqb_spec i idx) as [Ei|Hne]; [|reflexivity].
      exfalso. apply (Hi name); [now left|now rewrite Ei].
    + rewrite Hsum, (flagged_sum_step _ flags dc idx v Hlen Hdc Hidx Fg).
      cbn [map snd]. unfold Rsum. cbn [fold_right]. lra.
Qed.

Lemma first_unset_None (th : Thermodynamics) (flags : list bool) (l : list N) :
  first_unset th flags l = None <-> forall i, In i l -> flag_get flags i = true.
Proof.
  induction l as [|i t IH]; cbn [first_unset].
  - split; [intros _ i []|reflexivity].
  - destruct (flag_get flags i) eqn:F.
    + rewrite IH. split.
      * intros H j [<-|Hj]; auto.
      * intros H j Hj. apply H. now right.
    + split; [discriminate|]. intros H.
      specialize (H i (or_introl eq_refl)). congruence.
Qed.

Lemma Rsum_map_div {A : Type} (f : A -> R) (c : R) (l : list A) :
  Rsum (map (fun x => f x / c) l) = Rsum (map f l) / c.
Proof. induction l as [|x t IH]; simpl; [lra|]. rewrite IH. lra. Qed.

Lemma flagged_sum_none (ne : N) (dc : RealVector) :
  flagged_sum ne (repeat false (N.to_nat ne)) dc = 0.
Proof.
  unfold flagged_sum. apply Rsum_map_zero. intros i _.
  now rewrite flag_get_repeat_false.
Qed.

Lemma flagged_sum_all (ne : N) (flags : list bool) (dc : RealVector) :
  (forall i, In i (range 0 ne) -> flag_get flags i = true) ->
  flagged_sum ne flags dc = Rsum (map (vget dc) (range 0 ne)).
Proof.
  intros H. unfold flagged_sum. apply Rsum_map_ext. intros i Hi.
  now rewrite (H i Hi).
Qed.

(** X13, which default compositions are accepted: over a mixture whose
    element names are distinct, [setDefaultComposition] returns (rather
    than exiting with one of its three messages) exactly when the names of
    the composition are distinct and are the element names of the mixture:
    no element is set twice, none is foreign to the mixture, none is left
    out. *)
Theorem default_composition_accepted (th : Thermodynamics)
    (composition : list (string * R)) (dc : RealVector) :
  NoDup (elementNames th) ->
  ((exists dc', setDefaultComposition th composition dc = inr dc')
   <-> NoDup (map fst composition)
       /\ (forall name, In name (map fst composition) <-> In name (elementNames th))).
Proof.
  intros Hnd. unfold setDefaultComposition.
  assert (Hlen : N.of_nat (List.length (repeat false (N.to_nat (nElements th))))
                 = nElements th) by (rewrite repeat_length; lia).
  split.
  - intros [dc' H].
    destruct (set_composition th composition _ dc) as [e|[flags raw]] eqn:E;
      [discriminate|].
    destruct (set_composition_inr th composition _ _ _ _ Hlen E)
      as (Hn & Hb & Hc & _ & _).
    destruct (first_unset th flags (range 0 (nElements th))) eqn:F; [discriminate|].
    rewrite first_unset_None in F.
    split; [exact Hn|]. intros name. split.
    + intros Hin. apply elementIndex_In. now apply Hb.
    + intros Hin. destruct (In_at_index _ _ Hin) as [i Hi].
      assert (Hr : In i (range 0 (nElements th))).
      { apply In_range. apply at_index_Some_lt in Hi. unfold nElements. lia. }
      apply F, Hc in Hr. rewrite flag_get_repeat_false in Hr.
      destruct Hr as [Hr|(n & Hn' & Hidx)]; [discriminate|].
      assert (n = name); [|now subst].
      apply (elementIndex_inj th n name (proj1 (Hb n Hn'))).
      rewrite (elementIndex_at th i name Hnd Hi).
      pose proof (proj1 (Hb n Hn')). lia.
  - intros [Hn Hall].
    destruct (set_composition_complete th composition
                (repeat false (N.to_nat (nElements th))) dc Hlen Hn)
      as (flags & raw & E).
    { intros name Hin. split; [now apply elementIndex_In, Hall|].
      apply flag_get_repeat_false. }
    rewrite E.
    destruct (set_composition_inr th composition _ _ _ _ Hlen E)
      as (_ & _ & Hc & _ & _).
    assert (F : first_unset th flags (range 0 (nElements th)) = None).
    { apply first_unset_None. intros i Hi. apply In_range in Hi.
      apply Hc. right.
      destruct (at_index_lt (elementNames th) i) as [e He];
        [unfold nElements in Hi; lia|].
      exists e. split; [apply Hall; eapply at_index_In; eauto|].
      rewrite (elementIndex_at th i e Hnd He). lia. }
    rewrite F. eauto.
Qed.

(** X14, the stored composition sums to one: the constructor's default
    gives every element the same part and sums to one for a mixture with
    at least one element; an accepted [setDefaultComposition] leaves one
    entry per element, the entry of each named element being its value
    divided by the sum of the values given, and the entries sum to one
    when that sum is not zero. *)
Theorem default_composition_sums_to_one (th : Thermodynamics)
    (composition : list (string * R)) (dc dc' : RealVector) :
  N.of_nat (List.length dc) = nElements th ->
  setDefaultComposition th composition dc = inr dc' ->
  ((0 < nElements th)%N -> Rsum (default_composition_new th) = 1)
  /\ N.of_nat (List.length dc') = nElements th
  /\ (forall name v, In (name, v) composition ->
        vget dc' (Z.to_N (elementIndex th name)) = v / Rsum (map snd composition))
  /\ (Rsum (map snd composition) <> 0 -> Rsum dc' = 1).
Proof.
  intros Hdc H. split.
  { intros Hpos. unfold default_composition_new.
    assert (Hr : forall (c : R) (n : nat), Rsum (repeat c n) = INR n * c).
    { intros c n. induction n as [|n IH]; [simpl; lra|].
      cbn [repeat]. unfold Rsum in *. cbn [fold_right]. rewrite IH, S_INR. lra. }
    rewrite Hr, INR_IZR_INZ, N_nat_Z.
    assert (Hz : IZR (Z.of_N (nElements th)) <> 0).
    { apply not_0_IZR. lia. }
    replace 1.0 with 1 by lra. field. exact Hz. }
  unfold setDefaultComposition in H.
  assert (Hlen : N.of_nat (List.length (repeat false (N.to_nat (nElements th))))
                 = nElements th) by (rewrite repeat_length; lia).
  destruct (set_composition th composition _ dc) as [e|[flags raw]] eqn:E;
    [discriminate|].
  destruct (first_unset th flags (range 0 (nElements th))) eqn:F; [discriminate|].
  rewrite first_unset_None in F. injection H as <-.
  destruct (set_composition_inr th composition _ _ _ _ Hlen E)
    as (_ & Hb & _ & _ & _).
  destruct (set_composition_values th composition _ _ _ _ Hlen Hdc E)
    as (Hv & _ & Hsum).
  rewrite flagged_sum_none, (flagged_sum_all _ _ _ F), Rplus_0_l in Hsum.
  rewrite Hsum.
  split; [rewrite length_map, range_length; lia|]. split.
  - intros name v Hin.
    assert (Hn : In name (map fst composition))
      by (apply in_map_iff; exists (name, v); auto).
    rewrite (vget_map_range (fun i => vget raw i / Rsum (map snd composition)))
      by (apply elementIndex_lt, Hb, Hn).
    now rewrite (Hv name v Hin).
  - intros Hne. rewrite Rsum_map_div, Hsum. now field.
Qed.

Lemma electron_fraction_slot_witness :
  let mix :=
    {| m_species := ["e-"%string; "N"%string]; m_elements := @nil string;
       m_element_indices := [];
       m_species_indices := [("e-"%string, 0%Z); ("N"%string, 1%Z)];
       m_has_electrons := true |} in
  let loaded := map (fun s : string => s) (m_species mix) in
  let Xe := vget (state_X example_state) 1 in
  at_index loaded 0 = Some "e-"%string
  /\ (exists n, at_index loaded 1 = Some n /\ n <> "e-"%string)
  /\ m_has_electrons mix = true
  /\ numberDensity 3 (m_has_electrons mix) example_state
     = state_P example_state / 3
       * ((1 - Xe) / state_T example_state + Xe / state_Te example_state).
Proof.
  cbv zeta.
  apply (electron_fraction_slot string string string
           (fun node => node) example_Species_new (fun s => s) (fun e => e)
           (fun node els used => eq_refl) 3 [] example_db
           ["N"%string; "e-"%string; "N"%string]).
  - reflexivity.
  - right. now left.
  - cbn [m_species List.length]. lia.
Defined.

Lemma air_elements_NoDup : NoDup (elementNames air).
Proof.
  unfold air; cbn [elementNames].
  apply NoDup_cons; [|apply NoDup_cons; [|apply NoDup_nil]].
  - intros [H|[]]. discriminate.
  - intros [].
Qed.

Lemma default_composition_accepted_witness :
  (exists dc', setDefaultComposition air [("O"%string, 1); ("N"%string, 3)]
                 [0.5; 0.5] = inr dc')
  <-> NoDup (map fst [("O"%string, 1); ("N"%string, 3)])
      /\ (forall name, In name (map fst [("O"%string, 1); ("N"%string, 3)])
                       <-> In name (elementNames air)).
Proof.
  exact (default_composition_accepted air [("O"%string, 1); ("N"%string, 3)]
           [0.5; 0.5] air_elements_NoDup).
Defined.

Lemma default_composition_sums_to_one_witness :
  let composition := [("O"%string, 1); ("N"%string, 3)] in
  let dc' := map (fun i => vget [3; 1] i / Rsum (map (vget [3; 1]) (range 0 2)))
                 (range 0 2) in
  setDefaultComposition air composition [0.5; 0.5] = inr dc'
  /\ ((0 < nElements air)%N -> Rsum (default_composition_new air) = 1)
  /\ N.of_nat (List.length dc') = nElements air
  /\ (forall name v, In (name, v) composition ->
        vget dc' (Z.to_N (elementIndex air name)) = v / Rsum (map snd composition))
  /\ (Rsum (map snd composition) <> 0 -> Rsum dc' = 1).
Proof.
  cbv zeta. split; [reflexivity|].
  apply (default_composition_sums_to_one air [("O"%string, 1); ("N"%string, 3)]
           [0.5; 0.5]); reflexivity.
Defined.

(* ================================================================= *)
(** ** State functions of the mixture *)

Lemma fold_left_Rplus {A : Type} (f : A -> R) (l : list A) (a0 : R) :
  fold_left (fun a i => a + f i) l a0 = a0 + Rsum (map f l).
Proof.
  revert a0; induction l as [|x t IH]; intros a0; simpl; [lra|].
  rewrite IH. unfold Rsum. lra.
Qed.

(** X15, density and pressure are inverse to each other: for mole
    fractions [X] and the mass fractions [Y] they determine
    ([Y(i) = X(i) Mw(i) / sum_j X(j) Mw(j)]), the pressure computed from
    the density computed from [P] is [P] times the sum of the mole
    fractions, hence [P] itself when the mole fractions sum to one. *)
Theorem pressure_of_density (RU : R) (th : Thermodynamics) (T P : R)
    (X Y : RealVector) :
  let ns := nSpecies th in
  let M := Rsum (map (fun i => vget X i * speciesMw th i) (range 0 ns)) in
  RU <> 0 -> T <> 0 -> M <> 0 ->
  (forall i, (i < ns)%N -> speciesMw th i <> 0) ->
  (forall i, (i < ns)%N -> vget Y i = vget X i * speciesMw th i / M) ->
  pressure RU th T (density_at RU th T P X) Y
  = P * Rsum (map (vget X) (range 0 ns))
  /\ (Rsum (map (vget X) (range 0 ns)) = 1 ->
      pressure RU th T (density_at RU th T P X) Y = P).
Proof.
  intros ns M HRU HT HM HMw HY.
  assert (E : pressure RU th T (density_at RU th T P X) Y
              = P * Rsum (map (vget X) (range 0 ns))).
  { unfold pressure, density_at. rewrite !fold_left_Rplus. fold ns. fold M.
    rewrite (Rsum_map_ext (fun i => vget Y i / speciesMw th i)
               (fun i => vget X i / M)).
    - rewrite Rsum_map_div. replace 0.0 with 0 by lra. field. auto.
    - intros i Hi. apply In_range in Hi. rewrite HY by lia.
      field. split; [exact HM|apply HMw; lia]. }
  split; [exact E|]. intros H1. rewrite E, H1. lra.
Qed.

Lemma pressure_of_density_witness :
  let X := [0.5; 0.5] in
  let Y := [0.5 * 28 / 21; 0.5 * 14 / 21] in
  pressure RU_example nitrogen 300 (density_at RU_example nitrogen 300 101325 X) Y
  = 101325 * Rsum (map (vget X) (range 0 (nSpecies nitrogen)))
  /\ (Rsum (map (vget X) (range 0 (nSpecies nitrogen))) = 1 ->
      pressure RU_example nitrogen 300
        (density_at RU_example nitrogen 300 101325 X) Y = 101325).
Proof.
  cbv zeta.
  assert (Hcase : forall i, (i < nSpecies nitrogen)%N -> i = 0%N \/ i = 1%N)
    by (unfold nSpecies; simpl; lia).
  apply (pressure_of_density RU_example nitrogen 300 101325 [0.5; 0.5]
           [0.5 * 28 / 21; 0.5 * 14 / 21]).
  - unfold RU_example. lra.
  - lra.
  - eval_model. lra.
  - intros i Hi. destruct (Hcase i Hi) as [-> | ->]; eval_model; lra.
  - intros i Hi. destruct (Hcase i Hi) as [-> | ->]; eval_model; lra.
Defined.

(** X16, the two densities agree: when the gas constant is Avogadro's
    number times Boltzmann's constant, and the mixture has no electrons or
    the electron temperature equals the temperature, [numberDensity()] is
    [numberDensity(T, P)] and [density()] is [density(T, P, X)] at the
    state. *)
Theorem density_overloads_agree (RU KB NA : R) (th : Thermodynamics)
    (hasElectrons : bool) (state : StateModel) :
  RU = NA * KB -> NA <> 0 -> KB <> 0 -> state_T state <> 0 ->
  hasElectrons = false \/ state_Te state = state_T state ->
  numberDensity KB hasElectrons state
  = numberDensity_at KB (state_T state) (state_P state)
  /\ density KB NA th hasElectrons state
     = density_at RU th (state_T state) (state_P state) (state_X state).
Proof.
  intros HRU HNA HKB HT Hcase.
  assert (E : numberDensity KB hasElectrons state
              = numberDensity_at KB (state_T state) (state_P state)).
  { unfold numberDensity, numberDensity_at.
    replace 1.0 with 1 by lra. replace 0.0 with 0 by lra.
    destruct Hcase as [-> | ->].
    - replace (0 / state_Te state) with 0 by (unfold Rdiv; ring). field. auto.
    - field. auto. }
  split; [exact E|].
  unfold density, density_at. rewrite E, fold_left_Rplus.
  unfold numberDensity_at, mixtureMw. replace 0.0 with 0 by lra.
  rewrite HRU. field. auto.
Qed.

Lemma density_overloads_agree_witness :
  numberDensity 3 true example_state
  = numberDensity_at 3 (state_T example_state) (state_P example_state)
  /\ density 3 2 nitrogen true example_state
     = density_at 6 nitrogen (state_T example_state) (state_P example_state)
         (state_X example_state).
Proof.
  apply (density_overloads_agree 6 3 2 nitrogen true example_state).
  - lra.
  - lra.
  - lra.
  - cbn [example_state state_T]. lra.
  - right. reflexivity.
Defined.

(** X17, heat capacities: at a state with non-zero mixture molecular
    weight and a frozen molar heat capacity different from [RU], the frozen
    heat capacities obey Mayer's relation per unit mass
    ([cp - cv = RU / Mw]) and [mixtureFrozenGamma] is the ratio of the
    molar, and of the mass, heat capacities at constant pressure and
    volume. *)
Theorem frozen_heat_capacities (RU : R) (speciesCpOverR : StateModel -> RealVector)
    (th : Thermodynamics) (state : StateModel) :
  mixtureMw th state <> 0 ->
  mixtureFrozenCpMole RU speciesCpOverR th state <> RU ->
  mixtureFrozenCpMass RU speciesCpOverR th state
  - mixtureFrozenCvMass RU speciesCpOverR th state
  = RU / mixtureMw th state
  /\ mixtureFrozenGamma RU speciesCpOverR th state
     = mixtureFrozenCpMole RU speciesCpOverR th state
       / mixtureFrozenCvMole RU speciesCpOverR th state
  /\ mixtureFrozenGamma RU speciesCpOverR th state
     = mixtureFrozenCpMass RU speciesCpOverR th state
       / mixtureFrozenCvMass RU speciesCpOverR th state
  /\ mixtureFrozenCpMole RU speciesCpOverR th state
     = RU * Rsum (map (fun i => vget (speciesCpOverR state) i
                                * vget (state_X state) i)
                      (range 0 (nSpecies th))).
Proof.
  intros HM Hcv.
  unfold mixtureFrozenGamma, mixtureFrozenCpMass, mixtureFrozenCvMass,
    mixtureFrozenCvMole.
  set (cp := mixtureFrozenCpMole RU speciesCpOverR th state) in *.
  set (M := mixtureMw th state) in *.
  assert (Hd : cp - RU <> 0) by lra.
  split; [field; exact HM|]. split; [reflexivity|]. split; [field; auto|].
  subst cp. unfold mixtureFrozenCpMole. rewrite fold_left_Rplus.
  replace 0.0 with 0 by lra. lra.
Qed.

Lemma frozen_heat_capacities_witness :
  let cpR := fun _ : StateModel => [3.5; 2.5] in
  mixtureFrozenCpMass RU_example cpR nitrogen example_state
  - mixtureFrozenCvMass RU_example cpR nitrogen example_state
  = RU_example / mixtureMw nitrogen example_state
  /\ mixtureFrozenGamma RU_example cpR nitrogen example_state
     = mixtureFrozenCpMole RU_example cpR nitrogen example_state
       / mixtureFrozenCvMole RU_example cpR nitrogen example_state
  /\ mixtureFrozenGamma RU_example cpR nitrogen example_state
     = mixtureFrozenCpMass RU_example cpR nitrogen example_state
       / mixtureFrozenCvMass RU_example cpR nitrogen example_state
  /\ mixtureFrozenCpMole RU_example cpR nitrogen example_state
     = RU_example * Rsum (map (fun i => vget (cpR example_state) i
                                        * vget (state_X example_state) i)
                              (range 0 (nSpecies nitrogen))).
Proof.
  cbv zeta.
  apply (frozen_heat_capacities RU_example (fun _ => [3.5; 2.5]) nitrogen
           example_state).
  - eval_model. lra.
  - unfold mixtureFrozenCpMole. rewrite fold_left_Rplus. eval_model. lra.
Defined.

(** X18, element fractions: [elementMoles] gives, for each element, the
    sum over the species of the species value times the atoms of the
    element in the species; [elementFractions] divides each of these by
    their total, so that the fractions sum to one whenever the total is
    not zero. *)
Theorem element_fractions_sum_to_one (th : Thermodynamics) (Xs : RealVector) :
  Rsum (elementMoles th Xs) <> 0 ->
  Rsum (elementFractions th Xs) = 1
  /\ forall j, (j < nElements th)%N ->
       vget (elementMoles th Xs) j
       = Rsum (map (fun i => vget Xs i * elementMatrix th i j)
                   (range 0 (nSpecies th)))
       /\ vget (elementFractions th Xs) j
          = vget (elementMoles th Xs) j / Rsum (elementMoles th Xs).
Proof.
  intros Hs. unfold elementFractions, elementMoles in *.
  set (w := times_element_matrix th Xs) in *.
  assert (Hw : N.of_nat (List.length w) = nElements th).
  { subst w. unfold times_element_matrix. rewrite length_map, range_length. lia. }
  split.
  - assert (Hm : map (vget w) (range 0 (nElements th)) = w).
    { rewrite <- (map_id w) at 2.
      exact (map_range_vget (fun x => x) w (nElements th) Hw). }
    rewrite (Rsum_map_div (vget w)), Hm. now field.
  - intros j Hj. split.
    + subst w. unfold times_element_matrix.
      now rewrite (vget_map_range
                     (fun j => Rsum (map (fun i => vget Xs i * elementMatrix th i j)
                                         (range 0 (nSpecies th))))) by exact Hj.
    + now rewrite (vget_map_range (fun i => vget w i / Rsum w)) by exact Hj.
Qed.

Lemma element_fractions_sum_to_one_witness :
  Rsum (elementFractions air [0.5; 0.25; 0.25]) = 1
  /\ forall j, (j < nElements air)%N ->
       vget (elementMoles air [0.5; 0.25; 0.25]) j
       = Rsum (map (fun i => vget [0.5; 0.25; 0.25] i * elementMatrix air i j)
                   (range 0 (nSpecies air)))
       /\ vget (elementFractions air [0.5; 0.25; 0.25]) j
          = vget (elementMoles air [0.5; 0.25; 0.25]) j
            / Rsum (elementMoles air [0.5; 0.25; 0.25]).
Proof.
  apply (element_fractions_sum_to_one air [0.5; 0.25; 0.25]).
  eval_model. lra.
Defined.

(* ================================================================= *)
(** ** Subscripts of an engine sealed without validation *)


End Mechanism.

(* ================================================================= *)
(** ** The duplicate pass in binary64 arithmetic *)

(** From here on the engine is built with the binary64 implementation of
    the vector class. *)
#[local] Existing Instance binary64_vectors.

Lemma eqb_nan_l (y : PrimFloat.float) : PrimFloat.eqb PrimFloat.nan y = false.
Proof. rewrite FloatAxioms.eqb_spec. reflexivity. Qed.

Lemma eqb_nan_r (x : PrimFloat.float) : PrimFloat.eqb x PrimFloat.nan = false.
Proof.
  rewrite FloatAxioms.eqb_spec.
  change (FloatOps.Prim2SF PrimFloat.nan) with SpecFloat.S754_nan.
  destruct (FloatOps.Prim2SF x); reflexivity.
Qed.

(** A NaN in the first entry of either vector makes [==] false. *)
Lemma vec_eqb_binary64_nan (u v : DoubleVector) :
  vec_eqb_binary64 (PrimFloat.nan :: u) v = false
  /\ vec_eqb_binary64 v (PrimFloat.nan :: u) = false.
Proof.
  split; destruct v as [|y v]; cbn [vec_eqb_binary64]; try reflexivity.
  - now rewrite eqb_nan_l.
  - now rewrite eqb_nan_r.
Qed.

(** Normalizing a zero vector leaves NaN in every entry. *)
Lemma normalize_binary64_zeros (n : nat) :
  normalize_binary64 (repeat PrimFloat.zero n) = repeat PrimFloat.nan n.
Proof.
  unfold normalize_binary64, norm2_binary64.
  assert (E : fold_left (fun s x => PrimFloat.add s (PrimFloat.mul x x))
                (repeat PrimFloat.zero n) PrimFloat.zero = PrimFloat.zero).
  { induction n as [|n IH]; [reflexivity|]. cbn [repeat fold_left].
    change (PrimFloat.add PrimFloat.zero (PrimFloat.mul PrimFloat.zero PrimFloat.zero))
      with PrimFloat.zero.
    exact IH. }
  rewrite E. clear E.
  change (PrimFloat.sqrt PrimFloat.zero) with PrimFloat.zero.
  induction n as [|n IH]; [reflexivity|]. cbn [repeat map]. now rewrite IH.
Qed.

(** The vector [stoichi] of a reaction whose net coefficients all vanish. *)
Lemma net_stoichiometry_zero (th : Thermodynamics) (r : Reaction) :
  (forall sp, (sp < nSpecies th)%N -> net_coefficient th r sp = 0%Z) ->
  net_stoichiometry th r = repeat PrimFloat.zero (N.to_nat (nSpecies th)).
Proof.
  intros H. unfold net_stoichiometry.
  rewrite (map_ext_in _ (fun _ => PrimFloat.zero)).
  - replace (N.to_nat (nSpecies th)) with (List.length (range 0 (nSpecies th)))
      by (rewrite range_length; f_equal; lia).
    induction (range 0 (nSpecies th)) as [|x l IH]; [reflexivity|].
    cbn [map List.length repeat]. now rewrite IH.
  - intros sp Hsp. apply In_range in Hsp.
    specialize (H sp (proj2 Hsp)). unfold net_coefficient in H. now rewrite H.
Qed.

(** X21, reactions without net change escape the duplicate pass: with the
    binary64 implementation of the vector class ([normalize] divides every
    entry by the norm, [==] compares the entries as [double]s), over a
    mixture of at least one species, a pair of reactions one of which has
    a zero net stoichiometric vector (the same species on both sides, for
    instance) is never written by the duplicate pass, whatever the other
    reaction is, a second copy of the same reaction included: normalizing
    the zero vector leaves [0/0], a NaN, and a NaN is equal to nothing. *)
Theorem zero_net_reactions_escape_duplicate_pass (th : Thermodynamics)
    (T_last0 : R) (rxns : list Reaction) (i j : N) (ri rj : Reaction)
    (ds : list Diagnostic) :
  (i < j)%N -> at_index rxns i = Some ri -> at_index rxns j = Some rj ->
  (1 <= nSpecies th)%N ->
  (forall sp, (sp < nSpecies th)%N -> net_coefficient th ri sp = 0%Z)
  \/ (forall sp, (sp < nSpecies th)%N -> net_coefficient th rj sp = 0%Z) ->
  checkDuplicates (VC := binary64_vectors)
    (addReactions rxns (Kinetics_new th T_last0)) = Some ds ->
  ~ In (Identical (N.succ i) (formula ri) (N.succ j) (formula rj)) ds.
Proof.
  intros Hij Hi Hj Hns Hzero Hds Hline.
  destruct (addReactions_new th T_last0 rxns) as (Hl & Hr & Ht & _ & Hn).
  set (k := addReactions rxns (Kinetics_new th T_last0)) in *.
  apply (checkDuplicates_In k ds _ (ld_num k Hl) Hds) in Hline.
  destruct Hline as (i' & j' & ri' & rj' & (_ & Hi' & Hj' & Heq) & Hx).
  injection Hx as Ei _ Ej _. apply N.succ_inj in Ei, Ej. subst i' j'.
  rewrite Hr in Hi', Hj'. rewrite Hi in Hi'. rewrite Hj in Hj'.
  injection Hi' as <-. injection Hj' as <-. rewrite Ht in Heq.
  cbn [normalize vec_eqb binary64_vectors] in Heq.
  destruct (N.to_nat (nSpecies th)) as [|n] eqn:En; [lia|].
  destruct Hzero as [Hz|Hz];
    rewrite (net_stoichiometry_zero th _ Hz), En, normalize_binary64_zeros in Heq;
    cbn [repeat] in Heq.
  - rewrite (proj1 (vec_eqb_binary64_nan _ _)) in Heq. discriminate.
  - rewrite (proj2 (vec_eqb_binary64_nan _ _)) in Heq. discriminate.
Qed.

(* ================================================================= *)
(** ** The statements at example mechanisms *)

(** C4, as stated, does not hold: two calls at temperatures less than 1e-6
    apart may both fall after a recomputation at a third temperature, and
    the second one then moves the cache.  On the engine for N2 = 2N, after
    a call at 1000 (which recomputes), the call at 1000 + 6e-7 is a no-op
    and leaves [T_last] at 1000; the next call, at 1000 + 1.2e-6, is 6e-7
    from the previous one and yet recomputes and moves [T_last]. *)
Lemma near_temperatures_may_recompute :
  let k := snd (call RU_example CallForwardRateCoefficients 1000 nitrogen_engine) in
  let k1 := snd (call RU_example CallForwardRateCoefficients (1000 + 6.0E-7) k) in
  let k2 := snd (call RU_example CallForwardRateCoefficients (1000 + 1.2E-6) k1) in
  sealed_engine RU_example k
  /\ Rabs ((1000 + 1.2E-6) - (1000 + 6.0E-7)) < 1.0E-6
  /\ m_T_last k1 = 1000
  /\ m_T_last k2 = 1000 + 1.2E-6
  /\ cache k2 <> cache k1.
Proof.
  cbv zeta. cbn [call forwardRateCoefficients snd].
  assert (H0 : updateT RU_example 1000 nitrogen_engine
               = set_cache nitrogen_engine
                   (lnForwardRateCoefficients (m_rates nitrogen_engine) 1000
                      (m_lnkf nitrogen_engine))
                   (lnkeq_at RU_example nitrogen_engine 1000) 1000).
  { apply updateT_stale. pose proof nitrogen_engine_stale. lra. }
  set (k := updateT RU_example 1000 nitrogen_engine) in *.
  assert (HT : m_T_last k = 1000) by (rewrite H0; reflexivity).
  assert (H1 : updateT RU_example (1000 + 6.0E-7) k = k).
  { apply updateT_current. rewrite HT. unfold Rabs. destruct (Rcase_abs _); lra. }
  rewrite H1.
  assert (H2 : m_T_last (updateT RU_example (1000 + 1.2E-6) k) = 1000 + 1.2E-6).
  { rewrite updateT_stale; [reflexivity|].
    rewrite HT. unfold Rabs. destruct (Rcase_abs _); lra. }
  split.
  { exact (sealed_after_call RU_example CallForwardRateCoefficients 1000
             nitrogen_engine (nitrogen_engine_sealed RU_example)). }
  split; [unfold Rabs; destruct (Rcase_abs _); lra|].
  split; [exact HT|]. split; [exact H2|].
  intros E. assert (E' : m_T_last (updateT RU_example (1000 + 1.2E-6) k) = m_T_last k)
    by (unfold cache in E; now injection E).
  rewrite H2, HT in E'. lra.
Qed.

Lemma updateT_cache_guard_witness :
  sealed_engine RU_example nitrogen_engine
  /\ 1.0E-6 <= Rabs (1000 - m_T_last nitrogen_engine)
  /\ cache (snd (call RU_example CallEquilibriumConstants 1000 nitrogen_engine))
     = (map (fun r => rateLaw r 1000) (m_reactions nitrogen_engine),
        lnkeq_at RU_example nitrogen_engine 1000, 1000).
Proof.
  assert (H : 1.0E-6 <= Rabs (1000 - m_T_last nitrogen_engine)).
  { cbn [nitrogen_engine seal m_T_last addReactions fold_left addReaction
           Kinetics_new].
    unfold Rabs. destruct (Rcase_abs _); lra. }
  split; [apply nitrogen_engine_sealed|]. split; [exact H|].
  exact (proj1 (proj2 (updateT_cache_guard RU_example nitrogen_engine
                         CallEquilibriumConstants 1000
                         (nitrogen_engine_sealed RU_example))) H).
Defined.

Lemma backward_is_forward_over_equilibrium_witness :
  let keq := equilibriumConstants RU_example 1000 nitrogen_engine in
  let kf := forwardRateCoefficients RU_example 1000 (snd keq) in
  let kb := backwardRateCoefficients RU_example 1000 (snd kf) in
  vget (fst kb) 0 = exp (vget (m_lnkf (snd kb)) 0 - vget (m_lnkeq (snd kb)) 0)
  /\ vget (fst kb) 0 = vget (fst kf) 0 / vget (fst keq) 0.
Proof.
  apply (backward_is_forward_over_equilibrium RU_example nitrogen_engine 1000 0).
  - apply nitrogen_engine_sealed.
  - reflexivity.
Defined.

Lemma lnkeq_after_update_witness :
  let th := m_thermo nitrogen_engine in
  let g := speciesGOverRT th in
  vget (m_lnkeq (updateT RU_example 1000 nitrogen_engine)) 0
  = vget (m_dnu nitrogen_engine) 0 * ln (101325.0 / (RU_example * 1000))
    + Rsum (map (fun name => vget g (size_of_int (speciesIndex th name)))
                (reactants dissociation))
    - Rsum (map (fun name => vget g (size_of_int (speciesIndex th name)))
                (products dissociation)).
Proof.
  apply (lnkeq_after_update RU_example nitrogen_engine 1000 0 dissociation).
  - apply nitrogen_engine_sealed.
  - reflexivity.
  - apply nitrogen_engine_stale.
Defined.

Lemma duplicate_pass_subscripts_witness :
  let k := addReactions [dissociation] (Kinetics_new nitrogen 0) in
  Forall (fun i => (0 <= i < m_num_rxns k)%N) (duplicate_subscripts (m_num_rxns k))
  /\ (exists d, checkDuplicates k = Some d)
  /\ (let k0 := Kinetics_new nitrogen 0 in
      size_sub (m_num_rxns k0) 1%N = 18446744073709551615%N
      /\ In 0%N (duplicate_subscripts (m_num_rxns k0))
      /\ checkDuplicates k0 = None).
Proof.
  apply (duplicate_pass_subscripts nitrogen 0 [dissociation]). discriminate.
Defined.

Lemma dnu_is_net_mole_change_witness :
  vget (m_dnu nitrogen_engine) 0
  = INR (List.length (products dissociation))
    - INR (List.length (reactants dissociation)).
Proof.
  refine (proj1 (proj1 (proj2 (dnu_is_net_mole_change RU_example false nitrogen 0
                                 [dissociation] nitrogen_engine eq_refl))
                   0%N dissociation eq_refl (or_introl _))).
  intros name Hin. simpl in Hin.
  destruct Hin as [<-|[<-|[<-|[]]]]; unfold speciesIndex; simpl; lia.
Defined.

Lemma production_rates_conserve_mass_witness :
  Rsum (fst (netProductionRates RU_example 1000 [1; 0] nitrogen_engine)) = 0.
Proof.
  exact (production_rates_conserve_mass RU_example nitrogen_engine (fun _ => 14)
           1000 [1; 0] (nitrogen_engine_validated RU_example) nitrogen_weights).
Defined.

(** C1, as stated, does not hold: [netProductionRates] already returns
    mass-basis rates (each mole-basis rate times the molecular weight), so
    multiplying them by the molecular weights once more and summing does
    not give zero.  For the validated mechanism N2 = 2N with weights 28 and
    14 (atomic weight 14), a rate coefficient of one, temperature 1000 and
    concentrations [1; 0], the returned rates are [-28; 28]; they sum to
    zero, and the sum of rate times weight is -392. *)
Lemma mass_rates_times_weights_not_zero :
  let wdot := fst (netProductionRates RU_example 1000 [1; 0] nitrogen_engine) in
  Kinetics_ctor nitrogen 0 [dissociation] = Sealed nitrogen_engine
  /\ weights_from_elements nitrogen (fun _ => 14)
  /\ wdot = [-28; 28]
  /\ species_dot (nSpecies nitrogen) wdot (speciesMw nitrogen) = -392
  /\ species_dot (nSpecies nitrogen) wdot (speciesMw nitrogen) <> 0.
Proof.
  cbv zeta.
  assert (Hw : fst (netProductionRates RU_example 1000 [1; 0] nitrogen_engine)
               = [-28; 28]).
  { unfold netProductionRates, netRatesOfProgress, forwardRateCoefficients,
      backwardRateCoefficients.
    rewrite updateT_idem.
    rewrite (updateT_stale RU_example 1000 nitrogen_engine)
      by (pose proof nitrogen_engine_stale; lra).
    eval_model. rewrite exp_0. repeat (f_equal; try lra). }
  split; [exact nitrogen_ctor|]. split; [exact nitrogen_weights|].
  split; [exact Hw|]. rewrite Hw.
  assert (Hs : species_dot (nSpecies nitrogen) [-28; 28] (speciesMw nitrogen) = -392)
    by (eval_model; lra).
  split; [exact Hs|]. rewrite Hs. lra.
Qed.

Lemma irreversible_backward_rate_witness :
  let k1 := updateT RU_example 1000 nitrogen_irr_engine in
  let kb := exp (vget (m_lnkf k1) 0 - vget (m_lnkeq k1) 0) in
  In (0%N, speciesIndices nitrogen (products dissociation_irr))
     (m_irr_prods nitrogen_irr_engine)
  /\ (forall sps, ~ In (0%N, sps) (m_rev_prods nitrogen_irr_engine))
  /\ vget (fst (backwardRatesOfProgress RU_example 1000 [1; 0] nitrogen_irr_engine)) 0
     = thirdbody_scale nitrogen [1; 0] dissociation_irr kb
  /\ vget (fst (netRatesOfProgress RU_example 1000 [1; 0] nitrogen_irr_engine)) 0
     = thirdbody_scale nitrogen [1; 0] dissociation_irr
         (exp (vget (m_lnkf k1) 0)
          * incidence_prod [1; 0] (reactant_indices nitrogen dissociation_irr) - kb)
  /\ (isThirdbody dissociation_irr = false ->
      0 < vget (fst (backwardRatesOfProgress RU_example 1000 [1; 0]
                       nitrogen_irr_engine)) 0).
Proof.
  exact (irreversible_backward_rate RU_example nitrogen_irr_engine 1000 [1; 0] 0
           dissociation_irr (nitrogen_irr_engine_sealed RU_example) eq_refl eq_refl).
Defined.

Lemma forward_rate_is_mass_action_witness :
  vget (fst (forwardRatesOfProgress RU_example 1000 [1; 0] nitrogen_engine)) 0
  = thirdbody_scale nitrogen [1; 0] dissociation
      (exp (vget (m_lnkf (updateT RU_example 1000 nitrogen_engine)) 0)
       * incidence_prod [1; 0] (reactant_indices nitrogen dissociation))
  /\ (1.0E-6 <= Rabs (1000 - m_T_last nitrogen_engine) ->
      vget (m_lnkf (updateT RU_example 1000 nitrogen_engine)) 0
      = rateLaw dissociation 1000).
Proof.
  exact (forward_rate_is_mass_action RU_example nitrogen_engine 1000 [1; 0] 0
           dissociation (nitrogen_engine_sealed RU_example) eq_refl).
Defined.

Lemma reversible_net_rate_witness :
  let k1 := updateT RU_example 1000 nitrogen_engine in
  vget (fst (netRatesOfProgress RU_example 1000 [1; 0] nitrogen_engine)) 0
  = thirdbody_scale nitrogen [1; 0] dissociation
      (exp (vget (m_lnkf k1) 0)
       * incidence_prod [1; 0] (reactant_indices nitrogen dissociation)
       - exp (vget (m_lnkf k1) 0 - vget (m_lnkeq k1) 0)
         * incidence_prod [1; 0] (product_indices nitrogen dissociation)).
Proof.
  exact (reversible_net_rate RU_example nitrogen_engine 1000 [1; 0] 0
           dissociation (nitrogen_engine_sealed RU_example) eq_refl eq_refl).
Defined.

Lemma net_rate_is_forward_minus_backward_witness :
  fst (netRatesOfProgress RU_example 1000 [1; 0] nitrogen_engine)
  = vsub (fst (forwardRatesOfProgress RU_example 1000 [1; 0] nitrogen_engine))
         (fst (backwardRatesOfProgress RU_example 1000 [1; 0] nitrogen_engine)).
Proof.
  exact (net_rate_is_forward_minus_backward RU_example nitrogen_engine 1000 [1; 0]
           (nitrogen_engine_sealed RU_example)).
Defined.


Lemma jacobian_uses_rate_coefficients_witness :
  jacobianRho RU_example (fun _ _ kf kb _ => kf ++ kb) 1000 [1; 0] nitrogen_engine
  = (fst (forwardRateCoefficients RU_example 1000 nitrogen_engine)
     ++ fst (backwardRateCoefficients RU_example 1000 nitrogen_engine),
     updateT RU_example 1000 nitrogen_engine).
Proof.
  exact (jacobian_uses_rate_coefficients RU_example (fun _ _ kf kb _ => kf ++ kb)
           nitrogen_engine 1000 [1; 0] (nitrogen_engine_sealed RU_example)).
Defined.

Lemma validated_indices_in_range_witness :
  (forall j sps sp,
      In (j, sps) (m_reactants nitrogen_tb_engine)
      \/ In (j, sps) (m_rev_prods nitrogen_tb_engine)
      \/ In (j, sps) (m_irr_prods nitrogen_tb_engine) ->
      In sp sps ->
      (j < m_num_rxns nitrogen_tb_engine)%N
      /\ (sp < nSpecies (m_thermo nitrogen_tb_engine))%N)
  /\ (forall j effs sp e,
         In (j, effs) (m_thirdbodies nitrogen_tb_engine) -> In (sp, e) effs ->
         (j < m_num_rxns nitrogen_tb_engine)%N
         /\ (sp < nSpecies (m_thermo nitrogen_tb_engine))%N).
Proof.
  apply (validated_indices_in_range RU_example nitrogen_tb_engine).
  exact (validated_by_ctor RU_example nitrogen 0 [dissociation_tb] _
           nitrogen_tb_ctor).
Defined.

Lemma species_production_rate_witness :
  let conc := map (vget [1; 0]) (range 0 (nSpecies nitrogen)) in
  let rop := fst (netRatesOfProgress RU_example 1000 conc nitrogen_engine) in
  vget (fst (netProductionRates RU_example 1000 [1; 0] nitrogen_engine)) 1
  = Rsum (zip_with (fun q rx => IZR (net_coefficient nitrogen rx 1) * q)
                   rop (m_reactions nitrogen_engine))
    * speciesMw nitrogen 1.
Proof.
  apply (species_production_rate RU_example nitrogen_engine 1000 [1; 0] 1).
  - apply nitrogen_engine_validated.
  - exact nitrogen_names_NoDup.
  - reflexivity.
Defined.

(** In the mixture [nitrogen], a reaction over N2 and N has its species. *)
Lemma nitrogen_species_exist (r : Reaction) :
  (forall name, In name (reactants r ++ products r) ->
                name = "N2"%string \/ name = "N"%string) ->
  species_exist nitrogen r.
Proof.
  intros H name Hin. destruct (H name Hin) as [-> | ->]; unfold speciesIndex; simpl; lia.
Qed.

Lemma nitrogen_steps_exist (rxns : list Reaction) :
  Forall (fun r => forall name, In name (reactants r ++ products r) ->
                                name = "N2"%string \/ name = "N"%string) rxns ->
  forall rx, In rx rxns -> species_exist nitrogen rx.
Proof.
  intros H rx Hrx. apply nitrogen_species_exist.
  exact (proj1 (Forall_forall _ _) H rx Hrx).
Qed.

Ltac nitrogen_names :=
  repeat (apply Forall_cons; [simpl; intuition|]); apply Forall_nil.

Lemma dissociation_twice_duplicate :
  duplicate_pair nitrogen [dissociation; dissociation] 0 1 dissociation dissociation.
Proof. repeat (split; [reflexivity|]). eval_model. reflexivity. Qed.

Lemma duplicate_reactions_reported_witness :
  exists cerr,
    Kinetics_ctor nitrogen 0 [dissociation; dissociation] = ExitFailure cerr
    /\ In (Identical 1 (formula dissociation) 2 (formula dissociation)) cerr.
Proof.
  apply (proj2 (proj2 (duplicate_reactions_reported nitrogen 0
                         [dissociation; dissociation] 0 1 dissociation dissociation
                         dissociation_twice_duplicate))).
  apply nitrogen_steps_exist. nitrogen_names.
Defined.

(** The open question of the design document: a step and the same step
    with tripled coefficients have the same direction, but their
    normalized vectors differ in the last place, and the duplicate pass
    writes nothing. *)
Lemma tripled_step_is_not_reported :
  checkDuplicates (addReactions [unbalanced; unbalanced_tripled]
                     (Kinetics_new nitrogen 0)) = Some [].
Proof. eval_model. reflexivity. Qed.

Lemma unbalanced_residual :
  vget (getReactionDelta
          (addReactions [unbalanced; unbalanced; thirdbody_step_x]
             (Kinetics_new nitrogen 0))
          (element_column nitrogen 0) (vzero 3)) 0 <> 0.
Proof. eval_model. lra. Qed.

Lemma validation_reports_every_problem_witness :
  (exists cerr,
     Kinetics_ctor nitrogen 0 [unbalanced; unbalanced; thirdbody_step_x]
     = ExitFailure cerr
     /\ In (ThirdbodyMissing 3 "N2+M=2N+M" "X") cerr
     /\ In (Identical 1 "N2=N" 2 "N2=N") cerr
     /\ In (NotConserved 1 "N2=N" "N") cerr)
  /\ Kinetics_ctor nitrogen 0 [unbalanced; broken_step] = Undefined.
Proof.
  split.
  - destruct (validation_reports_every_problem nitrogen 0
                [unbalanced; unbalanced; thirdbody_step_x])
      as (d1 & d2 & _ & _ & _ & Htb & Hd & Hin & _); [discriminate|].
    destruct Hin as (d3 & _ & Hc & Hm);
      [apply nitrogen_steps_exist; nitrogen_names|].
    assert (H1 : In (ThirdbodyMissing 3 "N2+M=2N+M" "X") d1).
    { apply (Htb 2%N thirdbody_step_x "X"%string);
        [reflexivity|reflexivity|simpl; auto|reflexivity]. }
    assert (H2 : In (Identical 1 "N2=N" 2 "N2=N") d2).
    { apply (Hd 0%N 1%N unbalanced unbalanced).
      repeat (split; [reflexivity|]). eval_model. reflexivity. }
    assert (H3 : In (NotConserved 1 "N2=N" "N") d3).
    { apply (Hm 0%N 0%N unbalanced); [reflexivity|reflexivity|].
      exact unbalanced_residual. }
    exists (d1 ++ d2 ++ d3). rewrite !in_app_iff.
    split; [|auto 10].
    rewrite Hc. destruct d1; [destruct H1|reflexivity].
  - destruct (validation_reports_every_problem nitrogen 0 [unbalanced; broken_step])
      as (d1 & d2 & _ & _ & _ & _ & _ & _ & Hout); [discriminate|].
    apply Hout.
    + exists broken_step, "X"%string.
      split; [right; now left|]. split; [simpl; auto|reflexivity].
    + reflexivity.
    + reflexivity.
Defined.

(** C7, at a mechanism with a missing species the code does not do what
    the claim says: the three passes do not all run to completion.  For
    the single step N2 = N + X over the mixture of N2 and N, the species
    pass writes its line for X and the duplicate pass has no pair to
    compare; the conservation pass then calls [getReactionDelta], which
    reads [stoichi] (two entries) at the index [2^64 - 1] under which
    [addReaction] registered X.  The constructor does not reach the exit
    that follows the report: its behaviour is undefined. *)
Lemma missing_species_cuts_validation_short :
  let k := addReactions [broken_step] (Kinetics_new nitrogen 0) in
  checkSpecies k = Some [SpeciesMissing 1 "N2=N+X" "X"]
  /\ checkDuplicates k = Some []
  /\ In (0%N, [1%N; 18446744073709551615%N]) (m_rev_prods k)
  /\ List.length (element_column nitrogen 0) = 2%nat
  /\ checkConservation k = None
  /\ Kinetics_ctor nitrogen 0 [broken_step] = Undefined
  /\ ~ (exists cerr, Kinetics_ctor nitrogen 0 [broken_step] = ExitFailure cerr).
Proof.
  cbv zeta.
  assert (Hc : checkConservation (addReactions [broken_step] (Kinetics_new nitrogen 0))
               = None) by reflexivity.
  assert (Hu : Kinetics_ctor nitrogen 0 [broken_step] = Undefined).
  { unfold Kinetics_ctor, closeReactions, validate. now rewrite Hc. }
  repeat (split; [reflexivity|]).
  split; [now left|]. split; [reflexivity|]. split; [exact Hc|].
  split; [exact Hu|]. rewrite Hu. intros [cerr H]. discriminate.
Qed.

Lemma unbalanced_alone_residual : conservation_residual nitrogen unbalanced 0 <> 0.
Proof. eval_model. lra. Qed.

Lemma validation_fails_iff_witness :
  (forall k', Kinetics_ctor nitrogen 0 [unbalanced] <> Sealed k')
  /\ (exists cerr, Kinetics_ctor nitrogen 0 [unbalanced] = ExitFailure cerr).
Proof.
  destruct (validation_fails_iff nitrogen 0 [unbalanced] nitrogen_names_NoDup)
    as (H1 & H2); [discriminate|].
  assert (Hp : exists e r, (e < nElements nitrogen)%N /\ In r [unbalanced]
                           /\ conservation_residual nitrogen r e <> 0).
  { exists 0%N, unbalanced. split; [reflexivity|]. split; [now left|].
    exact unbalanced_alone_residual. }
  split.
  - apply H1. left. exact Hp.
  - apply H2; [apply nitrogen_steps_exist; nitrogen_names|]. left. exact Hp.
Defined.

Lemma idle_steps_not_reported :
  checkDuplicates (VC := binary64_vectors)
    (addReactions [idle_step; idle_step] (Kinetics_new nitrogen 0)) = Some [].
Proof. eval_model. reflexivity. Qed.

Lemma zero_net_reactions_escape_duplicate_pass_witness :
  checkDuplicates (VC := binary64_vectors)
    (addReactions [idle_step; idle_step] (Kinetics_new nitrogen 0)) = Some []
  /\ ~ In (Identical 1 (formula idle_step) 2 (formula idle_step)) [].
Proof.
  split; [exact idle_steps_not_reported|].
  apply (zero_net_reactions_escape_duplicate_pass nitrogen 0 [idle_step; idle_step]
           0 1 idle_step idle_step []); try reflexivity.
  - unfold nSpecies. simpl. lia.
  - left. intros sp Hsp.
    assert (Hcase : sp = 0%N \/ sp = 1%N)
      by (unfold nSpecies in Hsp; simpl in Hsp; lia).
    destruct Hcase as [-> | ->]; reflexivity.
Defined.


(* ================================================================= *)
(** ** Lookup tables *)


Lemma uint_of_Z_small (z : Z) : (0 <= z < UINT_WIDTH)%Z -> uint_of_Z z = Z.to_N z.
Proof. intros H. unfold uint_of_Z. now rewrite Z.mod_small. Qed.

Lemma uint_sub_small (a b : N) :
  (b <= a)%N -> (Z.of_N a < UINT_WIDTH)%Z -> uint_sub a b = (a - b)%N.
Proof. intros H1 H2. unfold uint_sub. rewrite uint_of_Z_small; lia. Qed.


Lemma uint_mul_small (a b : N) :
  (Z.of_N (a * b) < UINT_WIDTH)%Z -> uint_mul a b = (a * b)%N.
Proof. intros H. unfold uint_mul. rewrite uint_of_Z_small; lia. Qed.

Lemma firstn_all_N {A : Type} (l : list A) (n : N) :
  N.of_nat (List.length l) = n -> firstn (N.to_nat n) l = l.
Proof. intros <-. rewrite Nat2N.id. apply firstn_all. Qed.

(** The position [lower_bound] returns: the elements before it are less
    than the value, the element at it is not. *)
Lemma lower_bound_spec (l : list R) (v : R) :
  (lower_bound l v <= N.of_nat (List.length l))%N
  /\ (forall i x, (i < lower_bound l v)%N -> at_index l i = Some x -> x < v)
  /\ (forall x, at_index l (lower_bound l v) = Some x -> v <= x).
Proof.
  induction l as [|y t (IH1 & IH2 & IH3)]; cbn [lower_bound List.length].
  - split; [lia|]. split; [intros i x Hi; lia|]. intros x H. discriminate.
  - destruct (Rlt_dec y v) as [Hy|Hy].
    + split; [lia|]. split.
      * intros i x Hi. cbn [at_index].
        destruct (N.eqb_spec i 0) as [->|Hne]; [intros [= <-]; exact Hy|].
        apply IH2. lia.
      * intros x. rewrite at_index_succ. apply IH3.
    + split; [lia|]. split; [intros i x Hi; lia|].
      cbn [at_index N.eqb]. intros x [= <-]. lra.
Qed.

(** On an ascending list, the position of the first element not below the
    value is known from its neighbours. *)
Lemma lower_bound_between (l : list R) (v : R) (p : N) (x : R) :
  (forall i j xi xj, (i < j)%N -> at_index l i = Some xi ->
                     at_index l j = Some xj -> xi < xj) ->
  (forall i xi, (i < p)%N -> at_index l i = Some xi -> xi < v) ->
  at_index l p = Some x -> v <= x -> lower_bound l v = p.
Proof.
  intros Hasc Hbelow Hp Hx.
  destruct (lower_bound_spec l v) as (H1 & H2 & H3).
  destruct (N.lt_trichotomy (lower_bound l v) p) as [Hlt|[E|Hgt]]; [|exact E|].
  - exfalso. destruct (at_index_lt l (lower_bound l v)) as [y Hy].
    { apply at_index_Some_lt in Hp. lia. }
    pose proof (H3 y Hy). pose proof (Hbelow _ y Hlt Hy). lra.
  - exfalso. pose proof (H2 p x Hgt Hp). lra.
Qed.

Lemma lower_bound_end (l : list R) (v : R) :
  (forall x, In x l -> x < v) -> lower_bound l v = N.of_nat (List.length l).
Proof.
  induction l as [|y t IH]; intros H; [reflexivity|].
  cbn [lower_bound List.length].
  destruct (Rlt_dec y v) as [Hy|Hy].
  - rewrite IH by (intros x Hx; apply H; now right). lia.
  - exfalso. apply Hy, H. now left.
Qed.

Lemma read_cells_Some (array : list R) (cells : list N) :
  (forall c, In c cells -> (c < N.of_nat (List.length array))%N) ->
  exists out, read_cells array cells = Some out
              /\ List.length out = List.length cells.
Proof.
  induction cells as [|c t IH]; intros H; cbn [read_cells].
  - exists []. auto.
  - destruct (at_index_lt array c (H c (or_introl eq_refl))) as [x Hx].
    destruct (IH (fun c' Hc' => H c' (or_intror Hc'))) as (out & Ho & Hl).
    rewrite Hx, Ho. exists (x :: out). split; [reflexivity|]. simpl. now rewrite Hl.
Qed.

Lemma map_add_range_from (p : N) (c : nat) (lo : N) :
  map (N.add p) (range_from c lo) = range_from c (p + lo).
Proof.
  revert lo; induction c as [|c IH]; intros lo; [reflexivity|].
  cbn [range_from map]. rewrite IH. f_equal. f_equal. lia.
Qed.

Lemma map_add_range (p len : N) :
  map (N.add p) (range 0 len) = range p (p + len).
Proof.
  unfold range. rewrite map_add_range_from, N.add_0_r.
  f_equal. lia.
Qed.

(** The interpolation loop over two rows that can be read. *)
Lemma interpolate_cells_zip (f : R -> R -> R) (array : list R) (p1 p2 : N)
    (cells : list N) (y1 y2 : list R) :
  read_cells array (map (N.add p1) cells) = Some y1 ->
  read_cells array (map (N.add p2) cells) = Some y2 ->
  interpolate_cells f array p1 p2 cells = Some (zip_with f y1 y2).
Proof.
  revert y1 y2; induction cells as [|c t IH]; intros y1 y2;
    cbn [map read_cells interpolate_cells].
  - intros [= <-] [= <-]. reflexivity.
  - destruct (at_index array (p1 + c)) as [a|]; [|discriminate].
    destruct (read_cells array (map (N.add p1) t)) as [r1|]; [|discriminate].
    destruct (at_index array (p2 + c)) as [b|]; [|discriminate].
    destruct (read_cells array (map (N.add p2) t)) as [r2|]; [|discriminate].
    intros [= <-] [= <-]. now rewrite (IH r1 r2).
Qed.

Lemma zip_with_left (f : R -> R -> R) (y1 y2 : list R) :
  (forall a b, f a b = a) -> List.length y1 = List.length y2 ->
  zip_with f y1 y2 = y1.
Proof.
  intros Hf. revert y2; induction y1 as [|a y1 IH]; intros [|b y2] H;
    try discriminate; [reflexivity|].
  cbn [zip_with]. rewrite Hf, IH; [reflexivity|simpl in H; lia].
Qed.

Lemma zip_with_right (f : R -> R -> R) (y1 y2 : list R) :
  (forall a b, f a b = b) -> List.length y1 = List.length y2 ->
  zip_with f y1 y2 = y2.
Proof.
  intros Hf. revert y2; induction y1 as [|a y1 IH]; intros [|b y2] H;
    try discriminate; [reflexivity|].
  cbn [zip_with]. rewrite Hf, IH; [reflexivity|simpl in H; lia].
Qed.

(** Row [i] of a table can be read, for every row of the table. *)
Lemma table_row (t : LookupTable) (i : N) :
  table_inv t -> (i < m_num_indices t)%N ->
  uint_mul i (m_num_functions t) = (i * m_num_functions t)%N
  /\ exists row,
       read_row (mp_data t) (i * m_num_functions t) (m_num_functions t) = Some row
       /\ N.of_nat (List.length row) = m_num_functions t.
Proof.
  intros Ht Hi. pose proof (ti_small t Ht) as Hs. pose proof (ti_data t Ht) as Hd.
  assert (Hle : (i * m_num_functions t + m_num_functions t
                 <= m_num_indices t * m_num_functions t)%N) by nia.
  split; [apply uint_mul_small; nia|].
  unfold read_row.
  destruct (read_cells_Some (mp_data t)
              (range (i * m_num_functions t)
                     (i * m_num_functions t + m_num_functions t)))
    as (out & Ho & Hl).
  { intros c Hc. apply In_range in Hc. lia. }
  exists out. split; [exact Ho|]. rewrite Hl, range_length. lia.
Qed.

(** [lookup] once the two rows are known. *)
Lemma lookup_between_rows (t : LookupTable) (index : R) (lo up : N)
    (xl xu : R) (y1 y2 : list R) :
  table_inv t -> lookup_rows t index = Some (lo, up) ->
  (lo < m_num_indices t)%N -> (up < m_num_indices t)%N ->
  at_index (mp_indices t) lo = Some xl -> at_index (mp_indices t) up = Some xu ->
  read_row (mp_data t) (lo * m_num_functions t) (m_num_functions t) = Some y1 ->
  read_row (mp_data t) (up * m_num_functions t) (m_num_functions t) = Some y2 ->
  let ratio := (index - xl) / (xu - xl) in
  lookup t index LINEAR = Some (zip_with (fun a b => a + ratio * (b - a)) y1 y2)
  /\ lookup t index NEAREST_INDEX = Some (if Rlt_dec ratio 0.5 then y1 else y2)
  /\ lookup t index EXPONENTIAL
     = Some (zip_with (fun a b => exp (ln a + ratio * (ln b - ln a))) y1 y2).
Proof.
  intros Ht Hrows Hlo Hup Hxl Hxu Hy1 Hy2 ratio.
  destruct (table_row t lo Ht Hlo) as [Hm1 _].
  destruct (table_row t up Ht Hup) as [Hm2 _].
  unfold lookup. rewrite Hrows, Hxl, Hxu, Hm1, Hm2. fold ratio.
  unfold _interpolateLinear, _interpolateExponential, _interpolateNearestIndex.
  unfold read_row in Hy1, Hy2. rewrite <- map_add_range in Hy1, Hy2.
  split; [|split].
  - now apply interpolate_cells_zip.
  - unfold read_row. rewrite <- !map_add_range.
    destruct (Rlt_dec ratio 0.5); assumption.
  - exact (interpolate_cells_zip
             (fun a b => let log1 := ln a in exp (log1 + ratio * (ln b - log1)))
             _ _ _ _ y1 y2 Hy1 Hy2).
Qed.

Lemma read_row_length (array : list R) (offset length : N) (row : list R) :
  read_row array offset length = Some row ->
  N.of_nat (List.length row) = length.
Proof.
  unfold read_row. intros H.
  assert (G : forall cells out, read_cells array cells = Some out ->
                                List.length out = List.length cells).
  { induction cells as [|c cs IH]; intros out; cbn [read_cells].
    - now intros [= <-].
    - destruct (at_index array c); [|discriminate].
      destruct (read_cells array cs) as [o|]; [|discriminate].
      intros [= <-]. simpl. now rewrite (IH o eq_refl). }
  rewrite (G _ _ H), range_length. lia.
Qed.

(** The rows of a searched table around an index above the first one. *)
Lemma searched_rows (t : LookupTable) (index : R) (p : N) (x0 xl xu : R) :
  table_inv t -> m_is_constant_delta t = false ->
  at_index (mp_indices t) 0 = Some x0 -> x0 < index ->
  (1 <= p)%N -> at_index (mp_indices t) (p - 1) = Some xl ->
  at_index (mp_indices t) p = Some xu -> xl < index -> index <= xu ->
  lookup_rows t index = Some ((p - 1)%N, p).
Proof.
  intros Ht Hflag H0 Hgt Hp Hxl Hxu Hl Hu.
  unfold lookup_rows. rewrite H0, Hflag.
  destruct (Rlt_dec x0 index); [|contradiction].
  rewrite (firstn_all_N _ _ (ti_indices t Ht)).
  assert (E : lower_bound (mp_indices t) index = p).
  { apply (lower_bound_between _ _ p xu (ti_ascending t Ht)); try assumption.
    intros i xi Hi Hxi.
    destruct (N.eq_dec i (p - 1)) as [->|Hne].
    - rewrite Hxl in Hxi. now injection Hxi as <-.
    - pose proof (ti_ascending t Ht i (p - 1)%N xi xl ltac:(lia) Hxi Hxl). lra. }
  rewrite E, uint_sub_small; [reflexivity|lia|].
  pose proof (ti_rows t Ht). pose proof (ti_indices t Ht).
  apply at_index_Some_lt in Hxu. lia.
Qed.

(** X22, a nearest-index lookup at a tabulated index returns the tabulated
    row: in a table of at least two rows with ascending indices and
    without constant spacing, [lookup] at the index of row [i] works on
    rows 0 and 1 with ratio 0 when [i] is the first row and on rows [i-1]
    and [i] with ratio 1 otherwise, and with the nearest-index scheme it
    returns row [i] of the data, which that scheme copies without
    computing on its values.  (The linear and the exponential scheme
    compute the row from its neighbour, and return it only up to the
    rounding of that computation.) *)
Theorem lookup_at_tabulated_index (t : LookupTable) (i : N) (xi : R) :
  table_inv t -> m_is_constant_delta t = false -> (2 <= m_num_indices t)%N ->
  at_index (mp_indices t) i = Some xi ->
  let row := read_row (mp_data t) (i * m_num_functions t) (m_num_functions t) in
  row <> None
  /\ lookup_rows t xi = Some (if (i =? 0)%N then (0%N, 1%N) else ((i - 1)%N, i))
  /\ lookup t xi NEAREST_INDEX = row.
Proof.
  intros Ht Hflag Hn Hi row.
  pose proof (ti_indices t Ht) as Hlen.
  assert (Hin : (i < m_num_indices t)%N)
    by (apply at_index_Some_lt in Hi; lia).
  destruct (N.eqb_spec i 0) as [->|Hi0].
  - destruct (at_index_lt (mp_indices t) 1) as [x1 H1]; [lia|].
    destruct (table_row t 0 Ht Hin) as (_ & y1 & Hy1 & L1).
    destruct (table_row t 1 Ht ltac:(lia)) as (_ & y2 & Hy2 & L2).
    assert (Hrows : lookup_rows t xi = Some (0%N, 1%N)).
    { unfold lookup_rows. rewrite Hi. destruct (Rlt_dec xi xi); [lra|reflexivity]. }
    destruct (lookup_between_rows t xi 0 1 xi x1 y1 y2 Ht Hrows Hin ltac:(lia)
                Hi H1 Hy1 Hy2) as (_ & EN & _).
    pose proof (ti_ascending t Ht 0 1 xi x1 ltac:(lia) Hi H1) as Hasc.
    assert (Hr : (xi - xi) / (x1 - xi) = 0) by (field; lra).
    rewrite Hr in EN. subst row. rewrite Hy1.
    split; [discriminate|]. split; [exact Hrows|].
    rewrite EN. destruct (Rlt_dec 0 0.5); [reflexivity|lra].
  - destruct (at_index_lt (mp_indices t) 0) as [x0 H0]; [lia|].
    destruct (at_index_lt (mp_indices t) (i - 1)) as [xl Hxl]; [lia|].
    pose proof (ti_ascending t Ht (i - 1) i xl xi ltac:(lia) Hxl Hi) as Hasc.
    assert (H0i : x0 < xi).
    { exact (ti_ascending t Ht 0 i x0 xi ltac:(lia) H0 Hi). }
    pose proof (searched_rows t xi i x0 xl xi Ht Hflag H0 H0i ltac:(lia) Hxl Hi
                  Hasc (Rle_refl xi)) as Hrows.
    destruct (table_row t (i - 1) Ht ltac:(lia)) as (_ & y1 & Hy1 & L1).
    destruct (table_row t i Ht Hin) as (_ & y2 & Hy2 & L2).
    destruct (lookup_between_rows t xi (i - 1) i xl xi y1 y2 Ht Hrows ltac:(lia)
                Hin Hxl Hi Hy1 Hy2) as (_ & EN & _).
    assert (Hr : (xi - xl) / (xi - xl) = 1) by (field; lra).
    rewrite Hr in EN. subst row. rewrite Hy2.
    split; [discriminate|]. split; [exact Hrows|].
    rewrite EN. destruct (Rlt_dec 1 0.5); [lra|reflexivity].
Qed.

Lemma example_table_inv : table_inv example_table.
Proof.
  constructor; try reflexivity.
  intros i j xi xj Hij Hi Hj.
  assert (Hj3 : (j < 3)%N) by (apply at_index_Some_lt in Hj; simpl in Hj; lia).
  assert (Hc : ((i = 0 /\ j = 1) \/ (i = 0 /\ j = 2) \/ (i = 1 /\ j = 2))%N)
    by lia.
  destruct Hc as [[-> ->]|[[-> ->]|[-> ->]]]; cbn in Hi, Hj;
    injection Hi as <-; injection Hj as <-; lra.
Qed.

Lemma lookup_at_tabulated_index_witness :
  let row := read_row (mp_data example_table) (1 * m_num_functions example_table)
               (m_num_functions example_table) in
  row <> None
  /\ lookup_rows example_table 2 = Some (0%N, 1%N)
  /\ lookup example_table 2 NEAREST_INDEX = row.
Proof.
  apply (lookup_at_tabulated_index example_table 1 2 example_table_inv).
  - reflexivity.
  - discriminate.
  - reflexivity.
Defined.

(** X23, a lookup inside the table interpolates between the two
    neighbouring rows: in a table with ascending indices and without
    constant spacing, for an index above the first and not above the last
    index, [lookup] uses two consecutive rows whose indices bracket the
    index ([x_lower < index <= x_upper]), the ratio lies in (0, 1], the
    linear scheme returns [y1 + ratio (y2 - y1)] entry by entry, which lies
    between the two tabulated values, and the nearest-index scheme returns
    the lower row when the ratio is below one half and the upper row
    otherwise. *)
Theorem lookup_interpolates_between_neighbours (t : LookupTable) (index : R)
    (x0 xlast : R) :
  table_inv t -> m_is_constant_delta t = false ->
  at_index (mp_indices t) 0 = Some x0 ->
  at_index (mp_indices t) (m_num_indices t - 1) = Some xlast ->
  x0 < index -> index <= xlast ->
  exists p xl xu y1 y2,
    (1 <= p < m_num_indices t)%N
    /\ at_index (mp_indices t) (p - 1) = Some xl
    /\ at_index (mp_indices t) p = Some xu
    /\ xl < index /\ index <= xu
    /\ read_row (mp_data t) ((p - 1) * m_num_functions t) (m_num_functions t)
       = Some y1
    /\ read_row (mp_data t) (p * m_num_functions t) (m_num_functions t) = Some y2
    /\ let ratio := (index - xl) / (xu - xl) in
       0 < ratio /\ ratio <= 1
       /\ lookup t index LINEAR
          = Some (zip_with (fun a b => a + ratio * (b - a)) y1 y2)
       /\ lookup t index NEAREST_INDEX = Some (if Rlt_dec ratio 0.5 then y1 else y2)
       /\ forall j a b, at_index y1 j = Some a -> at_index y2 j = Some b ->
            Rmin a b <= a + ratio * (b - a) <= Rmax a b.
Proof.
  intros Ht Hflag H0 Hlast Hgt Hle.
  pose proof (ti_indices t Ht) as Hlen.
  assert (Hn : (1 <= m_num_indices t)%N)
    by (apply at_index_Some_lt in H0; lia).
  destruct (lower_bound_spec (mp_indices t) index) as (B1 & B2 & B3).
  set (p := lower_bound (mp_indices t) index) in *.
  assert (Hp1 : (1 <= p)%N).
  { destruct (N.eq_dec p 0) as [E|E]; [|lia].
    rewrite E in B3. pose proof (B3 x0 H0). lra. }
  assert (Hpn : (p < m_num_indices t)%N).
  { destruct (N.lt_ge_cases p (m_num_indices t)) as [H|H]; [exact H|].
    assert (Hlt : (m_num_indices t - 1 < p)%N) by lia.
    pose proof (B2 _ xlast Hlt Hlast). lra. }
  destruct (at_index_lt (mp_indices t) (p - 1)) as [xl Hxl]; [lia|].
  destruct (at_index_lt (mp_indices t) p) as [xu Hxu]; [lia|].
  assert (Hl : xl < index) by (apply (B2 (p - 1)%N xl); [lia|exact Hxl]).
  assert (Hu : index <= xu) by (exact (B3 xu Hxu)).
  pose proof (searched_rows t index p x0 xl xu Ht Hflag H0 Hgt Hp1 Hxl Hxu Hl Hu)
    as Hrows.
  destruct (table_row t (p - 1) Ht ltac:(lia)) as (_ & y1 & Hy1 & L1).
  destruct (table_row t p Ht Hpn) as (_ & y2 & Hy2 & L2).
  destruct (lookup_between_rows t index (p - 1) p xl xu y1 y2 Ht Hrows ltac:(lia)
              Hpn Hxl Hxu Hy1 Hy2) as (EL & EN & _).
  exists p, xl, xu, y1, y2.
  repeat (split; [first [assumption|lia]|]).
  cbv zeta.
  assert (Hd : 0 < xu - xl) by lra.
  assert (Hr0 : 0 < (index - xl) / (xu - xl)).
  { apply Rdiv_lt_0_compat; lra. }
  assert (Hr1 : (index - xl) / (xu - xl) <= 1).
  { apply (Rmult_le_reg_r (xu - xl)); [exact Hd|].
    unfold Rdiv. rewrite Rmult_assoc, Rinv_l by lra. lra. }
  split; [exact Hr0|]. split; [exact Hr1|]. split; [exact EL|]. split; [exact EN|].
  intros j a b _ _. set (r := (index - xl) / (xu - xl)) in *.
  unfold Rmin, Rmax. destruct (Rle_dec a b); split; nra.
Qed.

Lemma lookup_interpolates_between_neighbours_witness :
  exists p xl xu y1 y2,
    (1 <= p < m_num_indices example_table)%N
    /\ at_index (mp_indices example_table) (p - 1) = Some xl
    /\ at_index (mp_indices example_table) p = Some xu
    /\ xl < 3 /\ 3 <= xu
    /\ read_row (mp_data example_table)
         ((p - 1) * m_num_functions example_table)
         (m_num_functions example_table) = Some y1
    /\ read_row (mp_data example_table) (p * m_num_functions example_table)
         (m_num_functions example_table) = Some y2
    /\ let ratio := (3 - xl) / (xu - xl) in
       0 < ratio /\ ratio <= 1
       /\ lookup example_table 3 LINEAR
          = Some (zip_with (fun a b => a + ratio * (b - a)) y1 y2)
       /\ lookup example_table 3 NEAREST_INDEX
          = Some (if Rlt_dec ratio 0.5 then y1 else y2)
       /\ forall j a b, at_index y1 j = Some a -> at_index y2 j = Some b ->
            Rmin a b <= a + ratio * (b - a) <= Rmax a b.
Proof.
  apply (lookup_interpolates_between_neighbours example_table 3 1 4
           example_table_inv); try reflexivity; lra.
Defined.

(** X24, lookups that leave the table: a table with fewer than two rows
    has no pair of rows to interpolate between, and every [lookup] on it
    subscripts [mp_indices] out of range; in a table without constant
    spacing, a [lookup] at an index above the last index takes
    [lower_bound]'s end position as the upper row and subscripts
    [mp_indices] at [m_num_indices]. *)
Theorem lookup_outside_table (t : LookupTable) (index : R)
    (scheme : InterpolationScheme) :
  table_inv t ->
  ((m_num_indices t < 2)%N -> lookup t index scheme = None)
  /\ (m_is_constant_delta t = false ->
      (forall x, In x (mp_indices t) -> x < index) ->
      lookup t index scheme = None).
Proof.
  intros Ht. pose proof (ti_indices t Ht) as Hlen. split.
  - intros Hn. unfold lookup, lookup_rows.
    assert (H1 : forall p, (1 <= p)%N -> at_index (mp_indices t) p = None)
      by (intros p Hp; apply at_index_None; lia).
    destruct (at_index (mp_indices t) 0) as [x0|] eqn:H0; [|reflexivity].
    destruct (Rlt_dec x0 index) as [Hgt|Hle].
    + destruct (m_is_constant_delta t); [now rewrite H1 by lia|].
      rewrite (firstn_all_N _ _ Hlen).
      destruct (lower_bound_spec (mp_indices t) index) as (_ & _ & B3).
      rewrite (H1 (lower_bound (mp_indices t) index)).
      * destruct (at_index (mp_indices t) (uint_sub _ 1)); reflexivity.
      * destruct (N.eq_dec (lower_bound (mp_indices t) index) 0) as [E|E]; [|lia].
        rewrite E in B3. pose proof (B3 x0 H0). lra.
    + rewrite H0, H1 by lia. reflexivity.
  - intros Hflag Hall. unfold lookup, lookup_rows.
    destruct (at_index (mp_indices t) 0) as [x0|] eqn:H0; [|reflexivity].
    pose proof (Hall x0 (at_index_In _ _ _ H0)) as Hgt.
    destruct (Rlt_dec x0 index); [|contradiction].
    rewrite Hflag, (firstn_all_N _ _ Hlen), (lower_bound_end _ _ Hall), Hlen.
    rewrite (at_index_None (mp_indices t) (m_num_indices t)) by lia.
    destruct (at_index (mp_indices t) (uint_sub _ 1)); reflexivity.
Qed.

Lemma lookup_outside_table_witness :
  ((m_num_indices example_table < 2)%N -> lookup example_table 5 LINEAR = None)
  /\ (m_is_constant_delta example_table = false ->
      (forall x, In x (mp_indices example_table) -> x < 5) ->
      lookup example_table 5 LINEAR = None).
Proof.
  exact (lookup_outside_table example_table 5 LINEAR example_table_inv).
Defined.





Lemma at_index_app_l {A : Type} (l l' : list A) (j : N) :
  (j < N.of_nat (List.length l))%N -> at_index (l ++ l') j = at_index l j.
Proof.
  revert j; induction l as [|y t IH]; intros j Hj; [simpl in Hj; lia|].
  cbn [app at_index]. destruct (N.eqb_spec j 0); [reflexivity|].
  apply IH. cbn [List.length] in Hj. lia.
Qed.

Lemma at_index_app_length {A : Type} (l : list A) (x : A) (l' : list A) :
  at_index (l ++ x :: l') (N.of_nat (List.length l)) = Some x.
Proof.
  induction l as [|y t IH]; [reflexivity|].
  cbn [List.length app at_index].
  destruct (N.eqb_spec (N.of_nat (S (List.length t))) 0); [lia|].
  rewrite Nat2N.inj_succ, N.pred_succ. exact IH.
Qed.

Lemma vget_at_index (l : list R) (j : N) (y : R) :
  at_index l j = Some y -> vget l j = y.
Proof.
  revert j; induction l as [|x t IH]; intros j; cbn [at_index vget]; [discriminate|].
  destruct (j =? 0)%N; [now intros [= <-]|apply IH].
Qed.

(** The loop of [loadTable] over the rows, from row [i] on. *)
Lemma load_rows_spec (rows : list (R * list R)) :
  forall (i : N) (indices : list R) (flag : bool),
    N.of_nat (List.length indices) = i ->
    let L := indices ++ map fst rows in
    match load_rows rows i indices flag with
    | inl r =>
        (2 <= r)%N /\ (i + 1 <= r)%N
        /\ (exists x xp, at_index L (r - 1) = Some x
                         /\ at_index L (r - 2) = Some xp /\ x <= xp)
        /\ (forall j xj xj1, (i <= j + 1)%N -> (j + 2 < r)%N ->
              at_index L j = Some xj -> at_index L (j + 1) = Some xj1 -> xj < xj1)
    | inr (indices', flag') =>
        indices' = L
        /\ (forall j xj xj1, (i <= j + 1)%N ->
              at_index L j = Some xj -> at_index L (j + 1) = Some xj1 -> xj < xj1)
        /\ (flag' = true <->
            flag = true
            /\ forall j a b c, (i <= j + 2)%N ->
                 at_index L j = Some a -> at_index L (j + 1) = Some b ->
                 at_index L (j + 2) = Some c ->
                 Rabs ((c - b) - (b - a)) < 1.0e-6 * a)
    end.
Proof.
  induction rows as [|[x vals] rest IH]; intros i indices flag Hlen L.
  - cbn [load_rows]. subst L. cbn [map]. rewrite app_nil_r.
    split; [reflexivity|]. split.
    + intros j xj xj1 Hj _ H1. apply at_index_Some_lt in H1. lia.
    + split; [intros ->; split; [reflexivity|]|intros [-> _]; reflexivity].
      intros j a b c Hj _ _ H2. apply at_index_Some_lt in H2. lia.
  - cbn [load_rows]. cbn [map fst] in L.
    assert (Hx : at_index L i = Some x)
      by (subst L; rewrite <- Hlen; apply at_index_app_length).
    assert (Hold : forall j, (j < i)%N ->
               at_index L j = Some (vget indices j)).
    { intros j Hj. subst L. rewrite at_index_app_l by lia.
      destruct (at_index_lt indices j) as [y Hy]; [lia|].
      now rewrite Hy, (vget_at_index _ _ _ Hy). }
    assert (HL : (indices ++ [x]) ++ map fst rest = L)
      by (subst L; now rewrite <- app_assoc).
    assert (Hlen' : N.of_nat (List.length (indices ++ [x])) = (i + 1)%N)
      by (rewrite length_app; simpl; lia).
    destruct ((0 <? i)%N && (if Rle_dec x (vget indices (i - 1)) then true else false))
      eqn:Etest.
    + apply andb_prop in Etest. destruct Etest as [Hi Hle].
      apply N.ltb_lt in Hi.
      destruct (Rle_dec x (vget indices (i - 1))) as [Hle'|]; [|discriminate].
      split; [lia|]. split; [lia|]. split.
      * exists x, (vget indices (i - 1)).
        replace (i + 1 - 1)%N with i by lia.
        replace (i + 1 - 2)%N with (i - 1)%N by lia.
        split; [exact Hx|]. split; [apply Hold; lia|exact Hle'].
      * intros j xj xj1 H1 H2. lia.
    + assert (Hpair : forall j xj xj1, (j + 1 = i)%N ->
                 at_index L j = Some xj -> at_index L (j + 1) = Some xj1 ->
                 xj < xj1).
      { intros j xj xj1 Hj H1 H2. rewrite Hj, Hx in H2. injection H2 as <-.
        rewrite Hold in H1 by lia. injection H1 as <-.
        apply andb_false_iff in Etest. destruct Etest as [E|E].
        - apply N.ltb_ge in E. lia.
        - replace (i - 1)%N with j in E by lia.
          destruct (Rle_dec x (vget indices j)); [discriminate|lra]. }
      specialize (IH (i + 1)%N (indices ++ [x])
                     (if (1 <? i)%N
                      then flag && (if Rlt_dec
                                         (Rabs ((x - vget indices (i - 1))
                                                - (vget indices (i - 1)
                                                   - vget indices (i - 2))))
                                         (1.0e-6 * vget indices (i - 2))
                                    then true else false)
                      else flag) Hlen').
      cbv zeta in IH. rewrite HL in IH.
      destruct (load_rows rest (i + 1) (indices ++ [x]) _) as [r|[ind' flag']].
      * destruct IH as (R1 & R2 & R3 & R4).
        split; [exact R1|]. split; [lia|]. split; [exact R3|].
        intros j xj xj1 Hj Hr H1 H2.
        destruct (N.eq_dec (j + 1) i) as [E|E]; [now apply (Hpair j)|].
        apply (R4 j); auto. lia.
      * destruct IH as (R1 & R2 & R3).
        split; [exact R1|]. split.
        -- intros j xj xj1 Hj H1 H2.
           destruct (N.eq_dec (j + 1) i) as [E|E]; [now apply (Hpair j)|].
           apply (R2 j); auto. lia.
        -- rewrite R3. clear R3.
           destruct (N.ltb_spec 1 i) as [Hi|Hi].
           ++ assert (Htriple : forall a b c,
                        at_index L (i - 2) = Some a ->
                        at_index L (i - 2 + 1) = Some b ->
                        at_index L (i - 2 + 2) = Some c ->
                        a = vget indices (i - 2) /\ b = vget indices (i - 1)
                        /\ c = x).
              { intros a b c Ha Hb Hc.
                rewrite Hold in Ha by lia.
                replace (i - 2 + 1)%N with (i - 1)%N in Hb by lia.
                rewrite Hold in Hb by lia.
                replace (i - 2 + 2)%N with i in Hc by lia.
                rewrite Hx in Hc. injection Ha as <-. injection Hb as <-.
                injection Hc as <-. auto. }
              rewrite andb_true_iff. split.
              ** intros [[Hf Ht] Hall]. split; [exact Hf|].
                 intros j a b c Hj Ha Hb Hc.
                 destruct (N.eq_dec (j + 2) i) as [E|E]; [|apply (Hall j); auto; lia].
                 assert (j = (i - 2)%N) as -> by lia.
                 destruct (Htriple a b c Ha Hb Hc) as (-> & -> & ->).
                 destruct (Rlt_dec _ _); [assumption|discriminate].
              ** intros [Hf Hall]. split; [split; [exact Hf|]|].
                 --- destruct (at_index_lt L (i - 2)) as [a Ha].
                     { apply at_index_Some_lt in Hx. lia. }
                     destruct (at_index_lt L (i - 2 + 1)) as [b Hb].
                     { apply at_index_Some_lt in Hx. lia. }
                     destruct (at_index_lt L (i - 2 + 2)) as [c Hc].
                     { apply at_index_Some_lt in Hx.
                       replace (i - 2 + 2)%N with i by lia. exact Hx. }
                     pose proof (Hall (i - 2)%N a b c ltac:(lia) Ha Hb Hc) as Ht.
                     destruct (Htriple a b c Ha Hb Hc) as (-> & -> & ->).
                     destruct (Rlt_dec _ _); [reflexivity|contradiction].
                 --- intros j a b c Hj. apply Hall. lia.
           ++ split.
              ** intros [Hf Hall]. split; [exact Hf|].
                 intros j a b c Hj Ha Hb Hc.
                 destruct (N.eq_dec (j + 2) i) as [E|E]; [lia|].
                 apply (Hall j); auto. lia.
              ** intros [Hf Hall]. split; [exact Hf|].
                 intros j a b c Hj. apply Hall. lia.
Qed.

(** X26, what [loadTable] checks: the table is loaded exactly when the
    indices of the rows ascend strictly; otherwise the process exits and
    the message names the first row (counted from one) whose index is not
    above the index of the row before it.  A loaded table holds the indices
    in file order, and it is marked as evenly spaced exactly when, for
    every three consecutive indices [a], [b], [c], the difference of the
    two steps is below [1e-6 a] in absolute value; such a table has only
    positive indices, its last two apart. *)
Theorem loadTable_checks_order (num_indices num_functions : Z)
    (rows : list (R * list R)) :
  let L := map fst rows in
  ((exists t, loadTable num_indices num_functions rows = TableLoaded t)
   <-> ascending L)
  /\ (forall t, loadTable num_indices num_functions rows = TableLoaded t ->
        mp_indices t = L
        /\ (m_is_constant_delta t = true <->
            forall j a b c,
              at_index L j = Some a -> at_index L (j + 1) = Some b ->
              at_index L (j + 2) = Some c ->
              Rabs ((c - b) - (b - a)) < 1.0e-6 * a)
        /\ (m_is_constant_delta t = true ->
            forall j a, (j + 2 < N.of_nat (List.length L))%N ->
                        at_index L j = Some a -> 0 < a))
  /\ (forall r, loadTable num_indices num_functions rows = TableNotOrdered r ->
        (2 <= r)%N
        /\ (exists x xp, at_index L (r - 1) = Some x
                         /\ at_index L (r - 2) = Some xp /\ x <= xp)
        /\ (forall j xj xj1, (j + 2 < r)%N ->
              at_index L j = Some xj -> at_index L (j + 1) = Some xj1 ->
              xj < xj1)).
Proof.
  intros L. unfold loadTable.
  pose proof (load_rows_spec rows 0 [] true eq_refl) as H.
  cbv zeta in H. cbn [app] in H. fold L in H.
  destruct (load_rows rows 0 [] true) as [r|[indices flag]].
  - destruct H as (R1 & _ & (x & xp & Hx & Hxp & Hle) & R4).
    split; [|split].
    + split; [intros [t Ht]; discriminate|].
      intros Hasc. exfalso.
      replace (r - 1)%N with (r - 2 + 1)%N in Hx by lia.
      pose proof (Hasc _ _ _ Hxp Hx). lra.
    + intros t Ht. discriminate.
    + intros r' [= <-]. split; [exact R1|]. split; [eauto|].
      intros j xj xj1 Hj. apply R4; lia.
  - destruct H as (-> & R2 & R3).
    assert (Hflag : flag = true <->
                    forall j a b c,
                      at_index L j = Some a -> at_index L (j + 1) = Some b ->
                      at_index L (j + 2) = Some c ->
                      Rabs ((c - b) - (b - a)) < 1.0e-6 * a).
    { rewrite R3. split.
      - intros [_ Hall] j a b c. apply Hall. lia.
      - intros Hall. split; [reflexivity|]. intros j a b c _. apply Hall. }
    split; [|split].
    + split; [|eauto]. intros _ j xj xj1. apply R2. lia.
    + intros t [= <-]. cbn [mp_indices m_is_constant_delta].
      split; [reflexivity|]. split; [exact Hflag|].
      intros Hf j a Hj Ha.
      destruct (at_index_lt L (j + 1)) as [b Hb]; [lia|].
      destruct (at_index_lt L (j + 2)) as [c Hc]; [lia|].
      pose proof (proj1 Hflag Hf j a b c Ha Hb Hc) as Ht.
      pose proof (Rabs_pos ((c - b) - (b - a))). lra.
    + intros r Hr. discriminate.
Qed.
